(** * KeyVault Pro: the vault engine, its hosts and the CSV adapter

    A shallow embedding of the JavaScript sources of the repository:
    - the browser extension ([EncryptionService], [StorageManager], the
      background message handlers and the popup),
    - the MCP server ([KeyVaultMCPServer]),
    - the terminal client ([KeyVaultCLI]),
    - the import/export adapter ([ImportExportManager]).

    JavaScript strings are modelled as sequences of 8-bit code units
    ([list ascii]); numbers that hold timestamps and counters as [Z],
    with the rounding of doubles where the code adds to a counter;
    arrays as lists; [undefined]/[null] as [None]. *)

From Stdlib Require Import String Ascii List ZArith Lia Bool Arith DecimalString.
From Stdlib Require Import Sorting.Permutation Sorting.Sorted.
Import ListNotations.

Local Open Scope Z_scope.

(* ================================================================== *)
(** ** JavaScript strings *)
(* ================================================================== *)

Module JS.

Definition str := list ascii.

(** A literal. *)
Definition js (s : string) : str := list_ascii_of_string s.

Definition code (c : ascii) : Z := Z.of_nat (nat_of_ascii c).
Definition chr (z : Z) : ascii := ascii_of_nat (Z.to_nat z).

Definition ascii_eqb (a b : ascii) : bool := Ascii.eqb a b.

Fixpoint str_eqb (a b : str) : bool :=
  match a, b with
  | [], [] => true
  | x :: a', y :: b' => ascii_eqb x y && str_eqb a' b'
  | _, _ => false
  end.

(** The comparison of two strings with [===] and [!==] is the scan
    [str_eqb], which answers at the first pair of code units that differ;
    [str_eqb_steps] is the number of pairs it looks at. *)
Fixpoint str_eqb_steps (a b : str) : nat :=
  match a, b with
  | x :: a', y :: b' => if ascii_eqb x y then S (str_eqb_steps a' b') else 1%nat
  | _, _ => O
  end.

(** [String.prototype.toLowerCase] on code units below 256: the letters
    A-Z and the Latin-1 capitals (0xC0-0xDE except the multiplication
    sign 0xD7) move up by 32. *)
Definition lower_char (c : ascii) : ascii :=
  let n := code c in
  if ((65 <=? n) && (n <=? 90)) || ((192 <=? n) && (n <=? 222) && negb (n =? 215))
  then chr (n + 32) else c.

Definition toLowerCase (s : str) : str := map lower_char s.

(** [s.startsWith(p)] *)
Fixpoint startsWith (s p : str) {struct p} : bool :=
  match p, s with
  | [], _ => true
  | _ :: _, [] => false
  | y :: p', x :: s' => ascii_eqb x y && startsWith s' p'
  end.

(** [s.includes(p)]: [p] occurs at some position of [s]. *)
Fixpoint includes (s p : str) : bool :=
  startsWith s p ||
  match s with
  | [] => false
  | _ :: s' => includes s' p
  end.

(** White space and line terminators removed by [String.prototype.trim],
    among code units below 256. *)
Definition is_space (c : ascii) : bool :=
  let n := code c in
  ((9 <=? n) && (n <=? 13)) || (n =? 32) || (n =? 160).

Fixpoint trimStart (s : str) : str :=
  match s with
  | [] => []
  | c :: s' => if is_space c then trimStart s' else s
  end.

Definition trimEnd (s : str) : str := rev (trimStart (rev s)).

Definition trim (s : str) : str := trimEnd (trimStart s).

(** [s.split(sep)] for a one-character separator given as a predicate
    (so that the regular expression [/[,;]/] is covered too); the result
    always has at least one element. *)
Fixpoint split_on (sep : ascii -> bool) (s : str) : list str :=
  match s with
  | [] => [[]]
  | c :: s' =>
      if sep c then [] :: split_on sep s'
      else match split_on sep s' with
           | [] => [[c]]
           | w :: ws => (c :: w) :: ws
           end
  end.

(** [parts.join(sep)] *)
Fixpoint join (sep : str) (parts : list str) : str :=
  match parts with
  | [] => []
  | [p] => p
  | p :: ps => p ++ sep ++ join sep ps
  end.

(** Truthiness of a string: only the empty string is falsy. *)
Definition truthy (s : str) : bool :=
  match s with [] => false | _ => true end.

Definition newline : ascii := chr 10.
Definition comma : ascii := chr 44.
Definition semicolon : ascii := chr 59.
Definition dquote : ascii := chr 34.

(** Numbers are IEEE 754 doubles. The integers among them are the
    integers written with at most 53 significant bits: every integer up
    to 2^53 in magnitude, every second one up to 2^54, every fourth one
    up to 2^55, and so on. [round53 z] is the double nearest to the
    integer [z], a tie going to the even significand; [is_double z] says
    that [z] is such an integer. *)
Definition round53 (z : Z) : Z :=
  let a := Z.abs z in
  let e := Z.log2 a - 52 in
  if e <=? 0 then z
  else
    let u := 2 ^ e in
    let q := a / u in
    let r := a mod u in
    let q' := if (u <? 2 * r) || ((2 * r =? u) && Z.odd q) then q + 1 else q in
    Z.sgn z * (q' * u).

Definition is_double (z : Z) : bool := round53 z =? z.

(** [a + 1] on an integer that is a double: the exact sum, rounded. The
    sum never overflows: the largest double plus 1 is the largest
    double. *)
Definition add1 (a : Z) : Z := round53 (a + 1).

End JS.

(* ================================================================== *)
(** ** SHA-256 (FIPS 180-4), as called through
       [crypto.createHash('sha256').update(s).digest('hex')] *)
(* ================================================================== *)

Module SHA256.

Definition w32 (x : Z) : Z := Z.land x 0xffffffff.
Definition add32 (x y : Z) : Z := w32 (x + y).
Definition rotr (n x : Z) : Z := Z.lor (Z.shiftr x n) (w32 (Z.shiftl x (32 - n))).
Definition shr (n x : Z) : Z := Z.shiftr x n.
Definition not32 (x : Z) : Z := Z.lxor x 0xffffffff.

Definition Ch (x y z : Z) := Z.lxor (Z.land x y) (Z.land (not32 x) z).
Definition Maj (x y z : Z) :=
  Z.lxor (Z.lxor (Z.land x y) (Z.land x z)) (Z.land y z).
Definition Sigma0 x := Z.lxor (Z.lxor (rotr 2 x) (rotr 13 x)) (rotr 22 x).
Definition Sigma1 x := Z.lxor (Z.lxor (rotr 6 x) (rotr 11 x)) (rotr 25 x).
Definition sigma0 x := Z.lxor (Z.lxor (rotr 7 x) (rotr 18 x)) (shr 3 x).
Definition sigma1 x := Z.lxor (Z.lxor (rotr 17 x) (rotr 19 x)) (shr 10 x).

(** The round constants and the initial hash value are the first 32 bits
    of the fractional parts of the cube roots of the first 64 primes and of
    the square roots of the first 8. *)
Definition is_prime (n : Z) : bool :=
  forallb (fun d => negb (n mod Z.of_nat d =? 0)) (seq 2 (Z.to_nat n - 2)).

Definition primes : list Z :=
  Eval vm_compute in filter is_prime (map Z.of_nat (seq 2 310)).

(** The integer cube root, found bit by bit from bit [n - 1] down. *)
Fixpoint cube_root_bits (n : nat) (x r : Z) : Z :=
  match n with
  | O => r
  | S n' =>
      let c := Z.lor r (Z.shiftl 1 (Z.of_nat n')) in
      cube_root_bits n' x (if c * c * c <=? x then c else r)
  end.

Definition cube_root (x : Z) : Z := cube_root_bits 40 x 0.

Definition K : list Z :=
  Eval vm_compute in map (fun p => w32 (cube_root (Z.shiftl p 96))) primes.

Definition H0 : list Z :=
  Eval vm_compute in map (fun p => w32 (Z.sqrt (Z.shiftl p 64))) (firstn 8 primes).

(** Big-endian bytes of a word and back. *)
Fixpoint be_bytes (n : nat) (x : Z) : list Z :=
  match n with
  | O => []
  | S n' => Z.land (Z.shiftr x (8 * Z.of_nat n')) 0xff :: be_bytes n' x
  end.

Definition be_word (bs : list Z) : Z :=
  fold_left (fun acc b => Z.lor (Z.shiftl acc 8) b) bs 0.

Fixpoint words (n : nat) (bs : list Z) : list Z :=
  match n with
  | O => []
  | S n' => be_word (firstn 4 bs) :: words n' (skipn 4 bs)
  end.

(** Padding: a 1 bit, zeros, and the bit length on 64 bits. *)
Definition pad (msg : list Z) : list Z :=
  let l := Z.of_nat (length msg) in
  let k := Z.to_nat ((55 - l) mod 64) in
  msg ++ [0x80] ++ repeat 0 k ++ be_bytes 8 (8 * l).

(** The message schedule, kept most recent word first. *)
Fixpoint schedule (n : nat) (ws : list Z) : list Z :=
  match n with
  | O => ws
  | S n' =>
      let w := add32 (add32 (sigma1 (nth 1 ws 0)) (nth 6 ws 0))
                     (add32 (sigma0 (nth 14 ws 0)) (nth 15 ws 0)) in
      schedule n' (w :: ws)
  end.

Record regs := Regs { ra : Z; rb : Z; rc : Z; rd : Z; re : Z; rf : Z; rg : Z; rh : Z }.

Definition round (r : regs) (kw : Z * Z) : regs :=
  let '(k, w) := kw in
  let t1 := add32 (add32 (add32 (rh r) (Sigma1 (re r))) (Ch (re r) (rf r) (rg r)))
                  (add32 k w) in
  let t2 := add32 (Sigma0 (ra r)) (Maj (ra r) (rb r) (rc r)) in
  Regs (add32 t1 t2) (ra r) (rb r) (rc r) (add32 (rd r) t1) (re r) (rf r) (rg r).

Definition regs_of (h : list Z) : regs :=
  Regs (nth 0 h 0) (nth 1 h 0) (nth 2 h 0) (nth 3 h 0)
       (nth 4 h 0) (nth 5 h 0) (nth 6 h 0) (nth 7 h 0).

Definition list_of (r : regs) : list Z :=
  [ra r; rb r; rc r; rd r; re r; rf r; rg r; rh r].

Definition compress (h : list Z) (block : list Z) : list Z :=
  let ws := rev (schedule 48 (rev (words 16 block))) in
  let r := fold_left round (combine K ws) (regs_of h) in
  map (fun p => add32 (fst p) (snd p)) (combine h (list_of r)).

Fixpoint blocks (n : nat) (h : list Z) (bs : list Z) : list Z :=
  match n with
  | O => h
  | S n' => blocks n' (compress h (firstn 64 bs)) (skipn 64 bs)
  end.

Definition digest (msg : list Z) : list Z :=
  let p := pad msg in
  flat_map (be_bytes 4) (blocks (length p / 64) H0 p).

Definition hex_digit (d : Z) : ascii :=
  if d <? 10 then JS.chr (48 + d) else JS.chr (87 + d).

Definition hex (bs : list Z) : JS.str :=
  flat_map (fun b => [hex_digit (Z.shiftr b 4); hex_digit (Z.land b 15)]) bs.

(** UTF-8 encoding of a string whose code units are below 256. *)
Definition utf8 (s : JS.str) : list Z :=
  flat_map (fun c =>
    let n := JS.code c in
    if n <? 128 then [n]
    else [Z.lor 0xc0 (Z.shiftr n 6); Z.lor 0x80 (Z.land n 0x3f)]) s.

Definition sha256_hex (s : JS.str) : JS.str := hex (digest (utf8 s)).

End SHA256.

Import JS.


(* ================================================================== *)
(** ** [JSON.parse] *)
(* ================================================================== *)

Module JSON.

(** A JSON value. Strings are kept as code units, a number as its
    text. *)
#[warnings="-register-all"] Inductive json : Type :=
| JNull
| JBool (b : bool)
| JNumber (text : str)
| JString (units : list Z)
| JArray (items : list json)
| JObject (members : list (list Z * json)).

Inductive token : Type :=
| TLBrace | TRBrace | TLBracket | TRBracket | TColon | TComma
| TString (units : list Z)
| TNumber (text : str)
| TWord (v : json).

(** Where the scanner is inside a number: after the sign, after a
    leading zero, in the integer digits, after the point, in the
    fraction digits, after the exponent letter, after the sign of the
    exponent, in the exponent digits. *)
Inductive number_state : Type :=
| NSign | NZero | NInt | NPoint | NFraction | NExp | NExpSign | NExpDigits.

(** A number may end after a leading zero and inside a run of digits. *)
Definition number_done (n : number_state) : bool :=
  match n with
  | NZero | NInt | NFraction | NExpDigits => true
  | _ => false
  end.

Inductive scan_state : Type :=
| Idle
| InString (units : list Z)                   (* the units read, last first *)
| InEscape (units : list Z)
| InUnicode (units : list Z) (digits : nat) (value : Z)
| InNumber (n : number_state) (text : str)    (* the text read, last first *)
| InWord (rest : str) (v : json).

Definition is_digit (c : ascii) : bool := (48 <=? code c) && (code c <=? 57).

Definition hex_value (c : ascii) : option Z :=
  let n := code c in
  if (48 <=? n) && (n <=? 57) then Some (n - 48)
  else if (65 <=? n) && (n <=? 70) then Some (n - 55)
  else if (97 <=? n) && (n <=? 102) then Some (n - 87)
  else None.

(** White space between tokens: tab, line feed, carriage return,
    space. *)
Definition is_ws (c : ascii) : bool :=
  let n := code c in (n =? 9) || (n =? 10) || (n =? 13) || (n =? 32).

(** The scanner between tokens, on the code unit [c]: the new state and
    the tokens completed. *)
Definition start (c : ascii) : option (scan_state * list token) :=
  let n := code c in
  if is_ws c then Some (Idle, [])
  else if n =? 123 then Some (Idle, [TLBrace])
  else if n =? 125 then Some (Idle, [TRBrace])
  else if n =? 91 then Some (Idle, [TLBracket])
  else if n =? 93 then Some (Idle, [TRBracket])
  else if n =? 58 then Some (Idle, [TColon])
  else if n =? 44 then Some (Idle, [TComma])
  else if n =? 34 then Some (InString [], [])
  else if n =? 45 then Some (InNumber NSign [c], [])
  else if n =? 48 then Some (InNumber NZero [c], [])
  else if is_digit c then Some (InNumber NInt [c], [])
  else if n =? 116 then Some (InWord (js "rue") (JBool true), [])
  else if n =? 102 then Some (InWord (js "alse") (JBool false), [])
  else if n =? 110 then Some (InWord (js "ull") JNull, [])
  else None.

(** The next state of a number on a code unit that continues it. *)
Definition number_step (s : number_state) (c : ascii) : option number_state :=
  let n := code c in
  let point := n =? 46 in
  let exp := (n =? 101) || (n =? 69) in
  let sign := (n =? 43) || (n =? 45) in
  match s with
  | NSign => if n =? 48 then Some NZero else if is_digit c then Some NInt else None
  | NZero => if point then Some NPoint else if exp then Some NExp else None
  | NInt => if is_digit c then Some NInt
            else if point then Some NPoint else if exp then Some NExp else None
  | NPoint => if is_digit c then Some NFraction else None
  | NFraction => if is_digit c then Some NFraction else if exp then Some NExp else None
  | NExp => if sign then Some NExpSign else if is_digit c then Some NExpDigits else None
  | NExpSign => if is_digit c then Some NExpDigits else None
  | NExpDigits => if is_digit c then Some NExpDigits else None
  end.

(** The code unit that an escape letter stands for. *)
Definition escape (c : ascii) : option Z :=
  let n := code c in
  if (n =? 34) || (n =? 92) || (n =? 47) then Some n
  else if n =? 98 then Some 8
  else if n =? 102 then Some 12
  else if n =? 110 then Some 10
  else if n =? 114 then Some 13
  else if n =? 116 then Some 9
  else None.

(** One step of the scanner. *)
Definition step (st : scan_state) (c : ascii) : option (scan_state * list token) :=
  let n := code c in
  match st with
  | Idle => start c
  | InString units =>
      if n =? 34 then Some (Idle, [TString (rev units)])
      else if n =? 92 then Some (InEscape units, [])
      else if n <? 32 then None
      else Some (InString (n :: units), [])
  | InEscape units =>
      if n =? 117 then Some (InUnicode units 0 0, [])
      else match escape c with
           | Some u => Some (InString (u :: units), [])
           | None => None
           end
  | InUnicode units digits value =>
      match hex_value c with
      | None => None
      | Some h =>
          let value' := value * 16 + h in
          if (digits =? 3)%nat then Some (InString (value' :: units), [])
          else Some (InUnicode units (S digits) value', [])
      end
  | InNumber s text =>
      match number_step s c with
      | Some s' => Some (InNumber s' (c :: text), [])
      | None =>
          if number_done s then
            match start c with
            | Some (st', toks) => Some (st', TNumber (rev text) :: toks)
            | None => None
            end
          else None
      end
  | InWord rest v =>
      match rest with
      | [] => None
      | x :: rest' =>
          if ascii_eqb x c
          then match rest' with
               | [] => Some (Idle, [TWord v])
               | _ => Some (InWord rest' v, [])
               end
          else None
      end
  end.

(** The tokens of a text; [None] when the text is cut inside a token or
    holds a code unit that starts none. *)
Fixpoint scan (st : scan_state) (s : str) : option (list token) :=
  match s with
  | [] =>
      match st with
      | Idle => Some []
      | InNumber n text => if number_done n then Some [TNumber (rev text)] else None
      | _ => None
      end
  | c :: s' =>
      match step st c with
      | None => None
      | Some (st', toks) =>
          match scan st' s' with
          | Some rest => Some (toks ++ rest)
          | None => None
          end
      end
  end.

(** An array or an object that is being read: the items or members read
    so far, last first, and for an object the name whose value is being
    read. *)
Inductive frame : Type :=
| InArray (items : list json)
| InObject (members : list (list Z * json)) (name : list Z).

(** What the parser expects: a value ([first] right after an opening
    bracket, where the array may close at once), a member name ([first]
    right after an opening brace), the colon after a name, or what
    follows a complete value. *)
Inductive parse_state : Type :=
| ExpectValue (first : bool) (stack : list frame)
| ExpectName (first : bool) (members : list (list Z * json)) (stack : list frame)
| ExpectColon (name : list Z) (members : list (list Z * json)) (stack : list frame)
| AfterValue (v : json) (stack : list frame).

Definition parse_step (st : parse_state) (t : token) : option parse_state :=
  match st with
  | ExpectValue first stack =>
      match t with
      | TString units => Some (AfterValue (JString units) stack)
      | TNumber text => Some (AfterValue (JNumber text) stack)
      | TWord v => Some (AfterValue v stack)
      | TLBracket => Some (ExpectValue true (InArray [] :: stack))
      | TLBrace => Some (ExpectName true [] stack)
      | TRBracket =>
          if first then
            match stack with
            | InArray [] :: stack' => Some (AfterValue (JArray []) stack')
            | _ => None
            end
          else None
      | _ => None
      end
  | ExpectName first members stack =>
      match t with
      | TString name => Some (ExpectColon name members stack)
      | TRBrace => if first then Some (AfterValue (JObject []) stack) else None
      | _ => None
      end
  | ExpectColon name members stack =>
      match t with
      | TColon => Some (ExpectValue false (InObject members name :: stack))
      | _ => None
      end
  | AfterValue v stack =>
      match stack with
      | [] => None
      | InArray items :: stack' =>
          match t with
          | TComma => Some (ExpectValue false (InArray (v :: items) :: stack'))
          | TRBracket => Some (AfterValue (JArray (rev (v :: items))) stack')
          | _ => None
          end
      | InObject members name :: stack' =>
          match t with
          | TComma => Some (ExpectName false ((name, v) :: members) stack')
          | TRBrace => Some (AfterValue (JObject (rev ((name, v) :: members))) stack')
          | _ => None
          end
      end
  end.

Fixpoint parse_tokens (st : parse_state) (ts : list token) : option json :=
  match ts with
  | [] =>
      match st with
      | AfterValue v [] => Some v
      | _ => None
      end
  | t :: ts' =>
      match parse_step st t with
      | Some st' => parse_tokens st' ts'
      | None => None
      end
  end.

(** [JSON.parse(text)]; [None] when it throws a SyntaxError. *)
Definition parse (text : str) : option json :=
  match scan Idle text with
  | Some ts => parse_tokens (ExpectValue false []) ts
  | None => None
  end.

(** The value of the property [name] of an object: of members with the
    same name the last one counts. *)
Fixpoint property (name : list Z) (members : list (list Z * json)) : option json :=
  match members with
  | [] => None
  | (n, v) :: rest =>
      match property name rest with
      | Some v' => Some v'
      | None => if list_eq_dec Z.eq_dec n name then Some v else None
      end
  end.

(** Whether [value.keys] is an array. *)
Definition has_keys_array (value : json) : bool :=
  match value with
  | JObject members =>
      match property (map code (js "keys")) members with
      | Some (JArray _) => true
      | _ => false
      end
  | _ => false
  end.

End JSON.

(** Decimal text of an integer, as template literals print numbers. *)
Definition decimal (z : Z) : str :=
  js (DecimalString.NilZero.string_of_int (Z.to_int z)).

(** [a || b] on optional strings: [undefined] and the empty string are falsy. *)
Definition or_str (a : option str) (b : str) : str :=
  match a with
  | Some s => if truthy s then s else b
  | None => b
  end.

(** [a || 0] on an optional number. *)
Definition or_zero (a : option Z) : Z :=
  match a with
  | Some n => n
  | None => 0
  end.

(** [a || null] on an optional number: zero is falsy. *)
Definition or_null (a : option Z) : option Z :=
  match a with
  | Some n => if n =? 0 then None else Some n
  | None => None
  end.

Definition or_list {A} (a : option (list A)) : list A :=
  match a with
  | Some l => l
  | None => []
  end.

(** [arr.includes(s)] and [arr.some(f)] on arrays of strings. *)
Definition arr_includes (arr : list str) (s : str) : bool :=
  existsb (str_eqb s) arr.

(** Errors thrown by the vault code, by their message. *)
Inductive error : Type :=
| VaultLocked            (* 'Vault is locked' *)
| InvalidMasterPassword  (* 'Invalid master password' *)
| KeyNotFound            (* 'Key not found' *)
| DecryptionFailed       (* 'Decryption failed: ...' *)
| SyntaxError            (* JSON.parse on text that is not JSON *)
| TypeError.             (* a property read on undefined *)

Inductive result (A : Type) : Type :=
| Ok (a : A)
| Err (e : error).
Arguments Ok {A} a.
Arguments Err {A} e.

(* ================================================================== *)
(** ** The extension's [EncryptionService] *)
(* ================================================================== *)

Module EncryptionService.

Definition bytes := list Z.

Definition algorithm : str := js "AES-GCM".
Definition keyLength : Z := 256.
Definition ivLength : nat := 12.
Definition saltLength : nat := 16.
Definition iterations : Z := 100000.

(** What Web Crypto computes is kept symbolic: a derived hash and a sealed
    envelope record the inputs they were computed from, and the derived
    bits of two (password, salt, iterations) triples agree exactly when
    the triples do (PBKDF2 without collisions, AES-GCM whose tag check
    passes under the sealing key only). *)
Inductive derived : Type :=
| Pbkdf2Bits (password : str) (salt : bytes) (iters : Z) (bits : Z).

(** The base64 text kept under [passwordHash]: salt, then derived bits;
    any other text. *)
Inductive verifier : Type :=
| SaltedHash (salt : bytes) (bits : derived)
| OtherHash (raw : str).

(** The base64 text of a sealed value: salt, iv, AES-GCM ciphertext and
    tag; any other text. *)
Inductive envelope : Type :=
| Sealed (salt iv : bytes) (key : derived) (plaintext : str)
| Raw (raw : str).

Definition deriveKey (password : str) (salt : bytes) : derived :=
  Pbkdf2Bits password salt iterations keyLength.

Definition bytes_eqb (a b : bytes) : bool :=
  (length a =? length b)%nat && forallb (fun p => fst p =? snd p) (combine a b).

Definition derived_eqb (a b : derived) : bool :=
  match a, b with
  | Pbkdf2Bits p s i n, Pbkdf2Bits p' s' i' n' =>
      str_eqb p p' && bytes_eqb s s' && (i =? i') && (n =? n')
  end.

(** [encryptData(data, password)] with the salt and iv that
    [crypto.getRandomValues] returned. *)
Definition encryptData (salt iv : bytes) (data : str) (password : str) : envelope :=
  Sealed salt iv (deriveKey password salt) data.

(** [decryptData(encryptedBase64, password)] *)
Definition decryptData (e : envelope) (password : str) : result str :=
  match e with
  | Sealed salt iv k plaintext =>
      if derived_eqb k (deriveKey password salt) then Ok plaintext
      else Err DecryptionFailed
  | Raw _ => Err DecryptionFailed
  end.

(** [hashPassword(password)] with the salt drawn. *)
Definition hashPassword (salt : bytes) (password : str) : verifier :=
  SaltedHash salt (Pbkdf2Bits password salt iterations 256).

(** [constantTimeEqual(a, b)] on byte arrays: the loop, with the number
    of iterations it ran. *)
Fixpoint constantTimeLoop (a b : bytes) (result : Z) (steps : nat) : Z * nat :=
  match a, b with
  | x :: a', y :: b' => constantTimeLoop a' b' (Z.lor result (Z.lxor x y)) (S steps)
  | _, _ => (result, steps)
  end.

Definition constantTimeEqual_steps (a b : bytes) : bool * nat :=
  if negb (length a =? length b)%nat then (false, O)
  else let '(r, n) := constantTimeLoop a b 0 O in (r =? 0, n).

Definition constantTimeEqual (a b : bytes) : bool := fst (constantTimeEqual_steps a b).

(** [verifyMasterPassword(password)] against the stored hash; the second
    component is the hash stored afterwards (the first call installs it). *)
Definition verifyMasterPassword (salt : bytes) (stored : option verifier)
    (password : str) : bool * option verifier :=
  match stored with
  | None => (true, Some (hashPassword salt password))
  | Some (SaltedHash s h) =>
      (derived_eqb h (Pbkdf2Bits password s iterations 256), stored)
  | Some (OtherHash _) => (false, stored)
  end.

End EncryptionService.

(* ================================================================== *)
(** ** The extension's [StorageManager] *)
(* ================================================================== *)

Module StorageManager.

Import EncryptionService.

(** A key record; [V] is the type of [keyValue]: an [envelope] in storage,
    the plaintext in what [getAllKeys] and [getKey] return. *)
Record key (V : Type) : Type := Key {
  id : str;
  serviceName : str;
  keyValue : V;
  environment : str;
  tags : list str;
  createdAt : Z;
  lastUsed : option Z;
  usageCount : option Z;
  expiresAt : option Z;
  notes : str;
  domains : list str;
  color : str;
  favorite : bool;
  rateLimit : str;
  estimatedCost : Z
}.
Arguments Key {V}.
Arguments id {V}. Arguments serviceName {V}. Arguments keyValue {V}.
Arguments environment {V}. Arguments tags {V}. Arguments createdAt {V}.
Arguments lastUsed {V}. Arguments usageCount {V}. Arguments expiresAt {V}.
Arguments notes {V}. Arguments domains {V}. Arguments color {V}.
Arguments favorite {V}. Arguments rateLimit {V}. Arguments estimatedCost {V}.

(** [{...key, keyValue: v}] *)
Definition with_keyValue {V W} (k : key V) (v : W) : key W :=
  Key (id k) (serviceName k) v (environment k) (tags k) (createdAt k)
      (lastUsed k) (usageCount k) (expiresAt k) (notes k) (domains k)
      (color k) (favorite k) (rateLimit k) (estimatedCost k).

(** The settings object; a missing property is [None]. *)
Record settings : Type := Settings {
  autoLockMinutes : option Z;
  clipboardClearSeconds : option Z;
  theme : option str;
  showUsageStats : option bool;
  enableAutoFill : option bool;
  showExpirationWarnings : option bool;
  expirationWarningDays : option Z;
  maskKeys : option bool;
  enableAuditLog : option bool
}.

Definition getDefaultSettings : settings :=
  Settings (Some 15) (Some 30) (Some (js "dark")) (Some true) (Some true)
           (Some true) (Some 7) (Some true) (Some true).

Definition no_settings : settings :=
  Settings None None None None None None None None None.

Definition over {A} (new old : option A) : option A :=
  match new with
  | Some v => Some v
  | None => old
  end.

(** [{...a, ...b}] on settings objects. *)
Definition mergeSettings (a b : settings) : settings :=
  Settings (over (autoLockMinutes b) (autoLockMinutes a))
           (over (clipboardClearSeconds b) (clipboardClearSeconds a))
           (over (theme b) (theme a))
           (over (showUsageStats b) (showUsageStats a))
           (over (enableAutoFill b) (enableAutoFill a))
           (over (showExpirationWarnings b) (showExpirationWarnings a))
           (over (expirationWarningDays b) (expirationWarningDays a))
           (over (maskKeys b) (maskKeys a))
           (over (enableAuditLog b) (enableAuditLog a)).

Definition or_settings (s : option settings) : settings :=
  match s with
  | Some s' => s'
  | None => no_settings
  end.

Record auditEntry : Type := AuditEntry {
  audit_id : str;
  action : str;
  timestamp : Z
}.

(** The object kept under [vaultData]; a missing property is [None]. *)
Record data : Type := Data {
  initialized : option bool;
  keys : option (list (key envelope));
  settings_ : option settings;
  auditLog : option (list auditEntry);
  lastActivity : option Z
}.

Definition empty_data : data := Data None None None None None.

(** [chrome.storage.local] and the manager's own fields. *)
Record world : Type := World {
  vaultData : option data;
  passwordHash : option verifier;
  sessionKey : option str;
  isUnlocked : bool
}.

(** What a call reads from its surroundings: the clock and the random
    sources ([Math.random] for ids and colours, [getRandomValues] for salt
    and iv). *)
Record env : Type := Env {
  now : Z;
  rand_suffix : str;
  rand_salt : bytes;
  rand_iv : bytes;
  rand_color : nat
}.

Definition getStorageData (w : world) : data :=
  match vaultData w with
  | Some d => d
  | None => empty_data
  end.

Definition setStorageData (d : data) (w : world) : world :=
  World (Some d) (passwordHash w) (sessionKey w) (isUnlocked w).

Definition set_keys (d : data) (ks : list (key envelope)) : data :=
  Data (initialized d) (Some ks) (settings_ d) (auditLog d) (lastActivity d).

Definition updateLastActivity (e : env) (w : world) : world :=
  let d := getStorageData w in
  setStorageData
    (Data (initialized d) (keys d) (settings_ d) (auditLog d) (Some (now e))) w.

Definition getLastActivity (e : env) (w : world) : Z :=
  match lastActivity (getStorageData w) with
  | Some t => if t =? 0 then now e else t
  | None => now e
  end.

Definition initialize (e : env) (w : world) : world :=
  let d := getStorageData w in
  match initialized d with
  | Some true => w
  | _ => setStorageData
           (Data (Some true) (Some []) (Some getDefaultSettings) (Some []) (Some (now e))) w
  end.

Definition generateId (e : env) : str :=
  decimal (now e) ++ js "-" ++ rand_suffix e.

Definition colors : list str :=
  [js "#00A67E"; js "#0066FF"; js "#FF6B6B"; js "#FFA500";
   js "#9B59B6"; js "#1ABC9C"; js "#E74C3C"; js "#3498DB"].

Definition getRandomColor (e : env) : str :=
  nth (rand_color e mod length colors) colors [].

(** [unlockVault(masterPassword)] *)
Definition unlockVault (e : env) (masterPassword : str) (w : world)
  : result bool * world :=
  let '(isValid, stored) :=
    verifyMasterPassword (rand_salt e) (passwordHash w) masterPassword in
  let w1 := World (vaultData w) stored (sessionKey w) (isUnlocked w) in
  if negb isValid then (Err InvalidMasterPassword, w1)
  else
    let w2 := World (vaultData w1) (passwordHash w1) (Some masterPassword) true in
    (Ok true, updateLastActivity e w2).

(** [lockVault()] *)
Definition lockVault (w : world) : world :=
  World (vaultData w) (passwordHash w) None false.

Definition isVaultUnlocked (w : world) : bool := isUnlocked w.

(** The session key as the code reads it once [isUnlocked] holds. *)
Definition session (w : world) : str :=
  match sessionKey w with
  | Some k => k
  | None => []
  end.

(** [Array.prototype.sort] with a comparator: stable; each element is put
    in front of the first later element it does not have to follow. *)
Section Sort.

Context {A : Type} (cmp : A -> A -> Z).

Fixpoint insert (x : A) (l : list A) : list A :=
  match l with
  | [] => [x]
  | y :: l' => if cmp x y <=? 0 then x :: l else y :: insert x l'
  end.

Definition sort (l : list A) : list A := fold_right insert [] l.

End Sort.

(** The comparator of [getAllKeys]: "Sort by favorite, then by last used". *)
Definition compareKeys {V} (a b : key V) : Z :=
  if favorite a && negb (favorite b) then -1
  else if negb (favorite a) && favorite b then 1
  else or_zero (lastUsed b) - or_zero (lastUsed a).

(** The loop of [getAllKeys]: keys that fail to decrypt are logged and
    left out. *)
Fixpoint decryptAll (ks : list (key envelope)) (password : str) : list (key str) :=
  match ks with
  | [] => []
  | k :: ks' =>
      match decryptData (keyValue k) password with
      | Ok v => with_keyValue k v :: decryptAll ks' password
      | Err _ => decryptAll ks' password
      end
  end.

(** [getAllKeys()] *)
Definition getAllKeys (e : env) (w : world) : result (list (key str)) * world :=
  if negb (isUnlocked w) then (Err VaultLocked, w)
  else
    let d := getStorageData w in
    let ks := decryptAll (or_list (keys d)) (session w) in
    (Ok (sort compareKeys ks), updateLastActivity e w).

(** [getKey(id)] *)
Definition getKey (e : env) (i : str) (w : world) : result (key str) * world :=
  if negb (isUnlocked w) then (Err VaultLocked, w)
  else
    match keys (getStorageData w) with
    | None => (Err TypeError, w)
    | Some ks =>
        match find (fun k => str_eqb (id k) i) ks with
        | None => (Err KeyNotFound, w)
        | Some k =>
            match decryptData (keyValue k) (session w) with
            | Err x => (Err x, w)
            | Ok v => (Ok (with_keyValue k v), updateLastActivity e w)
            end
        end
    end.

(** The argument of [addKey]; an absent property is [None]. *)
Record keyData : Type := KeyData {
  kd_serviceName : str;
  kd_keyValue : str;
  kd_environment : option str;
  kd_tags : option (list str);
  kd_expiresAt : option Z;
  kd_notes : option str;
  kd_domains : option (list str);
  kd_color : option str;
  kd_favorite : option bool;
  kd_rateLimit : option str
}.

(** [addKey(keyData)] *)
Definition addKey (e : env) (kd : keyData) (w : world) : result str * world :=
  if negb (isUnlocked w) then (Err VaultLocked, w)
  else
    let encryptedValue :=
      encryptData (rand_salt e) (rand_iv e) (kd_keyValue kd) (session w) in
    let newKey :=
      Key (generateId e) (kd_serviceName kd) encryptedValue
          (or_str (kd_environment kd) (js "production"))
          (or_list (kd_tags kd))
          (now e) None (Some 0) (or_null (kd_expiresAt kd))
          (or_str (kd_notes kd) [])
          (or_list (kd_domains kd))
          (or_str (kd_color kd) (getRandomColor e))
          (match kd_favorite kd with Some b => b | None => false end)
          (or_str (kd_rateLimit kd) [])
          0 in
    let d := getStorageData w in
    let d' := set_keys d (or_list (keys d) ++ [newKey]) in
    (Ok (id newKey), updateLastActivity e (setStorageData d' w)).

(** The [updates] object of [updateKey]: any subset of the properties of a
    key; [keyValue] arrives as plaintext. *)
Record updates : Type := Updates {
  u_id : option str;
  u_serviceName : option str;
  u_keyValue : option str;
  u_environment : option str;
  u_tags : option (list str);
  u_createdAt : option Z;
  u_lastUsed : option (option Z);
  u_usageCount : option (option Z);
  u_expiresAt : option (option Z);
  u_notes : option str;
  u_domains : option (list str);
  u_color : option str;
  u_favorite : option bool;
  u_rateLimit : option str;
  u_estimatedCost : option Z
}.

Definition no_updates : updates :=
  Updates None None None None None None None None None None None None None None None.

Definition pick {A} (u : option A) (old : A) : A :=
  match u with
  | Some v => v
  | None => old
  end.

(** [{...key, ...updates}], after a truthy [updates.keyValue] has been
    replaced by its envelope; a falsy one is stored as it is. *)
Definition merge (e : env) (password : str) (k : key envelope) (u : updates)
  : key envelope :=
  Key (pick (u_id u) (id k))
      (pick (u_serviceName u) (serviceName k))
      (match u_keyValue u with
       | Some v => if truthy v
                   then encryptData (rand_salt e) (rand_iv e) v password
                   else Raw v
       | None => keyValue k
       end)
      (pick (u_environment u) (environment k))
      (pick (u_tags u) (tags k))
      (pick (u_createdAt u) (createdAt k))
      (pick (u_lastUsed u) (lastUsed k))
      (pick (u_usageCount u) (usageCount k))
      (pick (u_expiresAt u) (expiresAt k))
      (pick (u_notes u) (notes k))
      (pick (u_domains u) (domains k))
      (pick (u_color u) (color k))
      (pick (u_favorite u) (favorite k))
      (pick (u_rateLimit u) (rateLimit k))
      (pick (u_estimatedCost u) (estimatedCost k)).

(** Replace the first element that satisfies [p]. *)
Fixpoint update_first {A} (p : A -> bool) (f : A -> A) (l : list A) : list A :=
  match l with
  | [] => []
  | x :: l' => if p x then f x :: l' else x :: update_first p f l'
  end.

(** [updateKey(id, updates)] *)
Definition updateKey (e : env) (i : str) (u : updates) (w : world)
  : result unit * world :=
  if negb (isUnlocked w) then (Err VaultLocked, w)
  else
    match keys (getStorageData w) with
    | None => (Err TypeError, w)
    | Some ks =>
        if negb (existsb (fun k => str_eqb (id k) i) ks) then (Err KeyNotFound, w)
        else
          let ks' := update_first (fun k => str_eqb (id k) i)
                                  (fun k => merge e (session w) k u) ks in
          (Ok tt, updateLastActivity e (setStorageData (set_keys (getStorageData w) ks') w))
    end.

(** [deleteKey(id)] *)
Definition deleteKey (e : env) (i : str) (w : world) : result unit * world :=
  if negb (isUnlocked w) then (Err VaultLocked, w)
  else
    match keys (getStorageData w) with
    | None => (Err TypeError, w)
    | Some ks =>
        let ks' := filter (fun k => negb (str_eqb (id k) i)) ks in
        (Ok tt, updateLastActivity e (setStorageData (set_keys (getStorageData w) ks') w))
    end.

(** The body of [recordKeyUsage] on the key found. *)
Definition bump {V} (e : env) (domain : str) (k : key V) : key V :=
  Key (id k) (serviceName k) (keyValue k) (environment k) (tags k) (createdAt k)
      (Some (now e))
      (Some (add1 (or_zero (usageCount k))))
      (expiresAt k) (notes k)
      (if truthy domain && negb (arr_includes (domains k) domain)
       then domains k ++ [domain] else domains k)
      (color k) (favorite k) (rateLimit k) (estimatedCost k).

(** [recordKeyUsage(id, domain)] *)
Definition recordKeyUsage (e : env) (i : str) (domain : str) (w : world)
  : result unit * world :=
  if negb (isUnlocked w) then (Err VaultLocked, w)
  else
    match keys (getStorageData w) with
    | None => (Err TypeError, w)
    | Some ks =>
        if existsb (fun k => str_eqb (id k) i) ks then
          let ks' := update_first (fun k => str_eqb (id k) i) (bump e domain) ks in
          (Ok tt, updateLastActivity e (setStorageData (set_keys (getStorageData w) ks') w))
        else (Ok tt, w)
    end.

Definition getSettings (w : world) : settings :=
  match settings_ (getStorageData w) with
  | Some s => s
  | None => getDefaultSettings
  end.

(** [addAuditLog(action)] *)
Definition addAuditLog (e : env) (a : str) (w : world) : world :=
  let d := getStorageData w in
  if negb (match enableAuditLog (getSettings w) with Some b => b | None => false end)
  then w
  else
    let entry := AuditEntry (generateId e) a (now e) in
    let l := entry :: or_list (auditLog d) in
    let l' := if (1000 <? length l)%nat then firstn 1000 l else l in
    setStorageData
      (Data (initialized d) (keys d) (settings_ d) (Some l') (lastActivity d)) w.

Record exported : Type := Exported {
  ex_keys : option (list (key envelope));
  ex_settings : option settings;
  exportedAt : Z
}.

(** [exportData()] *)
Definition exportData (e : env) (w : world) : result exported * world :=
  if negb (isUnlocked w) then (Err VaultLocked, w)
  else
    let d := getStorageData w in
    (Ok (Exported (keys d) (settings_ d) (now e)), w).

(** [importData(importedData)] *)
Definition importData (imp : exported) (w : world) : result unit * world :=
  if negb (isUnlocked w) then (Err VaultLocked, w)
  else
    let d := getStorageData w in
    match keys d, ex_keys imp with
    | Some ks, Some iks =>
        let existingServices := map serviceName ks in
        let newKeys :=
          filter (fun k => negb (arr_includes existingServices (serviceName k))) iks in
        let s := mergeSettings (or_settings (settings_ d)) (or_settings (ex_settings imp)) in
        (Ok tt,
         setStorageData
           (Data (initialized d) (Some (ks ++ newKeys)) (Some s) (auditLog d)
                 (lastActivity d)) w)
    | _, _ => (Err TypeError, w)
    end.

End StorageManager.

(* ================================================================== *)
(** ** The extension's background handlers *)
(* ================================================================== *)

Module Background.

Import EncryptionService StorageManager.

(** A handler answers [{ success: true, ... }] ([Ok]) or
    [{ success: false, error }] ([Err]); the alarms come with the
    worker's requests further down. *)

Definition unlockVault (e : env) (masterPassword : str) (w : world)
  : result unit * world :=
  let '(isValid, stored) :=
    verifyMasterPassword (rand_salt e) (passwordHash w) masterPassword in
  let w1 := World (vaultData w) stored (sessionKey w) (isUnlocked w) in
  if negb isValid then (Err InvalidMasterPassword, w1)
  else
    match StorageManager.unlockVault e masterPassword w1 with
    | (Err x, w2) => (Err x, w2)
    | (Ok _, w2) => (Ok tt, addAuditLog e (js "Vault unlocked") w2)
    end.

Definition lockVault (e : env) (w : world) : result unit * world :=
  (Ok tt, addAuditLog e (js "Vault locked") (StorageManager.lockVault w)).

(** The [filter] object of [getKeys]. *)
Record keyFilter : Type := KeyFilter {
  f_domain : option str;
  f_favorite : option bool;
  f_environment : option str
}.

Definition applyKeyFilter (f : keyFilter) (ks : list (key str)) : list (key str) :=
  let ks1 := match f_domain f with
             | Some d => if truthy d
                         then filter (fun k => arr_includes (domains k) d) ks
                         else ks
             | None => ks
             end in
  let ks2 := match f_favorite f with
             | Some true => filter (fun k => favorite k) ks1
             | _ => ks1
             end in
  match f_environment f with
  | Some v => if truthy v then filter (fun k => str_eqb (environment k) v) ks2 else ks2
  | None => ks2
  end.

(** [getKeys(filter)] *)
Definition getKeys (e : env) (f : option keyFilter) (w : world)
  : result (list (key str)) * world :=
  match getAllKeys e w with
  | (Err x, w') => (Err x, w')
  | (Ok ks, w') =>
      (Ok (match f with Some f' => applyKeyFilter f' ks | None => ks end), w')
  end.

(** The predicate of [searchKeys], on the lower-cased query. *)
Definition matches (lowerQuery : str) (k : key str) : bool :=
  includes (toLowerCase (serviceName k)) lowerQuery
  || existsb (fun tag => includes (toLowerCase tag) lowerQuery) (tags k)
  || includes (toLowerCase (notes k)) lowerQuery
  || includes (toLowerCase (environment k)) lowerQuery.

(** [searchKeys(query)] *)
Definition searchKeys (e : env) (query : str) (w : world)
  : result (list (key str)) * world :=
  match getAllKeys e w with
  | (Err x, w') => (Err x, w')
  | (Ok ks, w') => (Ok (filter (matches (toLowerCase query)) ks), w')
  end.

Definition getKeyById (e : env) (i : str) (w : world) := getKey e i w.

Definition addKey (e : env) (kd : keyData) (w : world) : result str * world :=
  match StorageManager.addKey e kd w with
  | (Err x, w') => (Err x, w')
  | (Ok i, w') => (Ok i, addAuditLog e (js "Key added: " ++ kd_serviceName kd) w')
  end.

Definition updateKey (e : env) (i : str) (u : updates) (w : world)
  : result unit * world :=
  match StorageManager.updateKey e i u w with
  | (Err x, w') => (Err x, w')
  | (Ok _, w') => (Ok tt, addAuditLog e (js "Key updated: " ++ i) w')
  end.

Definition deleteKey (e : env) (i : str) (w : world) : result unit * world :=
  match getKey e i w with
  | (Err x, w') => (Err x, w')
  | (Ok k, w1) =>
      match StorageManager.deleteKey e i w1 with
      | (Err x, w') => (Err x, w')
      | (Ok _, w2) => (Ok tt, addAuditLog e (js "Key deleted: " ++ serviceName k) w2)
      end
  end.

Definition recordKeyUsage (e : env) (i domain : str) (w : world)
  : result unit * world :=
  StorageManager.recordKeyUsage e i domain w.

(** A text that is not the JSON of an object with an array under [keys]:
    [importData] cannot merge what [JSON.parse] makes of it, if
    anything. *)
Definition no_key_list (text : str) : bool :=
  match JSON.parse text with
  | Some value => negb (JSON.has_keys_array value)
  | None => true
  end.

(** The text of a backup file: the export, printed as JSON and sealed
    under a password; some other text sealed the same way, which is not
    the JSON of an object with a key list; any other text. *)
Inductive backup : Type :=
| SealedBackup (salt iv : bytes) (k : derived) (content : exported)
| SealedText (salt iv : bytes) (k : derived) (text : str) (other : no_key_list text = true)
| OtherText (raw : str).

(** Whether [decryptData] opens the backup under the password. *)
Definition opens (b : backup) (password : str) : bool :=
  match b with
  | SealedBackup salt _ k _ => derived_eqb k (deriveKey password salt)
  | SealedText salt _ k _ _ => derived_eqb k (deriveKey password salt)
  | OtherText _ => false
  end.

(** [exportVault(masterPassword)] *)
Definition exportVault (e : env) (masterPassword : str) (w : world)
  : result backup * world :=
  match exportData e w with
  | (Err x, w') => (Err x, w')
  | (Ok d, w') =>
      (Ok (SealedBackup (rand_salt e) (rand_iv e)
                        (deriveKey masterPassword (rand_salt e)) d),
       addAuditLog e (js "Vault exported") w')
  end.

(** [importVault(encryptedData, masterPassword)]: the text is opened,
    then parsed, then handed to [importData]. Of a value without a key
    list [importData] reads a property that is not there, once it has
    checked the lock. *)
Definition importVault (e : env) (encryptedData : backup) (masterPassword : str)
    (w : world) : result unit * world :=
  if negb (opens encryptedData masterPassword) then (Err DecryptionFailed, w)
  else
    match encryptedData with
    | SealedBackup _ _ _ content =>
        match importData content w with
        | (Err x, w') => (Err x, w')
        | (Ok _, w') => (Ok tt, addAuditLog e (js "Vault imported") w')
        end
    | SealedText _ _ _ text _ =>
        match JSON.parse text with
        | None => (Err SyntaxError, w)
        | Some _ =>
            if negb (isUnlocked w) then (Err VaultLocked, w) else (Err TypeError, w)
        end
    | OtherText _ => (Err DecryptionFailed, w)
    end.

End Background.

(* ================================================================== *)
(** ** The authenticated operations of the extension, as one type *)
(* ================================================================== *)

Module Api.

Import StorageManager Background.

Inductive op : Type :=
| Get (i : str)
| List (f : option keyFilter)
| Search (query : str)
| Add (kd : keyData)
| Update (i : str) (u : updates)
| Delete (i : str)
| RecordUsage (i domain : str)
| Export (password : str)
| Import (b : backup) (password : str).

Inductive answer : Type :=
| OneKey (k : key str)
| Keys (ks : list (key str))
| NewId (i : str)
| Done
| BackupText (b : backup).

Definition lift {A} (f : A -> answer) (r : result A * world) : result answer * world :=
  match r with
  | (Ok a, w) => (Ok (f a), w)
  | (Err x, w) => (Err x, w)
  end.

(** The dispatch of [handleMessage] on these actions. *)
Definition run (e : env) (o : op) (w : world) : result answer * world :=
  match o with
  | Get i => lift OneKey (getKeyById e i w)
  | List f => lift Keys (getKeys e f w)
  | Search q => lift Keys (searchKeys e q w)
  | Add kd => lift NewId (Background.addKey e kd w)
  | Update i u => lift (fun _ => Done) (Background.updateKey e i u w)
  | Delete i => lift (fun _ => Done) (Background.deleteKey e i w)
  | RecordUsage i d => lift (fun _ => Done) (Background.recordKeyUsage e i d w)
  | Export p => lift BackupText (exportVault e p w)
  | Import b p => lift (fun _ => Done) (importVault e b p w)
  end.

(** A sequence of calls, each with its own clock and random draws. *)
Fixpoint run_all (calls : list (env * op)) (w : world) : world :=
  match calls with
  | [] => w
  | (e, o) :: rest => run_all rest (snd (run e o w))
  end.

End Api.

(* ================================================================== *)
(** ** The popup *)
(* ================================================================== *)

Module Popup.

Import StorageManager.

(** The comparator of the 'recent' tab. *)
Definition compareRecent (a b : key str) : Z :=
  or_zero (lastUsed b) - or_zero (lastUsed a).

(** [applyFilter()]: what [filteredKeys] becomes for [currentFilter]. *)
Definition applyFilter (currentFilter : str) (ks : list (key str)) : list (key str) :=
  if str_eqb currentFilter (js "favorites") then filter (fun k => favorite k) ks
  else if str_eqb currentFilter (js "recent") then firstn 10 (sort compareRecent ks)
  else ks.

(** [searchKeys(query)]: what [filteredKeys] becomes. *)
Definition searchKeys (query : str) (ks : list (key str)) : list (key str) :=
  if negb (truthy query) then ks
  else
    let lowerQuery := toLowerCase query in
    filter (fun k =>
      includes (toLowerCase (serviceName k)) lowerQuery
      || existsb (fun tag => includes (toLowerCase tag) lowerQuery) (tags k)
      || includes (toLowerCase (environment k)) lowerQuery
      || includes (toLowerCase (notes k)) lowerQuery) ks.

(** The preview of [createKeyItem]: [None] stands for the row of bullets
    shown when [maskKeys] is set, otherwise the first 20 code units of the
    key value and three dots. *)
Definition maskedValue (s : settings) (k : key str) : option str :=
  match maskKeys s with
  | Some true => None
  | _ => Some (firstn 20 (keyValue k) ++ js "...")
  end.

End Popup.

(* ================================================================== *)
(** ** The vault file of the terminal client and the MCP server *)
(* ================================================================== *)

Module NodeVault.

(** [crypto.createCipher('aes-256-cbc', password)] is kept symbolic: the
    hex text records the password and the plaintext it was made from, and
    [createDecipher] opens it under the same password only. *)
Inductive cbc_hex : Type :=
| CbcHex (password plaintext : str)
| OtherHex (raw : str).

Definition encrypt (sessionKey : str) (text : str) : cbc_hex := CbcHex sessionKey text.

(** [decrypt(encrypted)]; [None] when the decipher throws. *)
Definition decrypt (sessionKey : str) (encrypted : cbc_hex) : option str :=
  match encrypted with
  | CbcHex p t => if str_eqb p sessionKey then Some t else None
  | OtherHex _ => None
  end.

(** An entry of [vault.keys]. Instants written as ISO text
    ([new Date().toISOString()]) are kept as the instant in milliseconds. *)
Record key : Type := Key {
  id : str;
  serviceName : str;
  keyValue : cbc_hex;
  environment : str;
  tags : list str;
  createdAt : Z;
  lastUsed : option Z;
  usageCount : option Z;
  expiresAt : option Z;
  rateLimit : option str;
  notes : option str;
  domains : option (list str)
}.

Record vault : Type := Vault {
  version : str;
  created : Z;
  passwordHash : str;
  keys : list key
}.

Definition hashPassword (password : str) : str := SHA256.sha256_hex password.

End NodeVault.

(* ================================================================== *)
(** ** The terminal client [KeyVaultCLI] *)
(* ================================================================== *)

Module CLI.

Import NodeVault.

Inductive cli_error : Type :=
| PasswordsDoNotMatch
| PasswordTooShort
| VaultNotFound
| InvalidPassword.

Definition verifyPassword (password hash : str) : bool :=
  str_eqb (hashPassword password) hash.

(** [initVault()] once the two prompts are answered; the vault written. *)
Definition initVault (now : Z) (password confirmPassword : str)
  : cli_error + vault :=
  if negb (str_eqb password confirmPassword) then inl PasswordsDoNotMatch
  else if (length password <? 8)%nat then inl PasswordTooShort
  else inr (Vault (js "1.0.0") now (hashPassword password) []).

(** [unlockVault()] with the password typed at the prompt: the session
    key held afterwards. *)
Definition unlockVault (vault_file : option vault) (typed : str)
  : cli_error + str :=
  match vault_file with
  | None => inl VaultNotFound
  | Some v => if verifyPassword typed (passwordHash v) then inr typed
              else inl InvalidPassword
  end.

(** [requireUnlocked()]: a process without session key asks for the
    password before the command goes on. *)
Definition requireUnlocked (vault_file : option vault) (sessionKey : option str)
    (typed : str) : cli_error + str :=
  match vault_file with
  | None => inl VaultNotFound
  | Some v =>
      match sessionKey with
      | Some k => if truthy k then inr k else unlockVault vault_file typed
      | None => unlockVault vault_file typed
      end
  end.

(** The filter of [searchKeys]. *)
Definition searchKeys (query : str) (v : vault) : list key :=
  let lowerQuery := toLowerCase query in
  filter (fun k =>
    includes (toLowerCase (serviceName k)) lowerQuery
    || existsb (fun tag => includes (toLowerCase tag) lowerQuery) (tags k)
    || includes (toLowerCase (environment k)) lowerQuery) (keys v).

End CLI.

(* ================================================================== *)
(** ** The MCP server [KeyVaultMCPServer] *)
(* ================================================================== *)

Module MCP.

Import NodeVault.

(** [mcp-session.json] *)
Record session : Type := Session {
  key : str;
  timestamp : Z
}.

(** The two files and the fields of the server object. A file that is
    missing (or, for the session, unreadable) is [None]. *)
Record world : Type := World {
  vault_file : option vault;
  session_file : option session;
  vault : option vault;
  sessionKey : option str
}.

Record listed : Type := Listed {
  l_serviceName : str;
  l_environment : str;
  l_tags : list str;
  l_hasExpiration : bool;
  l_lastUsed : option Z;
  l_usageCount : option Z
}.

Record found : Type := Found {
  s_serviceName : str;
  s_environment : str;
  s_tags : list str;
  s_notes : option str
}.

(** What a tool call answers. The last three are errors thrown inside the
    tool and turned into an [isError] answer by the request handler. *)
Inductive response : Type :=
| VaultNotFoundText                      (* unlock_vault without a vault file *)
| InvalidPasswordText                    (* 'Invalid password. Vault remains locked.' *)
| UnlockedText (count : nat)
| KeysText (l : list listed)
| MatchesText (l : list found)
| KeyText (serviceName environment decrypted : str)
| OtherEnvironmentText (serviceName found_env wanted : str) (available : list str)
| NoSuchKeyText (serviceName : str)
| ErrVaultNotFound                       (* 'Vault not found. Please initialize KeyVault first.' *)
| ErrVaultLocked                         (* 'Vault is locked. Please unlock ...' *)
| ErrDecipher.                           (* the decipher threw *)

Definition isError (r : response) : bool :=
  match r with
  | VaultNotFoundText | UnlockedText _ | KeysText _ | MatchesText _ | KeyText _ _ _ => false
  | _ => true
  end.

Definition loadVault (w : world) : world :=
  World (vault_file w) (session_file w) (vault_file w) (sessionKey w).

(** [loadSession()]: a session younger than an hour is taken over. *)
Definition loadSession (now : Z) (w : world) : bool * world :=
  match session_file w with
  | Some s =>
      if now - timestamp s <? 3600000
      then (true, World (vault_file w) (session_file w) (vault w) (Some (key s)))
      else (false, w)
  | None => (false, w)
  end.

(** [saveSession()] *)
Definition saveSession (now : Z) (w : world) : world :=
  World (vault_file w)
        (Some (Session (match sessionKey w with Some k => k | None => [] end) now))
        (vault w) (sessionKey w).

(** [unlockVault(password)] *)
Definition unlockVault (now : Z) (password : str) (w : world) : response * world :=
  let w1 := loadVault w in
  match vault w1 with
  | None => (VaultNotFoundText, w1)
  | Some v =>
      let passwordHash := SHA256.sha256_hex password in
      if negb (str_eqb passwordHash (NodeVault.passwordHash v))
      then (InvalidPasswordText, w1)
      else
        let w2 := World (vault_file w1) (session_file w1) (vault w1) (Some password) in
        (UnlockedText (length (keys v)), saveSession now w2)
  end.

(** The pairs of code units that the comparison of [unlockVault] looks
    at. *)
Definition unlockVault_compare_steps (password : str) (v : NodeVault.vault) : nat :=
  str_eqb_steps (SHA256.sha256_hex password) (NodeVault.passwordHash v).

(** [requireUnlocked()]: the error thrown, if any. *)
Definition requireUnlocked (now : Z) (w : world) : option response * world :=
  let w1 := loadVault w in
  let '(_, w2) := loadSession now w1 in
  match vault w2 with
  | None => (Some ErrVaultNotFound, w2)
  | Some _ =>
      match sessionKey w2 with
      | Some k => if truthy k then (None, w2) else (Some ErrVaultLocked, w2)
      | None => (Some ErrVaultLocked, w2)
      end
  end.

Definition current_keys (w : world) : list NodeVault.key :=
  match vault w with
  | Some v => keys v
  | None => []
  end.

(** The record that [listApiKeys] shows for a key. *)
Definition listed_of (k : NodeVault.key) : listed :=
  Listed (serviceName k) (environment k) (tags k)
         (match expiresAt k with
          | Some x => negb (x =? 0)
          | None => false
          end)
         (lastUsed k) (usageCount k).

(** [listApiKeys(environment, tags)] *)
Definition listApiKeys (now : Z) (env : option str) (tgs : option (list str))
    (w : world) : response * world :=
  match requireUnlocked now w with
  | (Some err, w') => (err, w')
  | (None, w') =>
      let ks := current_keys w' in
      let ks1 := match env with
                 | Some v => if truthy v
                             then filter (fun k => str_eqb (environment k) v) ks
                             else ks
                 | None => ks
                 end in
      let ks2 := match tgs with
                 | Some (t :: ts) =>
                     filter (fun k => existsb (fun tag => arr_includes (tags k) tag) (t :: ts)) ks1
                 | _ => ks1
                 end in
      (KeysText (map listed_of ks2), w')
  end.

(** The predicate of [searchApiKeys], on the lower-cased query. *)
Definition matches (lowerQuery : str) (k : NodeVault.key) : bool :=
  includes (toLowerCase (serviceName k)) lowerQuery
  || existsb (fun tag => includes (toLowerCase tag) lowerQuery) (tags k)
  || match notes k with
     | Some n => truthy n && includes (toLowerCase n) lowerQuery
     | None => false
     end.

(** The record that [searchApiKeys] shows for a key. *)
Definition found_of (k : NodeVault.key) : found :=
  Found (serviceName k) (environment k) (tags k) (notes k).

(** [searchApiKeys(query)] *)
Definition searchApiKeys (now : Z) (query : str) (w : world) : response * world :=
  match requireUnlocked now w with
  | (Some err, w') => (err, w')
  | (None, w') =>
      let results := filter (matches (toLowerCase query)) (current_keys w') in
      (MatchesText (map found_of results), w')
  end.

Definition same_service (name : str) (k : NodeVault.key) : bool :=
  str_eqb (toLowerCase (serviceName k)) (toLowerCase name).

(** The key that [getApiKey] looks for first. *)
Definition wanted (name environment_ : str) (k : NodeVault.key) : bool :=
  same_service name k && str_eqb (environment k) environment_.

(** The usage statistics written by [getApiKey] on the key found. *)
Definition touch (now : Z) (k : NodeVault.key) : NodeVault.key :=
  Key (id k) (serviceName k) (keyValue k) (environment k) (tags k) (createdAt k)
      (Some now) (Some (add1 (or_zero (usageCount k))))
      (expiresAt k) (rateLimit k) (notes k) (domains k).

(** The default of the parameter [environment]. *)
Definition or_development (env : option str) : str :=
  match env with
  | Some v => v
  | None => js "development"
  end.

(** [getApiKey(serviceName, environment = 'development')] *)
Definition getApiKey (now : Z) (name : str) (env : option str) (w : world)
  : response * world :=
  let environment_ := or_development env in
  match requireUnlocked now w with
  | (Some err, w') => (err, w')
  | (None, w') =>
      let ks := current_keys w' in
      match find (wanted name environment_) ks with
      | None =>
          match find (same_service name) ks with
          | Some anyEnvKey =>
              (OtherEnvironmentText name (environment anyEnvKey) environment_
                 (map environment (filter (same_service name) ks)), w')
          | None => (NoSuchKeyText name, w')
          end
      | Some k =>
          match decrypt (match sessionKey w' with Some s => s | None => [] end)
                        (keyValue k) with
          | None => (ErrDecipher, w')
          | Some decrypted =>
              let ks' :=
                StorageManager.update_first (wanted name environment_) (touch now) ks in
              let v' := match vault w' with
                        | Some v => Some (Vault (version v) (created v)
                                                (NodeVault.passwordHash v) ks')
                        | None => None
                        end in
              (KeyText name environment_ decrypted,
               World v' (session_file w') v' (sessionKey w'))
          end
      end
  end.



(** The session key that [requireUnlocked] ends up with: the one of a
    session file younger than an hour, else the one in memory. *)
Definition effective_key (now : Z) (w : world) : option str :=
  match session_file w with
  | Some s => if now - timestamp s <? 3600000 then Some (key s) else sessionKey w
  | None => sessionKey w
  end.

Definition locked (now : Z) (w : world) : bool :=
  match effective_key now w with
  | Some k => negb (truthy k)
  | None => true
  end.



End MCP.

(* ================================================================== *)
(** ** [Date.prototype.toISOString] *)
(* ================================================================== *)

Module JSDate.

(** The last [k] decimal digits of [n], most significant first. *)
Fixpoint digits (k : nat) (n : Z) : str :=
  match k with
  | O => []
  | S k' => digits k' (n / 10) ++ [chr (48 + n mod 10)]
  end.

(** Year, month and day of a day number counted from 1970-01-01, in the
    proleptic Gregorian calendar. *)
Definition civil (days : Z) : Z * Z * Z :=
  let z := days + 719468 in
  let era := z / 146097 in
  let doe := z - era * 146097 in
  let yoe := (doe - doe / 1460 + doe / 36524 - doe / 146096) / 365 in
  let y := yoe + era * 400 in
  let doy := doe - (365 * yoe + yoe / 4 - yoe / 100) in
  let mp := (5 * doy + 2) / 153 in
  let d := doy - (153 * mp + 2) / 5 + 1 in
  let m := if mp <? 10 then mp + 3 else mp - 9 in
  (if m <=? 2 then y + 1 else y, m, d).

Definition year_text (y : Z) : str :=
  if (0 <=? y) && (y <=? 9999) then digits 4 y
  else (if y <? 0 then js "-" else js "+") ++ digits 6 (Z.abs y).

(** [new Date(t).toISOString()]; [None] when the time value is out of
    range and a RangeError is thrown. *)
Definition toISOString (t : Z) : option str :=
  if 8640000000000000 <? Z.abs t then None
  else
    let '(y, m, d) := civil (t / 86400000) in
    let ms := t mod 86400000 in
    Some (year_text y ++ js "-" ++ digits 2 m ++ js "-" ++ digits 2 d
          ++ js "T" ++ digits 2 (ms / 3600000)
          ++ js ":" ++ digits 2 ((ms / 60000) mod 60)
          ++ js ":" ++ digits 2 ((ms / 1000) mod 60)
          ++ js "." ++ digits 3 (ms mod 1000) ++ js "Z").

End JSDate.

(* ================================================================== *)
(** ** The CSV adapter of [ImportExportManager] *)
(* ================================================================== *)

Module ImportExport.

Import StorageManager.

(** The replacement of every double quote by two of them. *)
Definition double_quotes (s : str) : str :=
  flat_map (fun c => if ascii_eqb c dquote then [dquote; dquote] else [c]) s.

(** The removal of every double quote. *)
Definition remove_quotes (s : str) : str :=
  filter (fun c => negb (ascii_eqb c dquote)) s.

(** The last step of [parseCSVLine]: a double quote at the start and a
    double quote at the end of a value are dropped. *)
Definition strip_quotes (v : str) : str :=
  let v1 := match v with
            | c :: v' => if ascii_eqb c dquote then v' else v
            | [] => []
            end in
  match rev v1 with
  | c :: r => if ascii_eqb c dquote then rev r else v1
  | [] => []
  end.

Definition has_char (c : ascii) (s : str) : bool := existsb (ascii_eqb c) s.

(** [escapeCSV(value)] *)
Definition escapeCSV (value : str) : str :=
  if negb (truthy value) then [dquote; dquote]
  else if has_char comma value || has_char dquote value || has_char newline value
       then [dquote] ++ double_quotes value ++ [dquote]
       else [dquote] ++ value ++ [dquote].

Definition csv_headers : list str :=
  [js "Service Name"; js "API Key"; js "Environment"; js "Tags"; js "Notes";
   js "Domains"; js "Created At"].

(** One row of [exportToCSV]; [None] when the date cannot be printed. *)
Definition exportRow (k : key str) : option str :=
  match JSDate.toISOString (createdAt k) with
  | None => None
  | Some iso =>
      Some (join [comma]
              [escapeCSV (serviceName k);
               escapeCSV (keyValue k);
               escapeCSV (environment k);
               escapeCSV (join (js ", ") (tags k));
               escapeCSV (notes k);
               escapeCSV (join (js ", ") (domains k));
               iso])
  end.

Fixpoint exportRows (ks : list (key str)) : option (list str) :=
  match ks with
  | [] => Some []
  | k :: ks' =>
      match exportRow k, exportRows ks' with
      | Some r, Some rs => Some (r :: rs)
      | _, _ => None
      end
  end.

(** [exportToCSV(keys)]; [None] when it throws. *)
Definition exportToCSV (ks : list (key str)) : option str :=
  match exportRows ks with
  | Some rows => Some (join [newline] (join [comma] csv_headers :: rows))
  | None => None
  end.

(** The loop of [parseCSVLine]: [values] holds the fields pushed so far,
    most recent first. *)
Fixpoint parseLoop (line : str) (values : list str) (current : str)
    (inQuotes : bool) : list str :=
  match line with
  | [] => rev (trim current :: values)
  | char :: rest =>
      if ascii_eqb char dquote then parseLoop rest values current (negb inQuotes)
      else if ascii_eqb char comma && negb inQuotes
           then parseLoop rest (trim current :: values) [] inQuotes
           else parseLoop rest values (current ++ [char]) inQuotes
  end.

(** [parseCSVLine(line)] *)
Definition parseCSVLine (line : str) : list str :=
  map strip_quotes (parseLoop line [] [] false).

(** The separators of the regular expression [/[,;]/]. *)
Definition tag_sep (c : ascii) : bool := ascii_eqb c comma || ascii_eqb c semicolon.

(** [extractTags(tagString)]; [None] is [undefined]. *)
Definition extractTags (tagString : option str) : list str :=
  match tagString with
  | None => []
  | Some s =>
      if negb (truthy s) then []
      else filter truthy (map trim (split_on tag_sep s))
  end.

(** The column indices of [detectCSVMapping]; [None] is -1. *)
Record mapping : Type := Mapping {
  m_serviceName : option nat;
  m_keyValue : option nat;
  m_environment : option nat;
  m_tags : option nat;
  m_notes : option nat
}.

Definition any_of (h : str) (words : list string) : bool :=
  existsb (fun w => includes h (js w)) words.

Definition detectStep (m : mapping) (header : str) (index : nat) : mapping :=
  let h := toLowerCase header in
  Mapping
    (if any_of h ["service"; "name"; "title"]%string then Some index else m_serviceName m)
    (if any_of h ["key"; "password"; "secret"; "token"]%string then Some index
     else m_keyValue m)
    (if any_of h ["environment"; "env"]%string then Some index else m_environment m)
    (if any_of h ["tag"]%string then Some index else m_tags m)
    (if any_of h ["note"; "description"]%string then Some index else m_notes m).

Fixpoint detectLoop (headers : list str) (index : nat) (m : mapping) : mapping :=
  match headers with
  | [] => m
  | h :: hs => detectLoop hs (S index) (detectStep m h index)
  end.

(** [detectCSVMapping(headers)] *)
Definition detectCSVMapping (headers : list str) : mapping :=
  detectLoop headers O (Mapping None None None None None).

(** An object pushed by [importCSV]; a field read past the end of the row
    is [undefined], that is [None]. *)
Record imported : Type := Imported {
  i_serviceName : option str;
  i_keyValue : str;
  i_environment : option str;
  i_tags : list str;
  i_notes : option str;
  i_domains : list str;
  i_favorite : bool
}.

Definition importLine (m : mapping) (line : str) : option imported :=
  if negb (truthy (trim line)) then None
  else
    let values := parseCSVLine line in
    match m_keyValue m with
    | None => None
    | Some kv =>
        match nth_error values kv with
        | None => None
        | Some v =>
            if negb (truthy v) then None
            else
              Some (Imported
                      (match m_serviceName m with
                       | Some i => nth_error values i
                       | None => Some (js "Imported Key")
                       end)
                      v
                      (match m_environment m with
                       | Some i => nth_error values i
                       | None => Some (js "production")
                       end)
                      (match m_tags m with
                       | Some i => extractTags (nth_error values i)
                       | None => []
                       end)
                      (match m_notes m with
                       | Some i => nth_error values i
                       | None => Some []
                       end)
                      [] false)
        end
    end.

Fixpoint importLines (m : mapping) (lines : list str) : list imported :=
  match lines with
  | [] => []
  | l :: ls =>
      match importLine m l with
      | Some k => k :: importLines m ls
      | None => importLines m ls
      end
  end.

(** [importCSV(csvContent).keys] *)
Definition importCSV (csvContent : str) : list imported :=
  match split_on (ascii_eqb newline) csvContent with
  | [] => []
  | first :: rest =>
      let headers :=
        map (fun h => toLowerCase (remove_quotes (trim h)))
            (split_on (ascii_eqb comma) first) in
      importLines (detectCSVMapping headers) rest
  end.

(** The fields of a key that the CSV round trip is about. *)
Definition fields_of (k : key str) : imported :=
  Imported (Some (serviceName k)) (keyValue k) (Some (environment k)) (tags k)
           (Some (notes k)) [] false.

End ImportExport.

(* ================================================================== *)
(** ** Predicates in the words of the specification *)
(* ================================================================== *)

Module Spec.

Import StorageManager.




(** The order of the code's default list: favorites first, then the more
    recently used first, an entry never used counting as used at time 0. *)
Definition code_le {V} (a b : key V) : Prop :=
  (favorite a = true /\ favorite b = false)
  \/ (favorite a = favorite b /\ or_zero (lastUsed b) <= or_zero (lastUsed a)).

(** Entries that the code's comparator does not tell apart. *)
Definition same_rank {V} (a b : key V) : bool :=
  Bool.eqb (favorite a) (favorite b)
  && (or_zero (lastUsed a) =? or_zero (lastUsed b)).

(** Lexicographic order on strings, by code unit. *)
Fixpoint str_leb (a b : str) : bool :=
  match a, b with
  | [], _ => true
  | _ :: _, [] => false
  | x :: a', y :: b' =>
      if code x <? code y then true
      else if code y <? code x then false
      else str_leb a' b'
  end.

(** The order of the specification's default list: favorites first, then
    last use descending with entries never used last, then creation
    descending, then the id ascending. *)
Definition spec_leb {V} (a b : key V) : bool :=
  let by_creation :=
    if createdAt a =? createdAt b then str_leb (id a) (id b)
    else createdAt b <? createdAt a in
  if negb (Bool.eqb (favorite a) (favorite b)) then favorite a
  else match lastUsed a, lastUsed b with
       | Some x, Some y => if x =? y then by_creation else y <? x
       | Some _, None => true
       | None, Some _ => false
       | None, None => by_creation
       end.

(** Every entry stands before all later ones in that order. *)
Fixpoint spec_sorted {V} (l : list (key V)) : bool :=
  match l with
  | [] => true
  | a :: l' => forallb (spec_leb a) l' && spec_sorted l'
  end.

(** The stored keys, the entry with a given id (the first one, as [find]
    and [findIndex] see it) and its usage counter. *)
Definition keys_of (w : world) : list (key EncryptionService.envelope) :=
  or_list (keys (getStorageData w)).

Definition entry (i : str) (w : world) : option (key EncryptionService.envelope) :=
  find (fun k => str_eqb (id k) i) (keys_of w).


(** The entry [i] of the key list [l], if its counter is a double, is
    still in [l'] with a counter that is a double and is not lower. *)
Definition not_lower (i : str) (l l' : list (key EncryptionService.envelope)) : Prop :=
  forall k, find (fun x => str_eqb (id x) i) l = Some k ->
            is_double (or_zero (usageCount k)) = true ->
            exists k', find (fun x => str_eqb (id x) i) l' = Some k'
                       /\ is_double (or_zero (usageCount k')) = true
                       /\ or_zero (usageCount k) <= or_zero (usageCount k').

(** The calls that neither overwrite the counter or the id of an entry
    through [updateKey] nor delete the entry [i]. *)
Definition keeps_counter (i : str) (c : env * Api.op) : bool :=
  match snd c with
  | Api.Update _ u =>
      match u_usageCount u, u_id u with
      | None, None => true
      | _, _ => false
      end
  | Api.Delete j => negb (str_eqb j i)
  | _ => true
  end.

(** A text field that the CSV round trip is stated for: no double quote,
    no newline, no white space at either end. *)
Definition clean (s : str) : Prop :=
  ImportExport.has_char dquote s = false
  /\ ImportExport.has_char newline s = false
  /\ trim s = s.

Definition clean_tag (t : str) : Prop :=
  clean t
  /\ ImportExport.has_char comma t = false
  /\ ImportExport.has_char semicolon t = false.

(** The entries of claim C10, as it is stated. *)
Definition claimed_round_trippable (k : key str) : Prop :=
  clean (serviceName k)
  /\ clean (keyValue k)
  /\ keyValue k <> []
  /\ clean (environment k)
  /\ clean (notes k)
  /\ Forall clean_tag (tags k).

(** The entries for which the round trip holds: in addition no tag is
    empty, no domain holds a newline, and the creation time is a time
    value that [toISOString] prints. *)
Definition round_trippable (k : key str) : Prop :=
  claimed_round_trippable k
  /\ Forall (fun t => t <> []) (tags k)
  /\ Forall (fun d => ImportExport.has_char newline d = false) (domains k)
  /\ Z.abs (createdAt k) <= 8640000000000000.

(** The text of a row of [exportToCSV], given the printed date. *)
Definition row_of (k : key str) (iso : str) : str :=
  ImportExport.escapeCSV (serviceName k) ++ comma ::
  ImportExport.escapeCSV (keyValue k) ++ comma ::
  ImportExport.escapeCSV (environment k) ++ comma ::
  ImportExport.escapeCSV (join (js ", ") (tags k)) ++ comma ::
  ImportExport.escapeCSV (notes k) ++ comma ::
  (ImportExport.escapeCSV (join (js ", ") (domains k)) ++ comma :: iso).

(** The columns that [detectCSVMapping] finds in the header line written
    by [exportToCSV]. *)
Definition csv_mapping : ImportExport.mapping :=
  ImportExport.Mapping (Some 0%nat) (Some 1%nat) (Some 2%nat) (Some 3%nat) (Some 4%nat).

(** A vault file with every key value blanked out, and a server state
    over such files. *)
Definition redact_key (k : NodeVault.key) : NodeVault.key :=
  NodeVault.Key (NodeVault.id k) (NodeVault.serviceName k) (NodeVault.OtherHex [])
    (NodeVault.environment k) (NodeVault.tags k) (NodeVault.createdAt k)
    (NodeVault.lastUsed k) (NodeVault.usageCount k) (NodeVault.expiresAt k)
    (NodeVault.rateLimit k) (NodeVault.notes k) (NodeVault.domains k).

Definition redact_vault (v : NodeVault.vault) : NodeVault.vault :=
  NodeVault.Vault (NodeVault.version v) (NodeVault.created v)
    (NodeVault.passwordHash v) (map redact_key (NodeVault.keys v)).

Definition redact (w : MCP.world) : MCP.world :=
  MCP.World (option_map redact_vault (MCP.vault_file w)) (MCP.session_file w)
            (option_map redact_vault (MCP.vault w)) (MCP.sessionKey w).


End Spec.

(* ================================================================== *)
(** ** Sample data *)
(* ================================================================== *)

Module Sample.

(** A vault file as the terminal client writes it for the master
    password "password", holding one production key. *)
Definition stripe : NodeVault.key :=
  NodeVault.Key (js "1700000000000-abc123def") (js "Stripe")
    (NodeVault.encrypt (js "password") (js "sk_live_51H"))
    (js "production") [js "payments"] 1700000000000 None (Some 0)
    None None (Some []) None.

Definition node_vault : NodeVault.vault :=
  NodeVault.Vault (js "1.0.0") 1700000000000
    (js "5e884898da28047151d0e56f8dc6292773603d0d6aabbdd62a11ef721d1542d8")
    [stripe].

(** The vault file right after [keyvault init] with that password. *)
Definition node_vault_empty : NodeVault.vault :=
  NodeVault.Vault (js "1.0.0") 1700000000000
    (js "5e884898da28047151d0e56f8dc6292773603d0d6aabbdd62a11ef721d1542d8") [].

(** The MCP server right after start, with that vault file and no
    session file. *)
Definition mcp_fresh : MCP.world := MCP.World (Some node_vault) None None None.

(** The same server once "password" has been accepted at time
    1700000001000. *)
Definition mcp_unlocked : MCP.world :=
  snd (MCP.unlockVault 1700000001000 (js "password") mcp_fresh).

(** Two vault files whose stored hash differs from the SHA-256 of
    "password" in the first and in the last hex digit only. *)
Definition vault_first_digit_off : NodeVault.vault :=
  NodeVault.Vault (js "1.0.0") 1700000000000
    (js "6e884898da28047151d0e56f8dc6292773603d0d6aabbdd62a11ef721d1542d8")
    [stripe].

Definition vault_last_digit_off : NodeVault.vault :=
  NodeVault.Vault (js "1.0.0") 1700000000000
    (js "5e884898da28047151d0e56f8dc6292773603d0d6aabbdd62a11ef721d1542d9")
    [stripe].

(** The digest of "password" as bytes, and the same with the first and
    with the last byte changed. *)
Definition digest_bytes : list Z := SHA256.digest (SHA256.utf8 (js "password")).
Definition digest_first_off : list Z := 0 :: tl digest_bytes.
Definition digest_last_off : list Z := removelast digest_bytes ++ [0].

(** The extension: first start, the master password "correct horse"
    installed by the first unlock, one key added, then locked. *)
Definition env0 : StorageManager.env :=
  StorageManager.Env 1700000000000 (js "k3x9q2m1z") (repeat 7 16) (repeat 9 12) 3.
Definition env1 : StorageManager.env :=
  StorageManager.Env 1700000005000 (js "p0o9i8u7y") (repeat 3 16) (repeat 4 12) 5.
Definition env2 : StorageManager.env :=
  StorageManager.Env 1700000009000 (js "a1s2d3f4g") (repeat 5 16) (repeat 6 12) 1.

Definition ext_first_start : StorageManager.world :=
  StorageManager.initialize env0 (StorageManager.World None None None false).

Definition ext_unlocked : StorageManager.world :=
  snd (Background.unlockVault env0 (js "correct horse") ext_first_start).

Definition openai : StorageManager.keyData :=
  StorageManager.KeyData (js "OpenAI") (js "sk-AAA") (Some (js "development"))
    (Some [js "ai"]) None None None None None None.

Definition ext_one_key : StorageManager.world :=
  snd (Background.addKey env1 openai ext_unlocked).

Definition ext_locked : StorageManager.world :=
  snd (Background.lockVault env2 ext_one_key).

(** The unlocked vault with a second key, added four seconds after the
    first. *)
Definition stripe_test : StorageManager.keyData :=
  StorageManager.KeyData (js "Stripe Test") (js "sk_test_4eC3") None
    (Some [js "payments"]) None None None None None None.

Definition ext_two_keys : StorageManager.world :=
  snd (Background.addKey env2 stripe_test ext_one_key).

(** A decrypted key whose only tag is the empty string, as
    [keyvault add S k e ,] of the terminal client produces them, and one
    with a domain that holds a newline. *)
Definition key_empty_tag : StorageManager.key str :=
  StorageManager.Key (js "1700000005000-p0o9i8u7y") (js "S") (js "k") (js "e")
    [[]] 1700000005000 None (Some 0) None [] [] (js "#00A67E") false [] 0.

Definition key_newline_domain : StorageManager.key str :=
  StorageManager.Key (js "1700000005000-p0o9i8u7y") (js "S") (js "k") (js "e")
    [] 1700000005000 None (Some 0) None [] [newline :: js "x,y"] (js "#00A67E")
    false [] 0.

(** A decrypted key with two tags, a note and two domains. *)
Definition key_openai : StorageManager.key str :=
  StorageManager.Key (js "1700000005000-p0o9i8u7y") (js "Open, AI") (js "sk-AAA")
    (js "development") [js "ai"; js "gpt 4"] 1700000005000 None (Some 0) None
    (js "rotate in May") [js "api.openai.com"; js "platform.openai.com"]
    (js "#00A67E") false [] 0.


Definition openai_id : str := js "1700000005000-p0o9i8u7y".

Definition env3 : StorageManager.env :=
  StorageManager.Env 1700000012000 (js "z9y8x7w6v") (repeat 1 16) (repeat 2 12) 2.




End Sample.

(* ================================================================== *)
(** ** Base64 text: [btoa], [atob] and the two converters of
       [EncryptionService] *)
(* ================================================================== *)

Module Base64.

Import EncryptionService.

Definition alphabet : str :=
  js "ABCDEFGHIJKLMNOPQRSTUVWXYZabcdefghijklmnopqrstuvwxyz0123456789+/".

Definition pad : ascii := chr 61.

(** The elements of a [Uint8Array], and the 6-bit values. *)
Definition byte (x : Z) : Prop := 0 <= x < 256.
Definition sextet (x : Z) : Prop := 0 <= x < 64.

(** The character of a 6-bit value. *)
Definition digit (i : Z) : ascii := nth (Z.to_nat i) alphabet pad.

(** The 6-bit values of a byte sequence, three bytes to four values; a
    rest of one or two bytes gives two or three values. *)
Fixpoint sextets (b : list Z) : list Z :=
  match b with
  | [] => []
  | [x] => [x / 4; (x mod 4) * 16]
  | [x; y] => [x / 4; (x mod 4) * 16 + y / 16; (y mod 16) * 4]
  | x :: y :: z :: rest =>
      [x / 4; (x mod 4) * 16 + y / 16; (y mod 16) * 4 + z / 64; z mod 64]
        ++ sextets rest
  end.

Definition padding (n : nat) : str :=
  match (n mod 3)%nat with
  | 0%nat => []
  | 1%nat => [pad; pad]
  | _ => [pad]
  end.

(** [btoa(binary)] on a string of code units below 256. *)
Definition btoa (binary : str) : str :=
  map digit (sextets (map code binary)) ++ padding (length binary).

(** The white space that [atob] skips: tab, line feed, form feed,
    carriage return and space. *)
Definition is_ascii_whitespace (c : ascii) : bool :=
  let n := code c in
  (n =? 9) || (n =? 10) || (n =? 12) || (n =? 13) || (n =? 32).

(** The position of a character in the alphabet. *)
Fixpoint position (c : ascii) (l : str) (i : Z) : option Z :=
  match l with
  | [] => None
  | x :: l' => if ascii_eqb x c then Some i else position c l' (i + 1)
  end.

Definition value (c : ascii) : option Z := position c alphabet 0.

Fixpoint values (s : str) : option (list Z) :=
  match s with
  | [] => Some []
  | c :: s' =>
      match value c, values s' with
      | Some v, Some vs => Some (v :: vs)
      | _, _ => None
      end
  end.

(** One or two padding characters at the end are dropped. *)
Definition strip_padding (d : str) : str :=
  match rev d with
  | c1 :: c2 :: r =>
      if ascii_eqb c1 pad
      then if ascii_eqb c2 pad then rev r else rev (c2 :: r)
      else d
  | [c1] => if ascii_eqb c1 pad then [] else d
  | [] => []
  end.

(** The bytes of a sequence of 6-bit values, four values to three bytes;
    of a rest of two or three values the bits that do not fill a byte are
    discarded. *)
Fixpoint octets (v : list Z) : list Z :=
  match v with
  | a :: b :: c :: d :: rest =>
      [a * 4 + b / 16; (b mod 16) * 16 + c / 4; (c mod 4) * 64 + d] ++ octets rest
  | [a; b; c] => [a * 4 + b / 16; (b mod 16) * 16 + c / 4]
  | [a; b] => [a * 4 + b / 16]
  | _ => []
  end.

(** [atob(data)]; [None] when it throws InvalidCharacterError. *)
Definition atob (data : str) : option str :=
  let d := filter (fun c => negb (is_ascii_whitespace c)) data in
  let d1 := if (length d mod 4 =? 0)%nat then strip_padding d else d in
  if (length d1 mod 4 =? 1)%nat then None
  else match values d1 with
       | None => None
       | Some v => Some (map chr (octets v))
       end.

(** [arrayBufferToBase64(buffer)] *)
Definition arrayBufferToBase64 (buffer : bytes) : str :=
  btoa (map chr buffer).

(** [base64ToArrayBuffer(base64)]; [None] when [atob] throws. *)
Definition base64ToArrayBuffer (base64 : str) : option bytes :=
  match atob base64 with
  | Some binary => Some (map code binary)
  | None => None
  end.

(** [generateRandomKey(length = 32)], on the array that
    [crypto.getRandomValues] filled. *)
Definition generateRandomKey (array : bytes) : str := arrayBufferToBase64 array.

(** The text that [encryptData] returns for a salt, an iv and the bytes
    that [crypto.subtle.encrypt] produced. *)
Definition combine (salt iv encryptedData : bytes) : str :=
  arrayBufferToBase64 (salt ++ iv ++ encryptedData).

(** [typedArray.slice(from, to)] and [typedArray.slice(from)] for indices
    that are not negative. *)
Definition slice (from to : nat) (a : bytes) : bytes := firstn (to - from) (skipn from a).
Definition slice_from (from : nat) (a : bytes) : bytes := skipn from a.

(** The salt, the iv and the encrypted bytes that [decryptData] takes
    from its argument, before it derives the key. *)
Definition split (encryptedBase64 : str) : option (bytes * bytes * bytes) :=
  match base64ToArrayBuffer encryptedBase64 with
  | None => None
  | Some combined =>
      Some (slice 0 saltLength combined,
            slice saltLength (saltLength + ivLength) combined,
            slice_from (saltLength + ivLength) combined)
  end.

End Base64.

(* ================================================================== *)
(** ** Settings and audit log of [StorageManager] *)
(* ================================================================== *)

Module Settings.

Import EncryptionService StorageManager.

(** [updateSettings(newSettings)] *)
Definition updateSettings (newSettings : settings) (w : world) : world :=
  let d := getStorageData w in
  let current := match settings_ d with
                 | Some s => s
                 | None => getDefaultSettings
                 end in
  setStorageData
    (Data (initialized d) (keys d) (Some (mergeSettings current newSettings))
          (auditLog d) (lastActivity d)) w.

(** [array.slice(0, limit)]: a negative limit counts from the end. *)
Definition slice_to {A} (limit : Z) (l : list A) : list A :=
  let len := Z.of_nat (length l) in
  let final := if limit <? 0 then Z.max (len + limit) 0 else Z.min limit len in
  firstn (Z.to_nat final) l.

(** [getAuditLog(limit = 100)] *)
Definition getAuditLog (limit : option Z) (w : world) : list auditEntry :=
  slice_to (match limit with Some n => n | None => 100 end)
           (or_list (auditLog (getStorageData w))).

(** The audit log as stored. *)
Definition log_of (w : world) : list auditEntry :=
  or_list (auditLog (getStorageData w)).

End Settings.

(* ================================================================== *)
(** ** The background worker: key generator and alarms *)
(* ================================================================== *)

Module Worker.

Import EncryptionService StorageManager.

Definition charset : str :=
  js "ABCDEFGHIJKLMNOPQRSTUVWXYZabcdefghijklmnopqrstuvwxyz0123456789-_".

(** [charset[array[i] % charset.length]] *)
Definition pick (b : Z) : ascii :=
  nth (Z.to_nat (b mod Z.of_nat (length charset))) charset (chr 0).

(** [generateSecureKey(length)], on the [Uint8Array] of [length] elements
    as [crypto.getRandomValues] filled it; [None] when that call refuses
    an array of more than 65536 bytes. *)
Definition generateSecureKey (array : bytes) : option str :=
  if 65536 <? Z.of_nat (length array) then None
  else Some (map pick array).

(** The listener of [chrome.alarms.onAlarm]. A missing [autoLockMinutes]
    makes the comparison of the periodic check false. *)
Definition onAlarm (e : env) (name : str) (w : world) : world :=
  if str_eqb name (js "auto-lock") then snd (Background.lockVault e w)
  else if str_eqb name (js "check-auto-lock") then
    if isVaultUnlocked w then
      let lastActivity := getLastActivity e w in
      match autoLockMinutes (getSettings w) with
      | Some minutes =>
          if minutes * 60 * 1000 <? now e - lastActivity
          then snd (Background.lockVault e w)
          else w
      | None => w
      end
    else w
  else w.

(** What the background worker serves: the messages of
    [handleMessage], the nine authenticated actions as one case, and the
    alarms. *)
Inductive request : Type :=
| UnlockVault (masterPassword : str)
| LockVault
| IsVaultUnlocked
| Authenticated (o : Api.op)
| GetSettings
| UpdateSettings (newSettings : settings)
| GetAuditLog
| GenerateKey (array : bytes)
| UnknownAction
| Alarm (name : str).

(** Storage and session once the request is served. *)
Definition serve (e : env) (r : request) (w : world) : world :=
  match r with
  | UnlockVault masterPassword => snd (Background.unlockVault e masterPassword w)
  | LockVault => snd (Background.lockVault e w)
  | Authenticated o => snd (Api.run e o w)
  | UpdateSettings newSettings => Settings.updateSettings newSettings w
  | Alarm name => onAlarm e name w
  | IsVaultUnlocked | GetSettings | GetAuditLog | GenerateKey _ | UnknownAction => w
  end.

(** The requests that neither overwrite the counter or the id of an
    entry through [updateKey] nor delete the entry [i]. *)
Definition keeps_counter (i : str) (c : env * request) : bool :=
  match snd c with
  | Authenticated o => Spec.keeps_counter i (fst c, o)
  | _ => true
  end.

(** A sequence of requests, each with its own clock and random draws. *)
Fixpoint serve_all (requests : list (env * request)) (w : world) : world :=
  match requests with
  | [] => w
  | (e, r) :: rest => serve_all rest (serve e r w)
  end.

End Worker.

(* ================================================================== *)
(** ** The content script *)
(* ================================================================== *)

Module Content.

Import EncryptionService StorageManager.

(** What [isApiKeyField] reads of an input element: three properties,
    the attribute [aria-label] and the text that [getFieldLabel] finds,
    the last two possibly [null]. *)
Record input : Type := Input {
  name : str;
  id_ : str;
  placeholder : str;
  ariaLabel : option str;
  label : option str
}.

Definition patterns : list str :=
  [js "api"; js "key"; js "token"; js "secret"; js "credential";
   js "auth"; js "bearer"; js "access"; js "client_id"; js "client_secret";
   js "apikey"; js "api_key"; js "api-key"].

Definition space : ascii := chr 32.

(** [isApiKeyField(input)] *)
Definition isApiKeyField (i : input) : bool :=
  let name := toLowerCase (name i) in
  let id := toLowerCase (id_ i) in
  let placeholder := toLowerCase (placeholder i) in
  let ariaLabel := toLowerCase (or_str (ariaLabel i) []) in
  let fieldText :=
    name ++ [space] ++ id ++ [space] ++ placeholder ++ [space] ++ ariaLabel in
  if existsb (fun pattern => includes fieldText pattern) patterns then true
  else match label i with
       | Some l =>
           truthy l && existsb (fun pattern => includes (toLowerCase l) pattern) patterns
       | None => false
       end.

(** What [showKeySelector] ends with. *)
Inductive selector : Type :=
| PleaseUnlock
| FailedToLoad
| NoKeysFound
| Offered (keys : list (key str)).

(** [showKeySelector(targetField)]: the keys of the current domain, or
    every key when the domain has none. The three messages are answered
    one after the other, each with its own clock. *)
Definition showKeySelector (e1 e2 : env) (currentDomain : str) (w : world)
  : selector * world :=
  if negb (isVaultUnlocked w) then (PleaseUnlock, w)
  else
    match Background.getKeys e1
            (Some (Background.KeyFilter (Some currentDomain) None None)) w with
    | (Err _, w1) => (FailedToLoad, w1)
    | (Ok [], w1) =>
        match Background.getKeys e2 None w1 with
        | (Ok [], w2) => (NoKeysFound, w2)
        | (Ok all, w2) => (Offered all, w2)
        | (Err _, w2) => (NoKeysFound, w2)
        end
    | (Ok ks, w1) => (Offered ks, w1)
    end.

(** [fillKey(key, targetField)] on a field that is there: the usage is
    recorded for the current domain. *)
Definition fillKey (e : env) (currentDomain : str) (k : key str) (w : world)
  : result unit * world :=
  Background.recordKeyUsage e (id k) currentDomain w.

(** The filter of the selector's search box. *)
Definition searchBox (value : str) (ks : list (key str)) : list (key str) :=
  let query := toLowerCase value in
  filter (fun k =>
    includes (toLowerCase (serviceName k)) query
    || existsb (fun tag => includes (toLowerCase tag) query) (tags k)
    || includes (toLowerCase (environment k)) query) ks.

End Content.

(* ================================================================== *)
(** ** More of the popup: expiration warnings, dates, the key form *)
(* ================================================================== *)

Module PopupView.

Import EncryptionService StorageManager.

Definition day_ms : Z := 1000 * 60 * 60 * 24.

(** The largest time value of a [Date]. *)
Definition max_time : Z := 8640000000000000.

Inductive warning : Type :=
| Expired
| ExpiresIn (days : Z).

(** [getExpirationWarning(key)]; [None] is [null]. The quotient of the
    two integers below 2^53 and the day length is floored; a time value
    out of range makes every comparison false. *)
Definition getExpirationWarning (now : Z) (s : settings) (k : key str) : option warning :=
  match expiresAt k with
  | None => None
  | Some x =>
      if (x =? 0) || negb (match showExpirationWarnings s with
                           | Some b => b
                           | None => false
                           end) then None
      else if max_time <? Z.abs x then None
      else
        let daysUntilExpiration := (x - now) / day_ms in
        if daysUntilExpiration <? 0 then Some Expired
        else match expirationWarningDays s with
             | Some d => if daysUntilExpiration <=? d
                         then Some (ExpiresIn daysUntilExpiration) else None
             | None => None
             end
  end.

Inductive ago : Type :=
| JustNow
| MinutesAgo (n : Z)
| HoursAgo (n : Z)
| DaysAgo (n : Z)
| LocaleDate (t : Z).

(** [formatDate(timestamp)]. A time value out of range gives an invalid
    date, every comparison is false and the function ends with
    [toLocaleDateString] of that date. *)
Definition formatDate (now timestamp : Z) : ago :=
  let diff := now - timestamp in
  let minutes := diff / 60000 in
  let hours := diff / 3600000 in
  let days := diff / 86400000 in
  if max_time <? Z.abs timestamp then LocaleDate timestamp
  else if minutes <? 1 then JustNow
  else if minutes <? 60 then MinutesAgo minutes
  else if hours <? 24 then HoursAgo hours
  else if days <? 7 then DaysAgo days
  else LocaleDate timestamp.

(** The text that [loadKeyIntoForm] puts into the tags and domains
    fields, and the list that [saveKey] reads from such a field. *)
Definition fieldText (items : list str) : str := join (js ", ") items.

Definition fieldItems (value : str) : list str :=
  filter truthy (map trim (split_on (ascii_eqb comma) value)).

End PopupView.

(* ================================================================== *)
(** ** The resources of the MCP server *)
(* ================================================================== *)

Module McpResources.

Import NodeVault.

(** An element of the list served under [keyvault://keys]. *)
Record keyEntry : Type := KeyEntry {
  r_id : str;
  r_serviceName : str;
  r_environment : str;
  r_tags : list str;
  r_createdAt : Z;
  r_lastUsed : option Z;
  r_usageCount : option Z
}.

Definition keyEntry_of (k : key) : keyEntry :=
  KeyEntry (id k) (serviceName k) (environment k) (tags k) (createdAt k)
           (lastUsed k) (usageCount k).

(** The object of [getVaultStatus()]; the path of the vault file is a
    constant and left out. *)
Record status : Type := Status {
  vaultExists : bool;
  isUnlocked : bool;
  totalKeys : nat
}.

(** [getVaultStatus()] *)
Definition getVaultStatus (now : Z) (w : MCP.world) : status * MCP.world :=
  let w1 := MCP.loadVault w in
  let '(_, w2) := MCP.loadSession now w1 in
  (Status (match MCP.vault w2 with Some _ => true | None => false end)
          (match MCP.sessionKey w2 with Some k => truthy k | None => false end)
          (match MCP.vault w2 with Some v => length (keys v) | None => 0%nat end),
   w2).

Inductive contents : Type :=
| KeysJson (l : list keyEntry)
| StatusJson (s : status)
| VaultNotFound        (* 'Vault not found. Please initialize KeyVault first.' *)
| UnknownResource.     (* 'Unknown resource: ...' *)

(** The handler of [ReadResourceRequestSchema]; the last two answers are
    errors thrown. *)
Definition readResource (now : Z) (uri : str) (w : MCP.world) : contents * MCP.world :=
  if str_eqb uri (js "keyvault://keys") then
    let w1 := MCP.loadVault w in
    match MCP.vault w1 with
    | None => (VaultNotFound, w1)
    | Some v => (KeysJson (map keyEntry_of (keys v)), w1)
    end
  else if str_eqb uri (js "keyvault://status") then
    let '(s, w') := getVaultStatus now w in (StatusJson s, w')
  else (UnknownResource, w).

End McpResources.

(* ================================================================== *)
(** ** The commands of the terminal client on an unlocked vault *)
(* ================================================================== *)

Module CliCommands.

Import NodeVault.

(** [findKey(idOrName)] *)
Definition findKey (idOrName : str) (v : vault) : option key :=
  find (fun k => startsWith (id k) idOrName
                 || str_eqb (toLowerCase (serviceName k)) (toLowerCase idOrName))
       (keys v).

(** [generateId()] from the clock and the random suffix. *)
Definition generateId (now : Z) (suffix : str) : str :=
  decimal now ++ js "-" ++ suffix.

Definition set_keys (v : vault) (ks : list key) : vault :=
  Vault (version v) (created v) (passwordHash v) ks.

(** [addKey(args)] once the vault is unlocked and the four values are
    known, from the arguments or from the prompts: the vault saved. An
    environment left empty at the prompt becomes 'production'; the tags
    are split at commas and trimmed, and none is dropped. *)
Definition addKey (now : Z) (suffix sessionKey : str)
    (serviceName keyValue environment tags : str) (v : vault) : vault :=
  let k := Key (generateId now suffix) serviceName (encrypt sessionKey keyValue)
               (or_str (Some environment) (js "production"))
               (if truthy tags then map trim (split_on (ascii_eqb comma) tags) else [])
               now None (Some 0) None None None None in
  set_keys v (keys v ++ [k]).

(** The keys that [listKeys(args)] prints. *)
Definition listKeys (filter_ : option str) (v : vault) : list key :=
  match filter_ with
  | Some f => if truthy f then filter (fun k => str_eqb (environment k) f) (keys v)
              else keys v
  | None => keys v
  end.

Inductive cli_result (A : Type) : Type :=
| Done (a : A)
| KeyNotFound           (* 'Key not found: ...' *)
| DecipherError         (* the decipher threw *)
| Cancelled.
Arguments Done {A} a.
Arguments KeyNotFound {A}.
Arguments DecipherError {A}.
Arguments Cancelled {A}.

(** [getKey(keyId)]: the key value printed. *)
Definition getKey (sessionKey keyId : str) (v : vault) : cli_result str :=
  match findKey keyId v with
  | None => KeyNotFound
  | Some k =>
      match decrypt sessionKey (keyValue k) with
      | Some decrypted => Done decrypted
      | None => DecipherError
      end
  end.

(** [deleteKey(keyId)] with the answer typed at the confirmation: the
    vault saved. Every key with the id of the key found is removed. *)
Definition deleteKey (keyId confirm : str) (v : vault) : cli_result vault :=
  match findKey keyId v with
  | None => KeyNotFound
  | Some k =>
      if negb (str_eqb (toLowerCase confirm) (js "yes")) then Cancelled
      else Done (set_keys v (filter (fun x => negb (str_eqb (id x) (id k))) (keys v)))
  end.

(** A key of an export file: the key with its value in the clear. *)
Record plain : Type := Plain {
  p_id : str;
  p_serviceName : str;
  p_keyValue : str;
  p_environment : str;
  p_tags : list str;
  p_createdAt : Z;
  p_lastUsed : option Z;
  p_usageCount : option Z;
  p_expiresAt : option Z;
  p_rateLimit : option str;
  p_notes : option str;
  p_domains : option (list str)
}.

(** [{...key, keyValue: this.decrypt(key.keyValue)}] *)
Definition plain_of (sessionKey : str) (k : key) : option plain :=
  match decrypt sessionKey (keyValue k) with
  | Some v =>
      Some (Plain (id k) (serviceName k) v (environment k) (tags k) (createdAt k)
                  (lastUsed k) (usageCount k) (expiresAt k) (rateLimit k) (notes k)
                  (domains k))
  | None => None
  end.

(** The [keys] of the file that [exportVault] writes; [None] when a key
    does not decipher and the command fails. *)
Fixpoint exportKeys (sessionKey : str) (ks : list key) : option (list plain) :=
  match ks with
  | [] => Some []
  | k :: ks' =>
      match plain_of sessionKey k, exportKeys sessionKey ks' with
      | Some p, Some ps => Some (p :: ps)
      | _, _ => None
      end
  end.

Definition exportVault (sessionKey : str) (v : vault) : option (list plain) :=
  exportKeys sessionKey (keys v).

(** [{...key, id: this.generateId(), keyValue: this.encrypt(key.keyValue),
    createdAt: new Date().toISOString()}] *)
Definition reencrypt (now : Z) (suffix sessionKey : str) (p : plain) : key :=
  Key (generateId now suffix) (p_serviceName p) (encrypt sessionKey (p_keyValue p))
      (p_environment p) (p_tags p) now (p_lastUsed p) (p_usageCount p)
      (p_expiresAt p) (p_rateLimit p) (p_notes p) (p_domains p).

(** The loop of [importVault]: a key whose service name is already in
    the vault, as the loop has grown it, is skipped. Each key comes with
    the clock and the random suffix of its turn. *)
Fixpoint importKeys (sessionKey : str) (file : list (plain * (Z * str)))
    (ks : list key) : list key :=
  match file with
  | [] => ks
  | (p, (now, suffix)) :: rest =>
      if existsb (fun k => str_eqb (serviceName k) (p_serviceName p)) ks
      then importKeys sessionKey rest ks
      else importKeys sessionKey rest (ks ++ [reencrypt now suffix sessionKey p])
  end.

(** [importVault(inputPath)] on a file that holds a list of keys: the
    vault saved. *)
Definition importVault (sessionKey : str) (file : list (plain * (Z * str)))
    (v : vault) : vault :=
  set_keys v (importKeys sessionKey file (keys v)).

End CliCommands.

(* ================================================================== *)
(** ** The .env adapter of [ImportExportManager] *)
(* ================================================================== *)

Module EnvFile.

Import StorageManager ImportExport.

Definition underscore : ascii := chr 95.
Definition space : ascii := chr 32.
Definition squote : ascii := chr 39.
Definition equals : ascii := chr 61.
Definition hash : ascii := chr 35.

Definition is_upper (c : ascii) : bool := (65 <=? code c) && (code c <=? 90).
Definition is_lower (c : ascii) : bool := (97 <=? code c) && (code c <=? 122).
Definition is_digit (c : ascii) : bool := (48 <=? code c) && (code c <=? 57).

(** [detectEnvironment(name)] *)
Definition detectEnvironment (name : str) : str :=
  let lower := toLowerCase name in
  if includes lower (js "prod") then js "production"
  else if includes lower (js "dev") then js "development"
  else if includes lower (js "test") then js "testing"
  else if includes lower (js "stag") then js "staging"
  else js "production".

Definition keyPatterns : list str :=
  [js "key"; js "token"; js "secret"; js "api"; js "auth"; js "password";
   js "credential"].

(** [looksLikeAPIKey(name, value)] *)
Definition looksLikeAPIKey (name value : str) : bool :=
  let nameLower := toLowerCase name in
  let nameMatch := existsb (fun pattern => includes nameLower pattern) keyPatterns in
  let valueLooksLikeKey :=
    (16 <=? length value)%nat
    && existsb (fun c => is_upper c || is_lower c) value
    && existsb is_digit value in
  nameMatch && valueLooksLikeKey.

(** [toUpperCase] of a one-character string of this model. The capital
    of the sharp s (0xDF) is SS. The capitals of the micro sign (0xB5)
    and of y with diaeresis (0xFF) are single code units above 255, which
    a string of this model cannot hold: the answer is [None] for them. *)
Definition upper_char (c : ascii) : option str :=
  let n := code c in
  if is_lower c then Some [chr (n - 32)]
  else if (224 <=? n) && (n <=? 254) && negb (n =? 247) then Some [chr (n - 32)]
  else if n =? 223 then Some (js "SS")
  else if (n =? 181) || (n =? 255) then None
  else Some [c].

(** [word.charAt(0).toUpperCase() + word.slice(1)] *)
Definition capitalize (word : str) : option str :=
  match word with
  | [] => Some []
  | c :: rest =>
      match upper_char c with
      | Some u => Some (u ++ rest)
      | None => None
      end
  end.

Fixpoint capitalizeAll (words : list str) : option (list str) :=
  match words with
  | [] => Some []
  | w :: ws =>
      match capitalize w, capitalizeAll ws with
      | Some c, Some cs => Some (c :: cs)
      | _, _ => None
      end
  end.

(** Two code units that the flag [i] of a regular expression makes
    equal, the second one a small letter a-z. *)
Definition same_letter (c l : ascii) : bool := ascii_eqb (lower_char c) l.

(** [replace(/Api|Api Key/gi, 'API')]: the first alternative matches
    wherever the second one would, so every occurrence of the three
    letters, case ignored, is replaced, from left to right. *)
Fixpoint replaceApi (s : str) : str :=
  match s with
  | [] => []
  | a :: tail =>
      match tail with
      | p :: i :: rest =>
          if same_letter a (chr 97) && same_letter p (chr 112) && same_letter i (chr 105)
          then js "API" ++ replaceApi rest
          else a :: replaceApi tail
      | _ => a :: replaceApi tail
      end
  end.

(** [formatEnvVarName(envVar)]; [None] when a word starts with one of
    the two code units that [upper_char] cannot answer for. *)
Definition formatEnvVarName (envVar : str) : option str :=
  let spaced := map (fun c => if ascii_eqb c underscore then space else c) envVar in
  let words := split_on (ascii_eqb space) (toLowerCase spaced) in
  match capitalizeAll words with
  | Some ws => Some (replaceApi (join [space] ws))
  | None => None
  end.

(** [toUpperCase()] followed by [replace(/[^A-Z0-9]/g, '_')], on one code
    unit: what the capital holds outside A-Z and 0-9 becomes an
    underscore, a capital above 255 included. *)
Definition upper_alnum (c : ascii) : str :=
  match upper_char c with
  | Some u => map (fun x => if is_upper x || is_digit x then x else underscore) u
  | None => [underscore]
  end.

(** [replace(/_+/g, '_')] *)
Fixpoint collapse (s : str) : str :=
  match s with
  | [] => []
  | c :: rest =>
      match rest with
      | u :: _ =>
          if ascii_eqb c underscore && ascii_eqb u underscore then collapse rest
          else c :: collapse rest
      | [] => [c]
      end
  end.

(** [replace(/^_|_$/g, '')]: an underscore at the start and an underscore
    at the end are dropped. *)
Definition strip_ends (s : str) : str :=
  let s1 := match s with
            | c :: s' => if ascii_eqb c underscore then s' else s
            | [] => []
            end in
  match rev s1 with
  | c :: r => if ascii_eqb c underscore then rev r else s1
  | [] => []
  end.

(** [toEnvVarName(serviceName)] *)
Definition toEnvVarName (serviceName : str) : str :=
  strip_ends (collapse (flat_map upper_alnum serviceName)) ++ js "_API_KEY".

(** The lines that [exportToEnv] pushes for a key. *)
Definition envLines (k : key str) : list str :=
  [js "# " ++ serviceName k ++ js " (" ++ environment k ++ js ")"]
  ++ (if truthy (notes k) then [js "# " ++ notes k] else [])
  ++ [toEnvVarName (serviceName k) ++ [equals] ++ [dquote] ++ keyValue k ++ [dquote]; []].

(** [exportToEnv(keys)] at the time [now]; [None] when the date cannot be
    printed. *)
Definition exportToEnv (now : Z) (ks : list (key str)) : option str :=
  match JSDate.toISOString now with
  | None => None
  | Some iso =>
      Some (join [newline]
              ([js "# KeyVault Pro Export"; js "# Generated: " ++ iso; []]
               ++ flat_map envLines ks))
  end.

(** The longest prefix of code units that satisfy [p], and the rest. *)
Fixpoint span (p : ascii -> bool) (s : str) : str * str :=
  match s with
  | [] => ([], [])
  | c :: s' =>
      if p c then let '(a, b) := span p s' in (c :: a, b)
      else ([], s)
  end.

Definition name_start (c : ascii) : bool := is_upper c || ascii_eqb c underscore.
Definition name_char (c : ascii) : bool :=
  is_upper c || is_digit c || ascii_eqb c underscore.

(** The line terminators that [.] does not match, among code units
    below 256. *)
Definition line_terminator (c : ascii) : bool := (code c =? 10) || (code c =? 13).

(** The match of a line against the regular expression of
    [importEnvFile]: a name (one of A-Z or an underscore, then any
    number of A-Z, 0-9 and underscores), optional white space, the equals
    sign, optional white space, and a value of one or more characters up
    to the end of the line. The name is the longest run of name
    characters; the value is all that follows the white space after the
    equals sign, which must not be empty and must hold no line
    terminator. The answer is the name and the value. *)
Definition matchAssignment (line : str) : option (str * str) :=
  match line with
  | [] => None
  | c :: rest =>
      if name_start c then
        let '(more, after) := span name_char rest in
        match trimStart after with
        | e :: afterEquals =>
            if ascii_eqb e equals then
              let value := trimStart afterEquals in
              if truthy value && negb (existsb line_terminator value)
              then Some (c :: more, value)
              else None
            else None
        | [] => None
        end
      else None
  end.

Definition endsWith (s : str) (c : ascii) : bool :=
  match rev s with
  | x :: _ => ascii_eqb x c
  | [] => false
  end.

(** The quotes around a value are removed: [cleanValue.slice(1, -1)]. *)
Definition unquote (cleanValue : str) : str :=
  if (startsWith cleanValue [dquote] && endsWith cleanValue dquote)
     || (startsWith cleanValue [squote] && endsWith cleanValue squote)
  then removelast (tl cleanValue)
  else cleanValue.

(** The body of the loop of [importEnvFile] on one line: the key pushed,
    if any. The name that reaches [formatEnvVarName] is made of A-Z, 0-9
    and underscores, for which it answers. *)
Definition importEnvLine (line0 : str) : option imported :=
  let line := trim line0 in
  if negb (truthy line) || startsWith line [hash] then None
  else
    match matchAssignment line with
    | None => None
    | Some (name, value) =>
        let cleanValue := unquote (trim value) in
        if looksLikeAPIKey name cleanValue then
          match formatEnvVarName name with
          | Some serviceName =>
              Some (Imported (Some serviceName) cleanValue
                             (Some (detectEnvironment name))
                             [js "env-import"]
                             (Some (js "Imported from .env file: " ++ name))
                             [] false)
          | None => None
          end
        else None
    end.

Fixpoint importEnvLines (lines : list str) : list imported :=
  match lines with
  | [] => []
  | l :: ls =>
      match importEnvLine l with
      | Some k => k :: importEnvLines ls
      | None => importEnvLines ls
      end
  end.

(** [importEnvFile(envContent).keys] *)
Definition importEnvFile (envContent : str) : list imported :=
  importEnvLines (split_on (ascii_eqb newline) envContent).

End EnvFile.

(* ================================================================== *)
(** ** Notions used in the statements about the extension *)
(* ================================================================== *)

Module Props.

Import EncryptionService StorageManager.

(** The list without its first element that satisfies [p]. *)
Fixpoint remove_first {A} (p : A -> bool) (l : list A) : list A :=
  match l with
  | [] => []
  | x :: l' => if p x then l' else x :: remove_first p l'
  end.

(** An [updates] object that sets the key value only. *)
Definition new_value (v : str) : updates :=
  Updates None None (Some v) None None None None None None None None None None None None.

(** A settings object that only switches the audit log off. *)
Definition audit_off : settings :=
  Settings None None None None None None None None (Some false).

(** The byte values 0 to 255. *)
Definition all_bytes : list Z := map Z.of_nat (seq 0 256).

(** A key that the import of the terminal client made from a key of
    the file: same name, environment and tags, and a value that opens
    under the session key to the value of the file. *)
Definition came_from (s : str) (file : list (CliCommands.plain * (Z * str)))
    (k : NodeVault.key) : Prop :=
  exists p, In p (map fst file)
            /\ NodeVault.serviceName k = CliCommands.p_serviceName p
            /\ NodeVault.environment k = CliCommands.p_environment p
            /\ NodeVault.tags k = CliCommands.p_tags p
            /\ NodeVault.decrypt s (NodeVault.keyValue k) = Some (CliCommands.p_keyValue p).

(** An item of the tags or domains field that the key form gives back
    as it is: not empty, no white space at its ends, no comma. *)
Definition item_ok (t : str) : Prop :=
  t <> [] /\ trim t = t /\ ImportExport.has_char comma t = false.

(** A key whose texts hold no line feed, so that [exportToEnv] writes
    each of its lines as one line. *)
Definition one_line (k : key str) : Prop :=
  ImportExport.has_char newline (serviceName k) = false
  /\ ImportExport.has_char newline (environment k) = false
  /\ ImportExport.has_char newline (notes k) = false
  /\ ImportExport.has_char newline (keyValue k) = false.

(** The keys of an exported .env file that [importEnvFile] takes: the
    variable name starts with a letter or an underscore, the value holds
    no line terminator and looks like an API key. *)
Definition importable (k : key str) : bool :=
  match EnvFile.toEnvVarName (serviceName k) with
  | c :: _ => EnvFile.name_start c
  | [] => false
  end
  && negb (existsb EnvFile.line_terminator (keyValue k))
  && EnvFile.looksLikeAPIKey (EnvFile.toEnvVarName (serviceName k)) (keyValue k).

(** What [importEnvFile] makes of such a key. *)
Definition reimported (k : key str) : ImportExport.imported :=
  let name := EnvFile.toEnvVarName (serviceName k) in
  ImportExport.Imported (EnvFile.formatEnvVarName name) (keyValue k)
    (Some (EnvFile.detectEnvironment name)) [js "env-import"]
    (Some (js "Imported from .env file: " ++ name)) [] false.

(** No two underscores in a row. *)
Fixpoint no_run (s : str) : bool :=
  match s with
  | c :: rest =>
      match rest with
      | u :: _ =>
          negb (ascii_eqb c EnvFile.underscore && ascii_eqb u EnvFile.underscore)
          && no_run rest
      | [] => true
      end
  | [] => true
  end.

End Props.
Example sha256_abc :
  SHA256.sha256_hex (js "abc")
  = js "ba7816bf8f01cfea414140de5dae2223b00361a396177a9cb410ff61f20015ad".
Proof. vm_compute. reflexivity. Qed.

Example sha256_empty :
  SHA256.sha256_hex []
  = js "e3b0c44298fc1c149afbf4c8996fb92427ae41e4649b934ca495991b7852b855".
Proof. vm_compute. reflexivity. Qed.

Example sha256_two_blocks :
  SHA256.sha256_hex (repeat (chr 97) 60)
  = js "11ee391211c6256460b6ed375957fadd8061cafbb31daf967db875aebd5aaad4".
Proof. vm_compute. reflexivity. Qed.

Example sha256_constants :
  length SHA256.K = 64%nat
  /\ nth 0 SHA256.K 0 = 0x428a2f98
  /\ nth 63 SHA256.K 0 = 0xc67178f2
  /\ nth 0 SHA256.H0 0 = 0x6a09e667
  /\ nth 7 SHA256.H0 0 = 0x5be0cd19.
Proof. vm_compute. repeat split; reflexivity. Qed.

Example iso_epoch : JSDate.toISOString 0 = Some (js "1970-01-01T00:00:00.000Z").
Proof. vm_compute. reflexivity. Qed.

Example iso_2023 :
  JSDate.toISOString 1700000000000 = Some (js "2023-11-14T22:13:20.000Z").
Proof. vm_compute. reflexivity. Qed.

Example iso_leap :
  JSDate.toISOString 951782400123 = Some (js "2000-02-29T00:00:00.123Z").
Proof. vm_compute. reflexivity. Qed.

Example iso_before_epoch :
  JSDate.toISOString (-1) = Some (js "1969-12-31T23:59:59.999Z").
Proof. vm_compute. reflexivity. Qed.

(* ================================================================== *)
(** * Facts about strings *)
(* ================================================================== *)

Section StringFacts.

Lemma ascii_eqb_eq (a b : ascii) : ascii_eqb a b = true <-> a = b.
Proof. unfold ascii_eqb. apply Ascii.eqb_eq. Qed.

Lemma ascii_eqb_refl (a : ascii) : ascii_eqb a a = true.
Proof. apply ascii_eqb_eq. reflexivity. Qed.

Lemma ascii_eqb_neq (a b : ascii) : ascii_eqb a b = false <-> a <> b.
Proof. unfold ascii_eqb. apply Ascii.eqb_neq. Qed.

Lemma str_eqb_eq (a b : str) : str_eqb a b = true <-> a = b.
Proof.
  revert b. induction a as [|x a IH]; intros [|y b]; simpl; split; intro H;
    try reflexivity; try discriminate.
  - apply andb_true_iff in H. destruct H as [Hx Ha].
    apply ascii_eqb_eq in Hx. apply IH in Ha. congruence.
  - injection H as -> ->. rewrite ascii_eqb_refl. simpl. apply IH. reflexivity.
Qed.

Lemma str_eqb_refl (a : str) : str_eqb a a = true.
Proof. apply str_eqb_eq. reflexivity. Qed.

Lemma str_eqb_neq (a b : str) : str_eqb a b = false <-> a <> b.
Proof.
  split; intro H.
  - intro E. apply str_eqb_eq in E. congruence.
  - destruct (str_eqb a b) eqn:E; [|reflexivity].
    apply str_eqb_eq in E. contradiction.
Qed.

Lemma startsWith_spec (s p : str) :
  startsWith s p = true <-> exists post, s = p ++ post.
Proof.
  revert s. induction p as [|y p IH]; intros s; simpl.
  - split; [intros _; exists s; reflexivity | intros _; reflexivity].
  - destruct s as [|x s].
    + split; [discriminate | intros [post H]; discriminate].
    + rewrite andb_true_iff, ascii_eqb_eq, IH. split.
      * intros [-> [post ->]]. exists post. reflexivity.
      * intros [post H]. injection H as -> ->. split; [reflexivity | eauto].
Qed.

(** [includes] finds exactly the contiguous occurrences. *)
Lemma includes_spec (s p : str) :
  includes s p = true <-> exists pre post, s = pre ++ p ++ post.
Proof.
  induction s as [|x s IH].
  - cbn [includes]. rewrite orb_false_r, startsWith_spec. split.
    + intros [post H]. exists [], post. exact H.
    + intros [pre [post H]]. destruct pre; simpl in H.
      * exists post. exact H.
      * discriminate.
  - cbn [includes]. rewrite orb_true_iff, startsWith_spec, IH. split.
    + intros [[post H] | [pre [post H]]].
      * exists [], post. exact H.
      * exists (x :: pre), post. simpl. rewrite H. reflexivity.
    + intros [pre [post H]]. destruct pre as [|c pre]; simpl in H.
      * left. exists post. exact H.
      * right. injection H as _ H. exists pre, post. exact H.
Qed.

Lemma includes_empty (s : str) : includes s [] = true.
Proof. apply includes_spec. exists [], s. reflexivity. Qed.

End StringFacts.

(* ================================================================== *)
(** * Search *)
(* ================================================================== *)

Module SearchFacts.

Import StorageManager Spec.








End SearchFacts.

(** ** C7 *)



(* ================================================================== *)
(** * The lock boundary *)
(* ================================================================== *)

Module LockFacts.

Import EncryptionService StorageManager.

Lemma addAuditLog_isUnlocked e a w : isUnlocked (addAuditLog e a w) = isUnlocked w.
Proof. unfold addAuditLog. destruct (negb _); reflexivity. Qed.



(** Each guarded method of the storage manager, on a locked vault: the
    guard is the first thing the method looks at. *)
Ltac lock_guard f :=
  let H := fresh "H" in
  intro H; unfold f; rewrite H; reflexivity.

Lemma getAllKeys_locked e w :
  isUnlocked w = false -> getAllKeys e w = (Err VaultLocked, w).
Proof. lock_guard getAllKeys. Qed.

Lemma getKey_locked e i w :
  isUnlocked w = false -> getKey e i w = (Err VaultLocked, w).
Proof. lock_guard getKey. Qed.

Lemma addKey_locked e kd w :
  isUnlocked w = false -> addKey e kd w = (Err VaultLocked, w).
Proof. lock_guard addKey. Qed.

Lemma updateKey_locked e i u w :
  isUnlocked w = false -> updateKey e i u w = (Err VaultLocked, w).
Proof. lock_guard updateKey. Qed.

Lemma deleteKey_locked e i w :
  isUnlocked w = false -> deleteKey e i w = (Err VaultLocked, w).
Proof. lock_guard deleteKey. Qed.

Lemma recordKeyUsage_locked e i d w :
  isUnlocked w = false -> recordKeyUsage e i d w = (Err VaultLocked, w).
Proof. lock_guard recordKeyUsage. Qed.

Lemma exportData_locked e w :
  isUnlocked w = false -> exportData e w = (Err VaultLocked, w).
Proof. lock_guard exportData. Qed.

Lemma importData_locked d w :
  isUnlocked w = false -> importData d w = (Err VaultLocked, w).
Proof. lock_guard importData. Qed.

Create Rewrite HintDb locked.

#[local] Hint Rewrite getAllKeys_locked getKey_locked addKey_locked updateKey_locked
  deleteKey_locked recordKeyUsage_locked exportData_locked importData_locked
  using assumption : locked.


(** The MCP server: [requireUnlocked] throws on a locked vault and writes
    no file. *)
Lemma mcp_requireUnlocked_locked now w v :
  MCP.vault_file w = Some v -> MCP.locked now w = true ->
  exists w',
    MCP.requireUnlocked now w = (Some MCP.ErrVaultLocked, w')
    /\ MCP.vault_file w' = MCP.vault_file w
    /\ MCP.session_file w' = MCP.session_file w
    /\ MCP.locked now w' = true.
Proof.
  intros Hv Hl. unfold MCP.requireUnlocked, MCP.loadSession, MCP.loadVault.
  unfold MCP.locked, MCP.effective_key in *. cbn [MCP.session_file MCP.vault MCP.sessionKey].
  destruct (MCP.session_file w) as [s|] eqn:S.
  - destruct (now - MCP.timestamp s <? 3600000) eqn:F;
      cbn [MCP.vault MCP.sessionKey]; rewrite Hv.
    + destruct (truthy (MCP.key s)) eqn:T; [discriminate|].
      eexists. split; [reflexivity|].
      cbn [MCP.vault_file MCP.session_file MCP.sessionKey]. rewrite F, T. auto.
    + destruct (MCP.sessionKey w) as [k|] eqn:K.
      * destruct (truthy k) eqn:T; [discriminate|].
        eexists. split; [reflexivity|].
        cbn [MCP.vault_file MCP.session_file MCP.sessionKey]. rewrite F, T. auto.
      * eexists. split; [reflexivity|].
        cbn [MCP.vault_file MCP.session_file MCP.sessionKey]. rewrite F. auto.
  - cbn [MCP.vault MCP.sessionKey]. rewrite Hv.
    destruct (MCP.sessionKey w) as [k|] eqn:K.
    + destruct (truthy k) eqn:T; [discriminate|].
      eexists. split; [reflexivity|].
      cbn [MCP.vault_file MCP.session_file MCP.sessionKey]. rewrite T. auto.
    + eexists. split; [reflexivity|].
      cbn [MCP.vault_file MCP.session_file MCP.sessionKey]. auto.
Qed.


End LockFacts.

(** ** C3 *)




(* ================================================================== *)
(** * The extension's encryption service *)
(* ================================================================== *)

Module EncryptionFacts.

Import EncryptionService.

Lemma bytes_eqb_eq (a b : bytes) : bytes_eqb a b = true <-> a = b.
Proof.
  unfold bytes_eqb. revert b.
  induction a as [|x a IH]; intros [|y b]; simpl; split; intro H;
    try reflexivity; try discriminate.
  - apply andb_true_iff in H. destruct H as [L H].
    apply andb_true_iff in H. destruct H as [E H].
    apply Z.eqb_eq in E. subst y. f_equal. apply IH.
    apply andb_true_iff. split; assumption.
  - injection H as -> ->. apply andb_true_iff.
    assert (R : (length b =? length b)%nat && forallb (fun p => fst p =? snd p) (combine b b)
                = true) by (apply IH; reflexivity).
    apply andb_true_iff in R. destruct R as [R1 R2].
    split; [exact R1|]. rewrite Z.eqb_refl. exact R2.
Qed.

Lemma derived_eqb_eq (a b : derived) : derived_eqb a b = true <-> a = b.
Proof.
  destruct a as [p s i n], b as [p' s' i' n']. simpl.
  rewrite !andb_true_iff, str_eqb_eq, bytes_eqb_eq, !Z.eqb_eq. split.
  - intros [[[-> ->] ->] ->]. reflexivity.
  - intros [= -> -> -> ->]. auto.
Qed.

Lemma derived_eqb_refl (a : derived) : derived_eqb a a = true.
Proof. apply derived_eqb_eq. reflexivity. Qed.

(** What was sealed under a password opens under it, and under no other. *)
Lemma decrypt_encrypt (salt iv : bytes) (data password : str) :
  decryptData (encryptData salt iv data password) password = Ok data.
Proof. unfold decryptData, encryptData. rewrite derived_eqb_refl. reflexivity. Qed.

Lemma decrypt_other_password (salt iv : bytes) (data password other : str) :
  password <> other ->
  decryptData (encryptData salt iv data password) other = Err DecryptionFailed.
Proof.
  intro H. unfold decryptData, encryptData.
  destruct (derived_eqb _ _) eqn:E; [|reflexivity].
  apply derived_eqb_eq in E. injection E as E. contradiction.
Qed.

(** The verifier installed for a password is the salt with the PBKDF2
    bits of password and salt; it accepts that password and no other. *)
Lemma hashPassword_salted (salt : bytes) (password : str) :
  hashPassword salt password = SaltedHash salt (Pbkdf2Bits password salt 100000 256).
Proof. reflexivity. Qed.

Lemma verify_installed (salt salt' : bytes) (password : str) :
  verifyMasterPassword salt' (Some (hashPassword salt password)) password
  = (true, Some (hashPassword salt password)).
Proof.
  unfold verifyMasterPassword, hashPassword. rewrite derived_eqb_refl. reflexivity.
Qed.

Lemma verify_other_password (salt salt' : bytes) (password other : str) :
  password <> other ->
  fst (verifyMasterPassword salt' (Some (hashPassword salt password)) other) = false.
Proof.
  intro H. unfold verifyMasterPassword, hashPassword. cbn [fst].
  destruct (derived_eqb _ _) eqn:E; [|reflexivity].
  apply derived_eqb_eq in E. injection E as E. contradiction.
Qed.

End EncryptionFacts.

(* ================================================================== *)
(** * The scenarios of the specification, run on the extension *)
(* ================================================================== *)

Module Scenarios.

Import StorageManager.

(** Add and retrieve: the key added to the unlocked vault is returned
    with its plaintext, and is the only development key listed. *)
Example add_and_retrieve :
  match fst (Api.run Sample.env3 (Api.Get Sample.openai_id) Sample.ext_one_key),
        fst (Api.run Sample.env3
               (Api.List (Some (Background.KeyFilter None None (Some (js "development")))))
               Sample.ext_one_key) with
  | Ok (Api.OneKey k), Ok (Api.Keys ks) =>
      keyValue k = js "sk-AAA" /\ map serviceName ks = [js "OpenAI"]
  | _, _ => False
  end.
Proof. vm_compute. split; reflexivity. Qed.

(** Wrong password: the unlock is refused and a get stays locked. *)
Example wrong_password :
  Background.unlockVault Sample.env3 (js "wrong") Sample.ext_locked
  = (Err InvalidMasterPassword, Sample.ext_locked)
  /\ fst (Api.run Sample.env3 (Api.Get Sample.openai_id) Sample.ext_locked)
     = Err VaultLocked.
Proof. vm_compute. split; reflexivity. Qed.

(** Search: "stripe" finds the Stripe key by its name, "ai" finds the
    OpenAI key, by its name and by its tag, and "develop" by its
    environment. *)
Example search_by_name_tag_environment :
  match fst (Api.run Sample.env3 (Api.Search (js "stripe")) Sample.ext_two_keys),
        fst (Api.run Sample.env3 (Api.Search (js "AI")) Sample.ext_two_keys),
        fst (Api.run Sample.env3 (Api.Search (js "develop")) Sample.ext_two_keys) with
  | Ok (Api.Keys a), Ok (Api.Keys b), Ok (Api.Keys c) =>
      map serviceName a = [js "Stripe Test"]
      /\ map serviceName b = [js "OpenAI"]
      /\ map serviceName c = [js "OpenAI"]
  | _, _, _ => False
  end.
Proof. vm_compute. repeat split; reflexivity. Qed.

(** Export and import: the backup of the two-key vault, imported into the
    one-key vault under the export password, adds the key that is new. *)
Example export_import :
  match fst (Background.exportVault Sample.env3 (js "backup-pw") Sample.ext_two_keys) with
  | Ok b =>
      map serviceName
          (Spec.keys_of (snd (Background.importVault Sample.env3 b (js "backup-pw")
                                Sample.ext_one_key)))
      = [js "OpenAI"; js "Stripe Test"]
      /\ fst (Background.importVault Sample.env3 b (js "other") Sample.ext_one_key)
         = Err DecryptionFailed
  | Err _ => False
  end.
Proof. vm_compute. split; reflexivity. Qed.

End Scenarios.

(* ================================================================== *)
(** * Password verification in the MCP server and the terminal client *)
(* ================================================================== *)

Module UnlockFacts.

Import NodeVault.

(** [unlockVault] of the MCP server accepts exactly the passwords whose
    SHA-256 hex digest is the stored text. *)
Lemma mcp_unlock_accepts now password w v :
  MCP.vault_file w = Some v ->
  SHA256.sha256_hex password = passwordHash v ->
  MCP.unlockVault now password w
  = (MCP.UnlockedText (length (keys v)),
     MCP.World (Some v) (Some (MCP.Session password now)) (Some v) (Some password)).
Proof.
  intros Hv Hh. unfold MCP.unlockVault, MCP.loadVault. simpl. rewrite Hv.
  rewrite Hh, str_eqb_refl. reflexivity.
Qed.

Lemma mcp_unlock_rejects now password w v :
  MCP.vault_file w = Some v ->
  SHA256.sha256_hex password <> passwordHash v ->
  MCP.unlockVault now password w = (MCP.InvalidPasswordText, MCP.loadVault w).
Proof.
  intros Hv Hh. unfold MCP.unlockVault, MCP.loadVault. simpl. rewrite Hv.
  apply str_eqb_neq in Hh. rewrite Hh. reflexivity.
Qed.

Lemma loadVault_idempotent w : MCP.loadVault (MCP.loadVault w) = MCP.loadVault w.
Proof. reflexivity. Qed.

(** The extension: a failed verification changes nothing. *)
Lemma verify_false_keeps_hash salt stored password :
  fst (EncryptionService.verifyMasterPassword salt stored password) = false ->
  snd (EncryptionService.verifyMasterPassword salt stored password) = stored.
Proof.
  unfold EncryptionService.verifyMasterPassword.
  destruct stored as [[s h|r]|]; simpl; intro H; try reflexivity. discriminate.
Qed.

Lemma background_unlock_rejects e password w :
  fst (EncryptionService.verifyMasterPassword
         (StorageManager.rand_salt e) (StorageManager.passwordHash w) password) = false ->
  Background.unlockVault e password w = (Err InvalidMasterPassword, w).
Proof.
  intro H. unfold Background.unlockVault.
  pose proof (verify_false_keeps_hash _ _ _ H) as K.
  destruct (EncryptionService.verifyMasterPassword _ _ _) as [ok stored].
  simpl in H, K. subst ok stored. simpl. destruct w; reflexivity.
Qed.

(** The loop of [constantTimeEqual] runs over every position. *)
Lemma constantTimeLoop_steps a : forall b r n,
  length a = length b ->
  snd (EncryptionService.constantTimeLoop a b r n) = (n + length a)%nat.
Proof.
  induction a as [|x a IH]; intros [|y b] r n H; simpl in *; try discriminate.
  - lia.
  - rewrite IH by lia. lia.
Qed.

Lemma constantTimeEqual_steps_length a b :
  length a = length b ->
  snd (EncryptionService.constantTimeEqual_steps a b) = length a.
Proof.
  intro H. unfold EncryptionService.constantTimeEqual_steps.
  pose proof (constantTimeLoop_steps a b 0 O H) as L.
  apply Nat.eqb_eq in H. rewrite H. simpl.
  destruct (EncryptionService.constantTimeLoop a b 0 0) as [r n].
  simpl in *. exact L.
Qed.

Lemma constantTimeLoop_zero a : forall b r n,
  length a = length b ->
  (fst (EncryptionService.constantTimeLoop a b r n) = 0 <-> r = 0 /\ a = b).
Proof.
  induction a as [|x a IH]; intros [|y b] r n H; simpl in *; try discriminate.
  - tauto.
  - rewrite IH by lia. rewrite Z.lor_eq_0_iff. split.
    + intros [[Hr Hx] Hab]. apply Z.lxor_eq in Hx. subst. auto.
    + intros [Hr Hab]. injection Hab as -> ->. rewrite Z.lxor_nilpotent. auto.
Qed.

(** [constantTimeEqual] decides equality of the two arrays. *)
Lemma constantTimeEqual_eq a b :
  EncryptionService.constantTimeEqual a b = true <-> a = b.
Proof.
  unfold EncryptionService.constantTimeEqual, EncryptionService.constantTimeEqual_steps.
  destruct (length a =? length b)%nat eqn:L; simpl.
  - apply Nat.eqb_eq in L.
    pose proof (constantTimeLoop_zero a b 0 O L) as Z0.
    destruct (EncryptionService.constantTimeLoop a b 0 0) as [r n]. simpl in *.
    rewrite Z.eqb_eq, Z0. tauto.
  - apply Nat.eqb_neq in L. split; [discriminate|]. intros ->. contradiction.
Qed.

End UnlockFacts.

(** ** C1 *)

(** C1 (the code writes the master password): whenever the MCP server
    accepts a password, the session file it writes holds that password
    itself under [key], next to the time of the unlock. *)
Theorem C1_mcp_session_file_holds_master_password now password w v :
  MCP.vault_file w = Some v ->
  SHA256.sha256_hex password = NodeVault.passwordHash v ->
  MCP.session_file (snd (MCP.unlockVault now password w))
  = Some (MCP.Session password now).
Proof.
  intros Hv Hh. rewrite (UnlockFacts.mcp_unlock_accepts now password w v Hv Hh).
  reflexivity.
Qed.

Lemma C1_mcp_session_file_holds_master_password_witness :
  MCP.session_file (snd (MCP.unlockVault 1700000001000 (js "password") Sample.mcp_fresh))
  = Some (MCP.Session (js "password") 1700000001000).
Proof.
  apply (C1_mcp_session_file_holds_master_password
           1700000001000 (js "password") Sample.mcp_fresh Sample.node_vault).
  - reflexivity.
  - vm_compute. reflexivity.
Defined.

(** ** C2 *)

(** C2 (the code verifies by an unsalted hash): the terminal client stores
    the bare SHA-256 hex digest of the master password, the same text at
    every initialisation with that password, and the MCP server unlocks the
    sample vault, whose stored verifier is the well-known digest of
    "password", by recomputing that digest; the key value it then returns
    is opened by the password-keyed CBC decipher. *)
Theorem C2_node_hosts_verify_by_unsalted_sha256 :
  CLI.initVault 1700000000000 (js "password") (js "password")
  = inr Sample.node_vault_empty
  /\ (forall t t' p v v',
        CLI.initVault t p p = inr v -> CLI.initVault t' p p = inr v' ->
        NodeVault.passwordHash v = NodeVault.passwordHash v'
        /\ NodeVault.passwordHash v = SHA256.sha256_hex p)
  /\ fst (MCP.unlockVault 1700000001000 (js "password") Sample.mcp_fresh)
     = MCP.UnlockedText 1
  /\ fst (MCP.getApiKey 1700000002000 (js "stripe") (Some (js "production"))
                        Sample.mcp_unlocked)
     = MCP.KeyText (js "stripe") (js "production") (js "sk_live_51H").
Proof.
  split; [|split; [|split]].
  - vm_compute. reflexivity.
  - intros t t' p v v'. unfold CLI.initVault. rewrite str_eqb_refl. simpl.
    destruct (length p <? 8)%nat; [discriminate|].
    intros H H'. injection H as <-. injection H' as <-. split; reflexivity.
  - vm_compute. reflexivity.
  - vm_compute. reflexivity.
Qed.

(** ** C5 *)

(** C5 (the comparison of the MCP server is not constant-time): the
    password "password" is rejected against both sample vaults whose stored
    hash is off in one hex digit, after 1 pair of code units when the first
    digit is off and after all 64 when the last one is; the extension's
    [constantTimeEqual] runs its 32 iterations on the corresponding byte
    arrays wherever they differ. *)
Theorem C5_mcp_hash_comparison_stops_at_first_difference :
  fst (MCP.unlockVault 1700000001000 (js "password")
         (MCP.World (Some Sample.vault_first_digit_off) None None None))
  = MCP.InvalidPasswordText
  /\ fst (MCP.unlockVault 1700000001000 (js "password")
            (MCP.World (Some Sample.vault_last_digit_off) None None None))
     = MCP.InvalidPasswordText
  /\ MCP.unlockVault_compare_steps (js "password") Sample.vault_first_digit_off = 1%nat
  /\ MCP.unlockVault_compare_steps (js "password") Sample.vault_last_digit_off = 64%nat
  /\ EncryptionService.constantTimeEqual_steps Sample.digest_bytes Sample.digest_first_off
     = (false, 32%nat)
  /\ EncryptionService.constantTimeEqual_steps Sample.digest_bytes Sample.digest_last_off
     = (false, 32%nat).
Proof.
  repeat split; vm_compute; reflexivity.
Qed.

(** ** C9 *)

(** C9, as stated, fails: five wrong passwords in a row leave the MCP
    server in the state that one wrong password leaves it in, so nothing
    counts them, and the sixth attempt is answered like the first, by the
    same comparison and with the same text. *)
Lemma C9_counterexample_no_failure_counter :
  let attempt := fun t w => MCP.unlockVault t (js "wrong") w in
  let after1 := snd (attempt 1700000001000 Sample.mcp_fresh) in
  let after5 :=
    fold_left (fun w t => snd (attempt t w))
              [1700000001000; 1700000002000; 1700000003000; 1700000004000;
               1700000005000] Sample.mcp_fresh in
  after5 = after1
  /\ attempt 1700000006000 after5 = (MCP.InvalidPasswordText, after5)
  /\ attempt 1700000001000 Sample.mcp_fresh = (MCP.InvalidPasswordText, after1).
Proof.
  repeat split; vm_compute; reflexivity.
Qed.

(** C9 (amended): no failure counter is kept and no backoff is inserted.
    A failed unlock of the MCP server answers 'Invalid password' and leaves
    files and session key untouched (only the vault file is read again), a
    failed unlock of the extension answers 'Invalid master password' and
    leaves the whole state untouched; hence an attempt is verified and
    answered in the same way whatever the number of failures before it, and
    a correct password then unlocks at once. *)
Theorem C9_failed_unlock_keeps_no_count now password good w v :
  MCP.vault_file w = Some v ->
  SHA256.sha256_hex password <> NodeVault.passwordHash v ->
  SHA256.sha256_hex good = NodeVault.passwordHash v ->
  MCP.unlockVault now password w = (MCP.InvalidPasswordText, MCP.loadVault w)
  /\ (forall n : nat,
        Nat.iter n (fun w' => snd (MCP.unlockVault now password w')) (MCP.loadVault w)
        = MCP.loadVault w)
  /\ (forall n : nat,
        fst (MCP.unlockVault now good
               (Nat.iter n (fun w' => snd (MCP.unlockVault now password w'))
                         (MCP.loadVault w)))
        = MCP.UnlockedText (length (NodeVault.keys v)))
  /\ (forall e pw x,
        fst (EncryptionService.verifyMasterPassword
               (StorageManager.rand_salt e) (StorageManager.passwordHash x) pw) = false ->
        Background.unlockVault e pw x = (Err InvalidMasterPassword, x)).
Proof.
  intros Hv Hbad Hgood.
  assert (Hit : forall n : nat,
             Nat.iter n (fun w' => snd (MCP.unlockVault now password w')) (MCP.loadVault w)
             = MCP.loadVault w).
  { induction n as [|n IH]; [reflexivity|]. simpl. rewrite IH.
    rewrite (UnlockFacts.mcp_unlock_rejects now password (MCP.loadVault w) v); auto. }
  split; [|split; [|split]].
  - apply (UnlockFacts.mcp_unlock_rejects now password w v Hv Hbad).
  - exact Hit.
  - intro n. rewrite Hit.
    rewrite (UnlockFacts.mcp_unlock_accepts now good (MCP.loadVault w) v); auto.
  - intros e pw x H. apply UnlockFacts.background_unlock_rejects. exact H.
Qed.

Lemma C9_failed_unlock_keeps_no_count_witness :
  MCP.unlockVault 1700000001000 (js "wrong") Sample.mcp_fresh
  = (MCP.InvalidPasswordText, MCP.loadVault Sample.mcp_fresh).
Proof.
  apply (C9_failed_unlock_keeps_no_count 1700000001000 (js "wrong") (js "password")
           Sample.mcp_fresh Sample.node_vault).
  - reflexivity.
  - vm_compute. discriminate.
  - vm_compute. reflexivity.
Defined.

(* ================================================================== *)
(** * The sort of the default list *)
(* ================================================================== *)

Section SortFacts.

Import StorageManager.

Context {A : Type} (cmp : A -> A -> Z).

Lemma insert_perm (x : A) (l : list A) : Permutation (insert cmp x l) (x :: l).
Proof.
  induction l as [|y l IH]; simpl.
  - apply Permutation_refl.
  - destruct (cmp x y <=? 0).
    + apply Permutation_refl.
    + apply perm_trans with (y :: x :: l).
      * apply perm_skip. exact IH.
      * apply perm_swap.
Qed.

Lemma sort_perm (l : list A) : Permutation (sort cmp l) l.
Proof.
  induction l as [|x l IH]; simpl.
  - apply perm_nil.
  - apply perm_trans with (x :: sort cmp l).
    + apply insert_perm.
    + apply perm_skip. exact IH.
Qed.

(** The comparator orders any two elements, transitively. *)
Hypothesis cmp_total : forall a b, 0 < cmp a b -> cmp b a <= 0.
Hypothesis cmp_trans : forall a b c, cmp a b <= 0 -> cmp b c <= 0 -> cmp a c <= 0.

Lemma insert_sorted (x : A) (l : list A) :
  StronglySorted (fun a b => cmp a b <= 0) l ->
  StronglySorted (fun a b => cmp a b <= 0) (insert cmp x l).
Proof.
  induction 1 as [|y l Hs IH Hall]; simpl.
  - constructor; constructor.
  - destruct (cmp x y <=? 0) eqn:E.
    + apply Z.leb_le in E. constructor.
      * constructor; assumption.
      * constructor; [exact E|].
        apply Forall_impl with (P := fun b => cmp y b <= 0); [|exact Hall].
        intros b Hb. apply cmp_trans with y; assumption.
    + apply Z.leb_gt in E. constructor; [exact IH|].
      apply Forall_forall. intros b Hb.
      apply (Permutation_in _ (insert_perm x l)) in Hb. destruct Hb as [<-|Hb].
      * apply cmp_total. exact E.
      * rewrite Forall_forall in Hall. apply Hall. exact Hb.
Qed.

Lemma sort_sorted (l : list A) : StronglySorted (fun a b => cmp a b <= 0) (sort cmp l).
Proof.
  induction l as [|x l IH]; simpl; [constructor | apply insert_sorted; exact IH].
Qed.

(** Stability: a class of elements that the comparator does not separate
    keeps its order. *)
Variable p : A -> bool.
Hypothesis p_class : forall a b, p a = true -> p b = true -> cmp a b <= 0.

Lemma insert_filter (x : A) (l : list A) :
  filter p (insert cmp x l) = filter p (x :: l).
Proof.
  induction l as [|y l IH]; simpl; [reflexivity|].
  destruct (cmp x y <=? 0) eqn:E; [reflexivity|].
  apply Z.leb_gt in E. simpl. simpl in IH. rewrite IH.
  destruct (p x) eqn:Px, (p y) eqn:Py; try reflexivity.
  pose proof (p_class x y Px Py). lia.
Qed.

Lemma sort_filter (l : list A) : filter p (sort cmp l) = filter p l.
Proof.
  induction l as [|x l IH]; simpl; [reflexivity|].
  rewrite insert_filter. simpl. rewrite IH. reflexivity.
Qed.

End SortFacts.

Module ListFacts.

Import StorageManager.

Lemma compareKeys_le {V} (a b : key V) :
  compareKeys a b <= 0 <-> Spec.code_le a b.
Proof.
  unfold compareKeys, Spec.code_le.
  destruct (favorite a), (favorite b); simpl; split; intro H.
  - right. split; [reflexivity | lia].
  - destruct H as [[_ H]|[_ H]]; [discriminate | lia].
  - left. auto.
  - lia.
  - lia.
  - destruct H as [[H _]|[H _]]; discriminate.
  - right. split; [reflexivity | lia].
  - destruct H as [[H _]|[_ H]]; [discriminate | lia].
Qed.

Lemma compareKeys_total {V} (a b : key V) :
  0 < compareKeys a b -> compareKeys b a <= 0.
Proof.
  unfold compareKeys. destruct (favorite a), (favorite b); simpl; lia.
Qed.

Lemma compareKeys_trans {V} (a b c : key V) :
  compareKeys a b <= 0 -> compareKeys b c <= 0 -> compareKeys a c <= 0.
Proof.
  unfold compareKeys. destruct (favorite a), (favorite b), (favorite c); simpl; lia.
Qed.

Lemma same_rank_class {V} (x a b : key V) :
  Spec.same_rank x a = true -> Spec.same_rank x b = true -> compareKeys a b <= 0.
Proof.
  unfold Spec.same_rank, compareKeys. rewrite !andb_true_iff, !Z.eqb_eq.
  intros [Fa La] [Fb Lb]. apply Bool.eqb_prop in Fa, Fb.
  rewrite <- Fa, <- Fb, <- La, <- Lb.
  destruct (favorite x); simpl; lia.
Qed.

Lemma strongly_sorted_impl {A} (R S : A -> A -> Prop) (l : list A) :
  (forall a b, R a b -> S a b) -> StronglySorted R l -> StronglySorted S l.
Proof.
  intros H. induction 1 as [|x l Hs IH Hall]; constructor; [exact IH|].
  apply Forall_impl with (P := R x); auto.
Qed.

(** What the sort of [getAllKeys] does to any list of keys. *)
Lemma sort_compareKeys {V} (l : list (key V)) :
  Permutation (sort compareKeys l) l
  /\ StronglySorted Spec.code_le (sort compareKeys l)
  /\ forall x, filter (Spec.same_rank x) (sort compareKeys l)
               = filter (Spec.same_rank x) l.
Proof.
  split; [|split].
  - apply sort_perm.
  - apply strongly_sorted_impl with (R := fun a b => compareKeys a b <= 0).
    + intros a b. apply compareKeys_le.
    + apply sort_sorted; [apply compareKeys_total | apply compareKeys_trans].
  - intro x. apply sort_filter. apply same_rank_class.
Qed.

Lemma getAllKeys_unlocked e w :
  isUnlocked w = true ->
  getAllKeys e w
  = (Ok (sort compareKeys (decryptAll (Spec.keys_of w) (session w))),
     updateLastActivity e w).
Proof. intro H. unfold getAllKeys. rewrite H. reflexivity. Qed.

End ListFacts.

(** ** C8 *)

(** C8, as stated, fails: of two keys that are neither favorite nor ever
    used, the default list shows the one stored first, which is the older
    one, before the newer one; the specified order (creation descending)
    wants the newer one first. *)
Lemma C8_counterexample_older_key_listed_first :
  match fst (Api.run Sample.env3 (Api.List None) Sample.ext_two_keys) with
  | Ok (Api.Keys ks) =>
      map StorageManager.serviceName ks = [js "OpenAI"; js "Stripe Test"]
      /\ map StorageManager.favorite ks = [false; false]
      /\ map StorageManager.lastUsed ks = [None; None]
      /\ map StorageManager.createdAt ks = [1700000005000; 1700000009000]
      /\ Spec.spec_sorted ks = false
  | _ => False
  end.
Proof. vm_compute. repeat split; reflexivity. Qed.

(** C8 (amended): on an unlocked vault the extension's default list
    ([getAllKeys], which [getKeys] without filter and the popup's default
    tab pass on unchanged) holds the entries that decrypt under the session
    key, each once, with favorites first and, among entries of the same
    favorite status, the more recently used first, an entry never used
    counting as used at time 0; entries that agree on both keep the order
    in which they are stored. Neither the creation time nor the id takes
    part. The MCP server's [listApiKeys] without filters shows the keys in
    the order of the vault file. *)
Theorem C8_default_list_order :
  (forall e w,
      StorageManager.isUnlocked w = true ->
      exists out,
        fst (StorageManager.getAllKeys e w) = Ok out
        /\ fst (Background.getKeys e None w) = Ok out
        /\ Popup.applyFilter (js "all") out = out
        /\ Permutation out
             (StorageManager.decryptAll (Spec.keys_of w) (StorageManager.session w))
        /\ StronglySorted Spec.code_le out
        /\ forall x,
             filter (Spec.same_rank x) out
             = filter (Spec.same_rank x)
                 (StorageManager.decryptAll (Spec.keys_of w) (StorageManager.session w)))
  /\ (forall now w,
        fst (MCP.listApiKeys now None None w)
        = match fst (MCP.requireUnlocked now w) with
          | Some err => err
          | None =>
              MCP.KeysText
                (map MCP.listed_of (MCP.current_keys (snd (MCP.requireUnlocked now w))))
          end).
Proof.
  split.
  - intros e w H. eexists. unfold Background.getKeys.
    rewrite (ListFacts.getAllKeys_unlocked e w H). simpl fst.
    split; [reflexivity|]. split; [reflexivity|]. split; [reflexivity|].
    apply ListFacts.sort_compareKeys.
  - intros now w. unfold MCP.listApiKeys.
    destruct (MCP.requireUnlocked now w) as [[err|] w']; reflexivity.
Qed.

Lemma C8_default_list_order_witness :
  exists out,
    fst (StorageManager.getAllKeys Sample.env3 Sample.ext_two_keys) = Ok out
    /\ fst (Background.getKeys Sample.env3 None Sample.ext_two_keys) = Ok out
    /\ Popup.applyFilter (js "all") out = out
    /\ Permutation out
         (StorageManager.decryptAll (Spec.keys_of Sample.ext_two_keys)
            (StorageManager.session Sample.ext_two_keys))
    /\ StronglySorted Spec.code_le out
    /\ forall x,
         filter (Spec.same_rank x) out
         = filter (Spec.same_rank x)
             (StorageManager.decryptAll (Spec.keys_of Sample.ext_two_keys)
                (StorageManager.session Sample.ext_two_keys)).
Proof.
  apply (proj1 C8_default_list_order Sample.env3 Sample.ext_two_keys).
  vm_compute. reflexivity.
Defined.

(* ================================================================== *)
(** * What listing and searching return *)
(* ================================================================== *)

Module ViewFacts.

Import NodeVault.

Lemma filter_map_commute {A B} (f : B -> bool) (g : A -> B) (l : list A) :
  filter f (map g l) = map g (filter (fun a => f (g a)) l).
Proof.
  induction l as [|a l IH]; simpl; [reflexivity|].
  destruct (f (g a)); simpl; rewrite IH; reflexivity.
Qed.

Lemma requireUnlocked_redact now w :
  MCP.requireUnlocked now (Spec.redact w)
  = (fst (MCP.requireUnlocked now w), Spec.redact (snd (MCP.requireUnlocked now w))).
Proof.
  unfold MCP.requireUnlocked, MCP.loadSession, MCP.loadVault, Spec.redact. simpl.
  destruct (MCP.session_file w) as [s|]; simpl.
  - destruct (now - MCP.timestamp s <? 3600000); simpl;
      destruct (MCP.vault_file w); simpl; try reflexivity.
    + destruct (truthy (MCP.key s)); reflexivity.
    + destruct (MCP.sessionKey w) as [k|]; [destruct (truthy k)|]; reflexivity.
  - destruct (MCP.vault_file w); simpl; try reflexivity.
    destruct (MCP.sessionKey w) as [k|]; [destruct (truthy k)|]; reflexivity.
Qed.

Lemma current_keys_redact w :
  MCP.current_keys (Spec.redact w) = map Spec.redact_key (MCP.current_keys w).
Proof.
  unfold MCP.current_keys, Spec.redact. simpl.
  destruct (MCP.vault w); reflexivity.
Qed.

(** [listApiKeys] answers the same on a vault whose key values are blanked. *)
Lemma listApiKeys_redact now env tgs w :
  fst (MCP.listApiKeys now env tgs (Spec.redact w)) = fst (MCP.listApiKeys now env tgs w).
Proof.
  unfold MCP.listApiKeys. rewrite requireUnlocked_redact.
  destruct (MCP.requireUnlocked now w) as [[err|] w']; simpl; [reflexivity|].
  rewrite current_keys_redact. cbv zeta. f_equal.
  destruct env as [v|]; [destruct (truthy v)|];
    destruct tgs as [[|t ts]|];
    rewrite ?filter_map_commute, map_map; reflexivity.
Qed.

Lemma searchApiKeys_redact now q w :
  fst (MCP.searchApiKeys now q (Spec.redact w)) = fst (MCP.searchApiKeys now q w).
Proof.
  unfold MCP.searchApiKeys. rewrite requireUnlocked_redact.
  destruct (MCP.requireUnlocked now w) as [[err|] w']; simpl; [reflexivity|].
  rewrite current_keys_redact. f_equal.
  rewrite filter_map_commute, map_map. reflexivity.
Qed.

Import StorageManager.

(** What [decryptAll] returns: the stored keys that open under the
    password, with the plaintext in place of the envelope. *)
Lemma decryptAll_spec (ks : list (key EncryptionService.envelope)) (password : str)
    (k' : key str) :
  In k' (decryptAll ks password) <->
  exists k, In k ks
            /\ EncryptionService.decryptData (keyValue k) password = Ok (keyValue k')
            /\ k' = with_keyValue k (keyValue k').
Proof.
  induction ks as [|k ks IH]; simpl.
  - split; [contradiction | intros [k [[] _]]].
  - destruct (EncryptionService.decryptData (keyValue k) password) as [v|x] eqn:D; simpl.
    + rewrite IH. split.
      * intros [<-|[k0 [Hin H]]].
        -- exists k. simpl. auto.
        -- exists k0. auto.
      * intros [k0 [[<-|Hin] [Hd Hk]]].
        -- left. rewrite Hk. rewrite D in Hd. injection Hd as ->. reflexivity.
        -- right. exists k0. auto.
    + rewrite IH. split.
      * intros [k0 [Hin H]]. exists k0. auto.
      * intros [k0 [[<-|Hin] [Hd Hk]]].
        -- rewrite D in Hd. discriminate.
        -- exists k0. auto.
Qed.

End ViewFacts.

(** ** C4 *)

(** C4, as stated, fails in the extension: listing the unlocked sample
    vault returns its key with the plaintext secret in [keyValue], and so
    does searching for "open"; the envelope in storage had to be decrypted
    for it. *)
Lemma C4_counterexample_extension_list_returns_plaintext :
  match fst (Api.run Sample.env3 (Api.List None) Sample.ext_one_key),
        fst (Api.run Sample.env3 (Api.Search (js "open")) Sample.ext_one_key) with
  | Ok (Api.Keys ks), Ok (Api.Keys found) =>
      map StorageManager.keyValue ks = [js "sk-AAA"]
      /\ map StorageManager.keyValue found = [js "sk-AAA"]
  | _, _ => False
  end
  /\ match StorageManager.keys (StorageManager.getStorageData Sample.ext_one_key) with
     | Some [k] =>
         EncryptionService.decryptData (StorageManager.keyValue k) (js "correct horse")
         = Ok (js "sk-AAA")
     | _ => False
     end.
Proof. vm_compute. repeat split; reflexivity. Qed.

(** C4 (amended): the MCP server's [listApiKeys] and [searchApiKeys]
    return records made of metadata only, and their answers do not depend
    on any key value: they are the same on the vault with every key value
    blanked out. In the extension, [getKeys] and [searchKeys] return whole
    entries: every stored key that decrypts under the session key, with the
    decrypted secret in [keyValue]. *)
Theorem C4_mcp_views_are_metadata_extension_lists_plaintext :
  (forall now env tgs w,
      fst (MCP.listApiKeys now env tgs (Spec.redact w))
      = fst (MCP.listApiKeys now env tgs w))
  /\ (forall now q w,
        fst (MCP.searchApiKeys now q (Spec.redact w)) = fst (MCP.searchApiKeys now q w))
  /\ (forall e f q w,
        StorageManager.isUnlocked w = true ->
        exists ks,
          fst (StorageManager.getAllKeys e w) = Ok ks
          /\ fst (Background.getKeys e f w)
             = Ok (match f with
                   | Some f' => Background.applyKeyFilter f' ks
                   | None => ks
                   end)
          /\ fst (Background.searchKeys e q w)
             = Ok (filter (Background.matches (toLowerCase q)) ks)
          /\ forall k',
               In k' ks <->
               exists k,
                 In k (Spec.keys_of w)
                 /\ EncryptionService.decryptData (StorageManager.keyValue k)
                      (StorageManager.session w)
                    = Ok (StorageManager.keyValue k')
                 /\ k' = StorageManager.with_keyValue k (StorageManager.keyValue k')).
Proof.
  split; [|split].
  - apply ViewFacts.listApiKeys_redact.
  - apply ViewFacts.searchApiKeys_redact.
  - intros e f q w H. eexists.
    unfold Background.getKeys, Background.searchKeys.
    rewrite (ListFacts.getAllKeys_unlocked e w H). simpl fst.
    split; [reflexivity|]. split; [reflexivity|]. split; [reflexivity|].
    intro k'. rewrite <- ViewFacts.decryptAll_spec. split; intro Hin.
    + apply (Permutation_in _ (sort_perm StorageManager.compareKeys _)). exact Hin.
    + apply (Permutation_in _ (Permutation_sym (sort_perm StorageManager.compareKeys _))).
      exact Hin.
Qed.

Lemma C4_mcp_views_are_metadata_extension_lists_plaintext_witness :
  fst (MCP.listApiKeys 1700000002000 None None (Spec.redact Sample.mcp_unlocked))
  = fst (MCP.listApiKeys 1700000002000 None None Sample.mcp_unlocked)
  /\ exists ks,
       fst (StorageManager.getAllKeys Sample.env3 Sample.ext_one_key) = Ok ks.
Proof.
  split.
  - apply (proj1 C4_mcp_views_are_metadata_extension_lists_plaintext).
  - destruct (proj2 (proj2 C4_mcp_views_are_metadata_extension_lists_plaintext)
                Sample.env3 None (js "open") Sample.ext_one_key) as [ks [H _]].
    + vm_compute. reflexivity.
    + exists ks. exact H.
Defined.

(* ================================================================== *)
(** * The rounding of doubles *)
(* ================================================================== *)

Module DoubleFacts.


(** The rounding of a number at least 2^53 in magnitude, on its
    magnitude [a], with the unit [u] of its last place. *)
Lemma round53_large (z : Z) :
  0 < Z.log2 (Z.abs z) - 52 ->
  let u := 2 ^ (Z.log2 (Z.abs z) - 52) in
  let q := Z.abs z / u in
  let r := Z.abs z mod u in
  2 <= u /\ Z.abs z = q * u + r /\ 0 <= r < u /\ 2 ^ 52 <= q < 2 ^ 53
  /\ round53 z
     = Z.sgn z * ((if (u <? 2 * r) || ((2 * r =? u) && Z.odd q) then q + 1 else q) * u).
Proof.
  intros E u q r.
  assert (A : 0 < Z.abs z).
  { destruct (Z.eq_dec (Z.abs z) 0) as [Z0|N]; [|lia]. rewrite Z0 in E. cbn in E. lia. }
  pose proof (Z.log2_spec _ A) as [L1 L2].
  assert (U : 2 ^ Z.log2 (Z.abs z) = 2 ^ 52 * u).
  { unfold u. rewrite <- Z.pow_add_r by lia. f_equal. lia. }
  assert (U2 : 2 <= u).
  { unfold u. change 2 with (2 ^ 1) at 1. apply Z.pow_le_mono_r; lia. }
  assert (D : Z.abs z = u * q + r) by (apply Z.div_mod; lia).
  assert (R : 0 <= r < u) by (apply Z.mod_pos_bound; lia).
  replace (Z.succ (Z.log2 (Z.abs z))) with (Z.log2 (Z.abs z) + 1) in L2 by lia.
  rewrite Z.pow_add_r in L2 by lia. rewrite U in L1, L2. change (2 ^ 1) with 2 in L2.
  repeat split; try lia; try nia.
  unfold round53. destruct (Z.log2 (Z.abs z) - 52 <=? 0) eqn:F.
  - apply Z.leb_le in F. lia.
  - reflexivity.
Qed.

(** A number whose magnitude is a multiple of the unit of its last place
    is a double. *)
Lemma round53_multiple (z : Z) :
  0 < Z.log2 (Z.abs z) - 52 ->
  Z.abs z mod 2 ^ (Z.log2 (Z.abs z) - 52) = 0 ->
  round53 z = z.
Proof.
  intros E M. destruct (round53_large z E) as [U [D [R [Q ->]]]].
  rewrite M in *.
  assert (F1 : (2 ^ (Z.log2 (Z.abs z) - 52) <? 2 * 0) = false) by (apply Z.ltb_ge; lia).
  assert (F2 : (2 * 0 =? 2 ^ (Z.log2 (Z.abs z) - 52)) = false) by (apply Z.eqb_neq; lia).
  rewrite F1, F2. cbn [orb andb]. rewrite Z.add_0_r in D. rewrite <- D.
  rewrite Z.mul_comm. apply Z.abs_sgn.
Qed.

Lemma double_multiple (z : Z) :
  0 < Z.log2 (Z.abs z) - 52 ->
  round53 z = z ->
  Z.abs z mod 2 ^ (Z.log2 (Z.abs z) - 52) = 0.
Proof.
  intros E H. destruct (round53_large z E) as [U [D [R [Q W]]]].
  rewrite W in H. apply (f_equal Z.abs) in H.
  rewrite Z.abs_mul in H.
  set (u := 2 ^ (Z.log2 (Z.abs z) - 52)) in *.
  match type of H with
  | context [if ?c then ?a else ?b] => set (q' := if c then a else b) in H;
                                       assert (Q' : 0 <= q') by (unfold q'; destruct c; lia)
  end.
  assert (A : 0 < Z.abs z) by nia.
  assert (S1 : Z.abs (Z.sgn z) = 1) by lia.
  rewrite S1 in H.
  rewrite Z.abs_eq in H by nia.
  rewrite <- H. rewrite Z.mul_1_l. apply Z.mod_mul. lia.
Qed.

(** Numbers of the form m * 2^e with m of 53 bits are doubles. *)
Lemma scaled_double (s m e : Z) :
  (s = 1 \/ s = -1) -> 0 <= e -> 2 ^ 52 <= m <= 2 ^ 53 ->
  round53 (s * (m * 2 ^ e)) = s * (m * 2 ^ e).
Proof.
  intros S E M.
  assert (P : 0 < 2 ^ e) by (apply Z.pow_pos_nonneg; lia).
  assert (A : Z.abs (s * (m * 2 ^ e)) = m * 2 ^ e) by (destruct S; subst; nia).
  assert (L : Z.log2 (m * 2 ^ e) = e + Z.log2 m) by (apply Z.log2_mul_pow2; lia).
  assert (Lm : 52 <= Z.log2 m <= 53).
  { split.
    - change 52 with (Z.log2 (2 ^ 52)). apply Z.log2_le_mono. lia.
    - change 53 with (Z.log2 (2 ^ 53)). apply Z.log2_le_mono. lia. }
  destruct (Z.eq_dec (e + Z.log2 m - 52) 0) as [Z0|NZ].
  - unfold round53. rewrite A, L.
    replace (e + Z.log2 m - 52 <=? 0) with true by (symmetry; apply Z.leb_le; lia).
    reflexivity.
  - apply round53_multiple; rewrite A, L; [lia|].
    destruct (Z.eq_dec (Z.log2 m) 52) as [L52|L53].
    + replace (e + Z.log2 m - 52) with e by lia. apply Z.mod_mul. lia.
    + assert (m = 2 ^ 53).
      { assert (H53 : Z.log2 m = 53) by lia.
        pose proof (Z.log2_spec m ltac:(lia)) as [H1 _]. rewrite H53 in H1. lia. }
      subst m. replace (e + Z.log2 (2 ^ 53) - 52) with (e + 1) by lia.
      replace (2 ^ 53 * 2 ^ e) with (2 ^ 52 * 2 ^ (e + 1)).
      * apply Z.mod_mul. apply Z.pow_nonzero; lia.
      * rewrite (Z.pow_add_r 2 e 1) by lia. lia.
Qed.

Lemma round53_is_double (z : Z) : round53 (round53 z) = round53 z.
Proof.
  destruct (Z_lt_le_dec 0 (Z.log2 (Z.abs z) - 52)) as [E|E].
  - destruct (round53_large z E) as [U [D [R [Q ->]]]].
    set (e := Z.log2 (Z.abs z) - 52) in *.
    assert (A : 0 < Z.abs z) by nia.
    apply scaled_double; [lia | lia |].
    destruct (_ || _); lia.
  - unfold round53 at 2. apply Z.leb_le in E. rewrite E.
    unfold round53. rewrite E. reflexivity.
Qed.

Lemma round53_low (z : Z) : Z.log2 (Z.abs z) - 52 <= 0 -> round53 z = z.
Proof. intro E. unfold round53. apply Z.leb_le in E. rewrite E. reflexivity. Qed.

Lemma pow2_mod (a b : Z) : 0 <= b <= a -> 2 ^ a mod 2 ^ b = 0.
Proof.
  intro H. replace a with ((a - b) + b) by lia. rewrite Z.pow_add_r by lia.
  apply Z.mod_mul. apply Z.pow_nonzero; lia.
Qed.

(** Adding 1 to a double never gives less. *)
Lemma add1_not_lower (c : Z) : round53 c = c -> c <= add1 c.
Proof.
  intro H. unfold add1.
  destruct (Z_lt_le_dec 0 (Z.log2 (Z.abs (c + 1)) - 52)) as [E|E].
  2: { rewrite round53_low by exact E. lia. }
  destruct (round53_large (c + 1) E) as [U [D [R [Q ->]]]].
  set (L := Z.log2 (Z.abs (c + 1))) in *.
  set (u := 2 ^ (L - 52)) in *.
  set (q := Z.abs (c + 1) / u) in *.
  set (r := Z.abs (c + 1) mod u) in *.
  assert (A : 0 < Z.abs (c + 1)) by nia.
  pose proof (Z.log2_spec _ A) as [L1 L2]. fold L in L1, L2.
  replace (Z.succ L) with (L + 1) in L2 by lia.
  destruct (Z_lt_le_dec c 0) as [N|P].
  - (* c < 0 *)
    assert (X : Z.abs (c + 1) = - c - 1) by lia.
    assert (S : Z.sgn (c + 1) = -1) by lia.
    rewrite S.
    assert (M : (- c) mod u = 0).
    { destruct (Z.eq_dec (- c) (2 ^ (L + 1))) as [T|T].
      - rewrite T. apply pow2_mod. lia.
      - assert (LC : Z.log2 (Z.abs c) = L).
        { apply Z.log2_unique; [lia|]. replace (Z.abs c) with (- c) by lia. lia. }
        pose proof (double_multiple c) as DM. rewrite LC in DM. fold u in DM.
        replace (Z.abs c) with (- c) in DM by lia. apply DM; [lia | exact H]. }
    apply Z.mod_divide in M; [|lia]. destruct M as [k K].
    assert (K1 : k = q + 1) by nia.
    destruct (_ || _); nia.
  - (* 0 <= c *)
    assert (X : Z.abs (c + 1) = c + 1) by lia.
    assert (S : Z.sgn (c + 1) = 1) by lia.
    rewrite S.
    assert (M : r <= 1).
    { destruct (Z_lt_le_dec c (2 ^ L)) as [T|T].
      - assert (X2 : Z.abs (c + 1) = 2 ^ L) by lia.
        unfold r, u. rewrite X2. rewrite pow2_mod by lia. lia.
      - assert (LC : Z.log2 (Z.abs c) = L).
        { apply Z.log2_unique; [lia|]. replace (Z.abs c) with c by lia. lia. }
        pose proof (double_multiple c) as DM. rewrite LC in DM. fold u in DM.
        replace (Z.abs c) with c in DM by lia.
        assert (M : c mod u = 0) by (apply DM; [lia | exact H]).
        apply Z.mod_divide in M; [|lia]. destruct M as [k K].
        assert (K1 : k = q) by nia. nia. }
    destruct (_ || _); nia.
Qed.

Lemma add1_is_double (c : Z) : round53 (add1 c) = add1 c.
Proof. apply round53_is_double. Qed.



End DoubleFacts.

(* ================================================================== *)
(** * Usage counters *)
(* ================================================================== *)

Module UsageFacts.

Import EncryptionService StorageManager Spec.

Local Abbreviation has_id i := (fun k : key envelope => str_eqb (id k) i).

Lemma keys_of_updateLastActivity e w : keys_of (updateLastActivity e w) = keys_of w.
Proof. reflexivity. Qed.

Lemma keys_of_addAuditLog e a w : keys_of (addAuditLog e a w) = keys_of w.
Proof. unfold addAuditLog. destruct (negb _); reflexivity. Qed.

Lemma keys_of_set_keys w ks :
  keys_of (setStorageData (set_keys (getStorageData w) ks) w) = ks.
Proof. reflexivity. Qed.

Lemma keys_of_some w ks : keys (getStorageData w) = Some ks -> keys_of w = ks.
Proof. unfold keys_of. intros ->. reflexivity. Qed.

(** A map over the first match that keeps ids and does not lower
    counters does not lower the counter of any entry. *)
Lemma find_update_first (q : key envelope -> bool) (f : key envelope -> key envelope)
    (i : str) (l : list (key envelope)) (k : key envelope) :
  (forall x, id (f x) = id x) ->
  (forall x, is_double (or_zero (usageCount x)) = true ->
             is_double (or_zero (usageCount (f x))) = true
             /\ or_zero (usageCount x) <= or_zero (usageCount (f x))) ->
  find (has_id i) l = Some k ->
  is_double (or_zero (usageCount k)) = true ->
  exists k', find (has_id i) (update_first q f l) = Some k'
             /\ is_double (or_zero (usageCount k')) = true
             /\ or_zero (usageCount k) <= or_zero (usageCount k').
Proof.
  intros Hid Hmono. induction l as [|x l IH]; simpl; [discriminate|].
  destruct (q x) eqn:Q; simpl.
  - rewrite Hid. destruct (str_eqb (id x) i).
    + intros [= <-] D. exists (f x). split; [reflexivity | apply Hmono; exact D].
    + intros H D. exists k. split; [exact H | split; [exact D | lia]].
  - destruct (str_eqb (id x) i).
    + intros [= <-] D. exists x. split; [reflexivity | split; [exact D | lia]].
    + exact IH.
Qed.

(** On the entry itself the map is applied. *)
Lemma find_update_first_same (f : key envelope -> key envelope) (i : str)
    (l : list (key envelope)) (k : key envelope) :
  (forall x, id (f x) = id x) ->
  find (has_id i) l = Some k ->
  find (has_id i) (update_first (has_id i) f l) = Some (f k).
Proof.
  intros Hid. induction l as [|x l IH]; simpl; [discriminate|].
  destruct (str_eqb (id x) i) eqn:E; simpl.
  - intros [= <-]. rewrite Hid, E. reflexivity.
  - rewrite E. exact IH.
Qed.

Lemma find_filter_other (i j : str) (l : list (key envelope)) :
  str_eqb j i = false ->
  find (has_id i) (filter (fun k => negb (str_eqb (id k) j)) l) = find (has_id i) l.
Proof.
  intro Hji. induction l as [|x l IH]; simpl; [reflexivity|].
  destruct (str_eqb (id x) j) eqn:Ej; simpl.
  - destruct (str_eqb (id x) i) eqn:Ei; [|exact IH].
    apply str_eqb_eq in Ej, Ei. subst. rewrite str_eqb_refl in Hji. discriminate.
  - destruct (str_eqb (id x) i); [reflexivity | exact IH].
Qed.

Lemma find_app_left {A} (p : A -> bool) (l l' : list A) (k : A) :
  find p l = Some k -> find p (l ++ l') = Some k.
Proof.
  induction l as [|x l IH]; simpl; [discriminate|].
  destruct (p x); [trivial | exact IH].
Qed.

Lemma find_existsb {A} (p : A -> bool) (l : list A) (k : A) :
  find p l = Some k -> existsb p l = true.
Proof.
  induction l as [|x l IH]; simpl; [discriminate|].
  destruct (p x); [reflexivity | exact IH].
Qed.

Lemma id_bump {V} e d (k : key V) : id (bump e d k) = id k.
Proof. reflexivity. Qed.

Lemma id_merge e p k u : u_id u = None -> id (merge e p k u) = id k.
Proof. intro H. unfold merge. simpl. rewrite H. reflexivity. Qed.

Lemma usage_merge e p k u :
  u_usageCount u = None -> usageCount (merge e p k u) = usageCount k.
Proof. intro H. unfold merge. simpl. rewrite H. reflexivity. Qed.

Lemma not_lower_refl i l : not_lower i l l.
Proof. intros k H D. exists k. split; [exact H | split; [exact D | lia]]. Qed.


(** Each method of the storage manager, on the key list. *)
Lemma getAllKeys_keys e w : keys_of (snd (getAllKeys e w)) = keys_of w.
Proof. unfold getAllKeys. destruct (negb (isUnlocked w)); reflexivity. Qed.

Lemma getKey_keys e i w : keys_of (snd (getKey e i w)) = keys_of w.
Proof.
  unfold getKey. destruct (negb (isUnlocked w)); [reflexivity|].
  destruct (keys (getStorageData w)) as [ks|]; [|reflexivity].
  destruct (find _ ks) as [k|]; [|reflexivity].
  destruct (decryptData _ _); reflexivity.
Qed.

Lemma addKey_keys e kd w i :
  not_lower i (keys_of w) (keys_of (snd (addKey e kd w))).
Proof.
  unfold addKey. destruct (negb (isUnlocked w)); [apply not_lower_refl|].
  simpl snd. rewrite keys_of_updateLastActivity.
  intros k H D. exists k. split; [|split; [exact D | lia]].
  apply (find_app_left _ (keys_of w)). exact H.
Qed.

Lemma updateKey_keys e j u w i :
  u_usageCount u = None -> u_id u = None ->
  not_lower i (keys_of w) (keys_of (snd (updateKey e j u w))).
Proof.
  intros Hu Hi. unfold updateKey. destruct (negb (isUnlocked w)); [apply not_lower_refl|].
  destruct (keys (getStorageData w)) as [ks|] eqn:K; [|apply not_lower_refl].
  destruct (negb (existsb _ ks)); [apply not_lower_refl|].
  simpl snd. rewrite keys_of_updateLastActivity, keys_of_set_keys, (keys_of_some w ks K).
  intros k H D. apply find_update_first; trivial.
  - intro x. apply id_merge. exact Hi.
  - intros x Dx. rewrite usage_merge by exact Hu. split; [exact Dx | lia].
Qed.

Lemma deleteKey_keys e j w i :
  str_eqb j i = false ->
  not_lower i (keys_of w) (keys_of (snd (deleteKey e j w))).
Proof.
  intro Hji. unfold deleteKey. destruct (negb (isUnlocked w)); [apply not_lower_refl|].
  destruct (keys (getStorageData w)) as [ks|] eqn:K; [|apply not_lower_refl].
  simpl snd. rewrite keys_of_updateLastActivity, keys_of_set_keys, (keys_of_some w ks K).
  intros k H D. exists k. split; [|split; [exact D | lia]].
  rewrite find_filter_other; assumption.
Qed.

Lemma recordKeyUsage_keys e j d w i :
  not_lower i (keys_of w) (keys_of (snd (recordKeyUsage e j d w))).
Proof.
  unfold recordKeyUsage. destruct (negb (isUnlocked w)); [apply not_lower_refl|].
  destruct (keys (getStorageData w)) as [ks|] eqn:K; [|apply not_lower_refl].
  destruct (existsb _ ks); [|apply not_lower_refl].
  simpl snd. rewrite keys_of_updateLastActivity, keys_of_set_keys, (keys_of_some w ks K).
  intros k H D. apply find_update_first; trivial.
  intros x Dx. cbn [bump usageCount or_zero].
  apply Z.eqb_eq in Dx. split.
  - apply Z.eqb_eq. apply DoubleFacts.add1_is_double.
  - apply DoubleFacts.add1_not_lower. exact Dx.
Qed.

Lemma exportData_keys e w : keys_of (snd (exportData e w)) = keys_of w.
Proof. unfold exportData. destruct (negb (isUnlocked w)); reflexivity. Qed.

Lemma importData_keys d w i :
  not_lower i (keys_of w) (keys_of (snd (importData d w))).
Proof.
  unfold importData. destruct (negb (isUnlocked w)); [apply not_lower_refl|].
  destruct (keys (getStorageData w)) as [ks|] eqn:K; [|apply not_lower_refl].
  destruct (ex_keys d) as [iks|]; [|apply not_lower_refl].
  simpl snd. rewrite (keys_of_some w ks K).
  intros k H D. exists k. split; [|split; [exact D | lia]].
  unfold keys_of. simpl. apply find_app_left. exact H.
Qed.

Lemma not_lower_eq i l l' l'' : l' = l'' -> not_lower i l l'' -> not_lower i l l'.
Proof. intros ->. trivial. Qed.

Lemma not_lower_trans i l1 l2 l3 :
  not_lower i l1 l2 -> not_lower i l2 l3 -> not_lower i l1 l3.
Proof.
  intros H12 H23 k F D. destruct (H12 k F D) as [k2 [F2 [D2 L2]]].
  destruct (H23 k2 F2 D2) as [k3 [F3 [D3 L3]]].
  exists k3. split; [exact F3 | split; [exact D3 | lia]].
Qed.

Lemma snd_lift {A} (f : A -> Api.answer) (r : result A * world) :
  snd (Api.lift f r) = snd r.
Proof. destruct r as [[a|x] w]; reflexivity. Qed.

(** One call of the extension's interface. *)
Lemma run_keeps_counter e o w i :
  keeps_counter i (e, o) = true ->
  not_lower i (keys_of w) (keys_of (snd (Api.run e o w))).
Proof.
  unfold keeps_counter. simpl. intro Hk. destruct o; cbn [Api.run]; rewrite snd_lift.
  - unfold Background.getKeyById.
    pose proof (getKey_keys e i0 w) as E. destruct (getKey e i0 w) as [[k|x] w'].
    + simpl in *. rewrite E. apply not_lower_refl.
    + simpl in *. rewrite E. apply not_lower_refl.
  - unfold Background.getKeys.
    pose proof (getAllKeys_keys e w) as E. destruct (getAllKeys e w) as [[k|x] w'];
      simpl in *; rewrite E; apply not_lower_refl.
  - unfold Background.searchKeys.
    pose proof (getAllKeys_keys e w) as E. destruct (getAllKeys e w) as [[k|x] w'];
      simpl in *; rewrite E; apply not_lower_refl.
  - unfold Background.addKey.
    pose proof (addKey_keys e kd w i) as E. destruct (addKey e kd w) as [[k|x] w'];
      simpl in *; rewrite ?keys_of_addAuditLog; exact E.
  - unfold Background.updateKey.
    destruct (u_usageCount u) eqn:Hu; [discriminate|].
    destruct (u_id u) eqn:Hi; [discriminate|].
    pose proof (updateKey_keys e i0 u w i Hu Hi) as E.
    destruct (updateKey e i0 u w) as [[k|x] w'];
      simpl in *; rewrite ?keys_of_addAuditLog; exact E.
  - unfold Background.deleteKey.
    pose proof (getKey_keys e i0 w) as E1. destruct (getKey e i0 w) as [[k|x] w1].
    + simpl in E1. rewrite <- E1.
      assert (Hji : str_eqb i0 i = false) by (destruct (str_eqb i0 i); [discriminate|reflexivity]).
      pose proof (deleteKey_keys e i0 w1 i Hji) as E.
      destruct (deleteKey e i0 w1) as [[k'|x] w'];
        simpl in *; rewrite ?keys_of_addAuditLog; exact E.
    + simpl in *. rewrite E1. apply not_lower_refl.
  - unfold Background.recordKeyUsage. apply recordKeyUsage_keys.
  - unfold Background.exportVault.
    pose proof (exportData_keys e w) as E. destruct (exportData e w) as [[k|x] w'];
      simpl in *; rewrite ?keys_of_addAuditLog; rewrite E; apply not_lower_refl.
  - unfold Background.importVault.
    destruct (negb (Background.opens b password)); [apply not_lower_refl|].
    destruct b as [salt iv k content | salt iv k text other | raw];
      [| destruct (JSON.parse text); [destruct (negb (isUnlocked w))|];
         apply not_lower_refl
       | apply not_lower_refl].
    pose proof (importData_keys content w i) as E.
    destruct (importData content w) as [[k'|x] w'];
      simpl in *; rewrite ?keys_of_addAuditLog; exact E.
Qed.

Lemma run_all_keeps_counter i calls : forall w,
  forallb (keeps_counter i) calls = true ->
  not_lower i (keys_of w) (keys_of (Api.run_all calls w)).
Proof.
  induction calls as [|[e o] calls IH]; intros w H; simpl in *.
  - apply not_lower_refl.
  - apply andb_true_iff in H. destruct H as [H1 H2].
    apply not_lower_trans with (keys_of (snd (Api.run e o w))).
    + apply run_keeps_counter. exact H1.
    + apply IH. exact H2.
Qed.







Lemma bump_domains {V} e d (k : key V) x :
  In x (domains (bump e d k)) <-> In x (domains k) \/ (x = d /\ d <> []).
Proof.
  unfold bump. simpl. destruct d as [|c d]; simpl.
  - split; [auto | intros [H|[_ H]]; [exact H | contradiction]].
  - destruct (arr_includes (domains k) (c :: d)) eqn:I; simpl.
    + split; [auto|]. intros [H|[-> _]]; [exact H|].
      unfold arr_includes in I. apply existsb_exists in I.
      destruct I as [y [Hy E]]. apply str_eqb_eq in E. subst. exact Hy.
    + rewrite in_app_iff. simpl. split.
      * intros [H|[<-|[]]]; [auto|]. right. split; [reflexivity | discriminate].
      * intros [H|[-> _]]; auto.
Qed.

End UsageFacts.

Module McpUsageFacts.

Import NodeVault.



End McpUsageFacts.

(** ** C6 *)




(* ================================================================== *)
(** * The CSV round trip *)
(* ================================================================== *)

Module CsvFacts.

Import StorageManager ImportExport Spec.

Local Arguments ascii_eqb : simpl never.
Local Arguments is_space : simpl never.

(** *** Characters *)

Lemma has_char_false (c : ascii) (s : str) :
  has_char c s = false <-> Forall (fun x => x <> c) s.
Proof.
  unfold has_char. induction s as [|x s IH]; simpl.
  - split; [constructor | reflexivity].
  - rewrite orb_false_iff, IH, ascii_eqb_neq. split.
    + intros [H1 H2]. constructor; [congruence | exact H2].
    + intro H. inversion H; subst. split; [congruence | assumption].
Qed.

Lemma has_char_app (c : ascii) (a b : str) :
  has_char c (a ++ b) = has_char c a || has_char c b.
Proof. unfold has_char. apply existsb_app. Qed.

(** *** Splitting what was joined *)

Lemma join_cons (sep : str) (p q : str) (ps : list str) :
  join sep (p :: q :: ps) = p ++ sep ++ join sep (q :: ps).
Proof. reflexivity. Qed.

Lemma split_on_no_sep (sep : ascii -> bool) (s : str) :
  forallb (fun c => negb (sep c)) s = true -> split_on sep s = [s].
Proof.
  induction s as [|c s IH]; simpl; [reflexivity|].
  intro H. apply andb_true_iff in H. destruct H as [Hc Hs].
  apply negb_true_iff in Hc. rewrite Hc, (IH Hs). reflexivity.
Qed.

Lemma split_on_app (sep : ascii -> bool) (s : str) (c : ascii) (rest : str) :
  forallb (fun x => negb (sep x)) s = true -> sep c = true ->
  split_on sep (s ++ c :: rest) = s :: split_on sep rest.
Proof.
  intros Hs Hc. induction s as [|x s IH]; simpl.
  - rewrite Hc. reflexivity.
  - simpl in Hs. apply andb_true_iff in Hs. destruct Hs as [Hx Hs].
    apply negb_true_iff in Hx. rewrite Hx, (IH Hs). reflexivity.
Qed.

Lemma split_join_lines (sep : ascii) (rows : list str) :
  rows <> [] ->
  Forall (fun r => has_char sep r = false) rows ->
  split_on (ascii_eqb sep) (join [sep] rows) = rows.
Proof.
  intros Hne H. induction H as [|r rows Hr Hrows IH]; [contradiction|].
  assert (Hr' : forallb (fun x => negb (ascii_eqb sep x)) r = true).
  { unfold has_char in Hr. clear -Hr. induction r as [|x r IHr]; simpl in *; [reflexivity|].
    apply orb_false_iff in Hr. destruct Hr as [H1 H2]. rewrite H1. simpl. auto. }
  destruct rows as [|r' rows'].
  - simpl. apply split_on_no_sep. exact Hr'.
  - rewrite join_cons.
    change ([sep] ++ join [sep] (r' :: rows')) with (sep :: join [sep] (r' :: rows')).
    rewrite split_on_app; [|exact Hr'|apply ascii_eqb_refl].
    rewrite IH; [reflexivity | discriminate].
Qed.

(** *** Trimming *)

Lemma trimStart_nil (s : str) : trimStart s = [] -> forallb is_space s = true.
Proof.
  induction s as [|c s IH]; simpl; [reflexivity|].
  destruct (is_space c); [exact IH | discriminate].
Qed.

Lemma trim_head_not_space (c : ascii) (s : str) :
  is_space c = false -> trim (c :: s) <> [].
Proof.
  intros Hc H. unfold trim in H.
  assert (S : trimStart (c :: s) = c :: s) by (simpl; rewrite Hc; reflexivity).
  rewrite S in H. unfold trimEnd in H.
  assert (R : trimStart (rev (c :: s)) = []).
  { destruct (trimStart (rev (c :: s))) as [|y l]; [reflexivity|].
    apply (f_equal (@length ascii)) in H. rewrite length_rev in H. discriminate H. }
  apply trimStart_nil in R. rewrite forallb_forall in R.
  specialize (R c). rewrite Hc in R. discriminate R.
  apply in_rev. rewrite rev_involutive. left. reflexivity.
Qed.

Lemma trimStart_fixed (s : str) :
  trimStart s = s -> match s with [] => True | c :: _ => is_space c = false end.
Proof.
  destruct s as [|c s]; simpl; [trivial|].
  destruct (is_space c) eqn:E; [|trivial].
  intro H. exfalso.
  assert (L : (length (trimStart s) <= length s)%nat).
  { clear. induction s as [|x s IH]; simpl; [lia|]. destruct (is_space x); simpl; lia. }
  rewrite H in L. simpl in L. lia.
Qed.

Lemma trimStart_length (s : str) : (length (trimStart s) <= length s)%nat.
Proof. induction s as [|x s IH]; simpl; [lia|]. destruct (is_space x); simpl; lia. Qed.

(** A trimmed string neither starts nor ends with white space. *)
Lemma trim_fixed_ends (s : str) :
  trim s = s -> trimStart s = s /\ trimStart (rev s) = rev s.
Proof.
  unfold trim, trimEnd. intro H.
  assert (L1 := trimStart_length s).
  assert (L2 := trimStart_length (rev (trimStart s))).
  assert (E : length (rev (trimStart (rev (trimStart s)))) = length s) by (rewrite H; reflexivity).
  rewrite length_rev in E. rewrite length_rev in L2.
  assert (S1 : trimStart s = s).
  { destruct s as [|c s]; [reflexivity|]. simpl in *.
    destruct (is_space c); [|reflexivity]. exfalso.
    pose proof (trimStart_length s). lia. }
  split; [exact S1|]. rewrite S1 in H.
  apply (f_equal (@rev ascii)) in H. rewrite rev_involutive in H. exact H.
Qed.

Lemma trimStart_app_head (a b : str) :
  a <> [] -> trimStart a = a -> trimStart (a ++ b) = a ++ b.
Proof.
  destruct a as [|c a]; [contradiction|]. intros _ H.
  apply trimStart_fixed in H. simpl. rewrite H. reflexivity.
Qed.

Lemma trim_of_ends (s : str) :
  trimStart s = s -> trimStart (rev s) = rev s -> trim s = s.
Proof.
  intros H1 H2. unfold trim, trimEnd. rewrite H1, H2. apply rev_involutive.
Qed.

(** Text that starts and ends with trimmed, non-empty pieces is trimmed. *)
Lemma trim_app (a m b : str) :
  a <> [] -> b <> [] -> trim a = a -> trim b = b -> trim (a ++ m ++ b) = a ++ m ++ b.
Proof.
  intros Ha Hb Ta Tb.
  destruct (trim_fixed_ends a Ta) as [A1 _].
  destruct (trim_fixed_ends b Tb) as [_ B2].
  apply trim_of_ends.
  - apply trimStart_app_head; assumption.
  - rewrite !rev_app_distr, <- app_assoc. apply trimStart_app_head; [|exact B2].
    intro E. apply Hb. apply (f_equal (@rev ascii)) in E.
    rewrite rev_involutive in E. exact E.
Qed.

Lemma trim_space_head (c : ascii) (s : str) :
  is_space c = true -> trim (c :: s) = trim s.
Proof. intro H. unfold trim. simpl. rewrite H. reflexivity. Qed.

(** *** Escaping and parsing one field *)

Lemma double_quotes_clean (f : str) : has_char dquote f = false -> double_quotes f = f.
Proof.
  unfold has_char, double_quotes. induction f as [|c f IH]; simpl; [reflexivity|].
  intro H. apply orb_false_iff in H. destruct H as [Hc Hf].
  assert (E : ascii_eqb c dquote = false).
  { apply ascii_eqb_neq. apply ascii_eqb_neq in Hc. congruence. }
  rewrite E. simpl. rewrite (IH Hf). reflexivity.
Qed.

Lemma escapeCSV_clean (f : str) :
  has_char dquote f = false -> escapeCSV f = dquote :: f ++ [dquote].
Proof.
  intro H. unfold escapeCSV. destruct f as [|c f]; [reflexivity|].
  cbn [truthy negb]. rewrite (double_quotes_clean _ H).
  destruct (_ || _); reflexivity.
Qed.

Lemma double_quotes_no_newline (f : str) :
  has_char newline f = false -> has_char newline (double_quotes f) = false.
Proof.
  unfold has_char, double_quotes. induction f as [|c f IH]; [reflexivity|].
  cbn [existsb flat_map]. intro H. apply orb_false_iff in H. destruct H as [Hc Hf].
  rewrite existsb_app, (IH Hf), orb_false_r.
  destruct (ascii_eqb c dquote) eqn:E; cbn [existsb].
  - apply ascii_eqb_eq in E. subst c. rewrite Hc. reflexivity.
  - rewrite Hc. reflexivity.
Qed.

Lemma escapeCSV_no_newline (f : str) :
  has_char newline f = false -> has_char newline (escapeCSV f) = false.
Proof.
  intro H. unfold escapeCSV. destruct (negb (truthy f)); [reflexivity|].
  destruct (_ || _); rewrite !has_char_app.
  - rewrite (double_quotes_no_newline f H). reflexivity.
  - rewrite H. reflexivity.
Qed.

Lemma parseLoop_quoted (f : str) : forall tail values cur,
  has_char dquote f = false ->
  parseLoop (f ++ tail) values cur true = parseLoop tail values (cur ++ f) true.
Proof.
  unfold has_char. induction f as [|c f IH]; intros tail values cur H; simpl.
  - rewrite app_nil_r. reflexivity.
  - simpl in H. apply orb_false_iff in H. destruct H as [Hc Hf].
    assert (E : ascii_eqb c dquote = false).
    { apply ascii_eqb_neq. apply ascii_eqb_neq in Hc. congruence. }
    rewrite E, andb_false_r. rewrite (IH _ _ _ Hf), <- app_assoc. reflexivity.
Qed.

Lemma parseLoop_values (line : str) : forall values cur q,
  parseLoop line values cur q = rev values ++ parseLoop line [] cur q.
Proof.
  induction line as [|c line IH]; intros values cur q; simpl.
  - reflexivity.
  - destruct (ascii_eqb c dquote); [apply IH|].
    destruct (ascii_eqb c comma && negb q).
    + rewrite IH. rewrite (IH [trim cur]). simpl. rewrite <- app_assoc. reflexivity.
    + apply IH.
Qed.

(** A field written by [escapeCSV] and the comma after it are read back as
    the field, trimmed. *)
Lemma parseLoop_field (f rest : str) (values : list str) :
  has_char dquote f = false ->
  parseLoop (escapeCSV f ++ comma :: rest) values [] false
  = parseLoop rest (trim f :: values) [] false.
Proof.
  intro H. rewrite (escapeCSV_clean f H).
  change ((dquote :: f ++ [dquote]) ++ comma :: rest)
    with (dquote :: ((f ++ [dquote]) ++ comma :: rest)).
  rewrite <- app_assoc.
  change (parseLoop (dquote :: f ++ [dquote] ++ comma :: rest) values [] false)
    with (parseLoop (f ++ [dquote] ++ comma :: rest) values [] true).
  rewrite (parseLoop_quoted f _ _ _ H). reflexivity.
Qed.

Lemma strip_quotes_clean (f : str) : has_char dquote f = false -> strip_quotes f = f.
Proof.
  intro H. unfold strip_quotes.
  assert (Hin : forall c, In c f -> ascii_eqb c dquote = false).
  { intros c Hc. apply ascii_eqb_neq. apply has_char_false in H.
    rewrite Forall_forall in H. apply H. exact Hc. }
  assert (V1 : match f with
               | c :: v' => if ascii_eqb c dquote then v' else f
               | [] => []
               end = f).
  { destruct f as [|c f']; [reflexivity|]. rewrite Hin; [reflexivity | left; reflexivity]. }
  rewrite V1. destruct (rev f) as [|c r] eqn:R.
  - apply (f_equal (@rev ascii)) in R. rewrite rev_involutive in R. exact (eq_sym R).
  - rewrite Hin; [reflexivity|]. apply in_rev. rewrite R. left. reflexivity.
Qed.

(** The first five values of a row written by [exportRow]. *)
Lemma parseCSVLine_row (f0 f1 f2 f3 f4 rest : str) :
  has_char dquote f0 = false -> has_char dquote f1 = false ->
  has_char dquote f2 = false -> has_char dquote f3 = false ->
  has_char dquote f4 = false ->
  trim f0 = f0 -> trim f1 = f1 -> trim f2 = f2 -> trim f3 = f3 -> trim f4 = f4 ->
  exists more,
    parseCSVLine
      (escapeCSV f0 ++ comma :: escapeCSV f1 ++ comma :: escapeCSV f2 ++ comma ::
       escapeCSV f3 ++ comma :: escapeCSV f4 ++ comma :: rest)
    = f0 :: f1 :: f2 :: f3 :: f4 :: more.
Proof.
  intros Q0 Q1 Q2 Q3 Q4 T0 T1 T2 T3 T4. unfold parseCSVLine.
  rewrite !parseLoop_field by assumption.
  rewrite parseLoop_values. simpl rev. simpl app. simpl map.
  rewrite T0, T1, T2, T3, T4, !strip_quotes_clean by assumption.
  eexists. reflexivity.
Qed.

(** *** Tags *)

Lemma tag_has_no_sep (t : str) :
  clean_tag t -> forallb (fun x => negb (tag_sep x)) t = true.
Proof.
  intros [_ [Hc Hs]]. apply has_char_false in Hc, Hs.
  rewrite Forall_forall in Hc, Hs. apply forallb_forall. intros x Hx.
  unfold tag_sep. apply negb_true_iff, orb_false_iff.
  split; apply ascii_eqb_neq; auto.
Qed.

Lemma split_tags (ts : list str) : forall t,
  Forall clean_tag (t :: ts) ->
  split_on tag_sep (join (js ", ") (t :: ts)) = t :: map (cons (chr 32)) ts.
Proof.
  induction ts as [|t' ts IH]; intros t H.
  - apply split_on_no_sep. apply tag_has_no_sep. inversion H; assumption.
  - rewrite join_cons.
    change (js ", " ++ join (js ", ") (t' :: ts))
      with (comma :: chr 32 :: join (js ", ") (t' :: ts)).
    inversion H as [|? ? Ht Hrest]; subst.
    rewrite split_on_app; [|apply tag_has_no_sep; exact Ht|reflexivity].
    cbn [split_on]. change (tag_sep (chr 32)) with false. cbv iota.
    rewrite (IH t' Hrest). reflexivity.
Qed.

Lemma extractTags_join (ts : list str) :
  Forall clean_tag ts -> Forall (fun t => t <> []) ts ->
  extractTags (Some (join (js ", ") ts)) = ts.
Proof.
  intros Hc Hn. destruct ts as [|t ts]; [reflexivity|].
  unfold extractTags.
  assert (T : truthy (join (js ", ") (t :: ts)) = true).
  { inversion Hn; subst. destruct t as [|c t]; [contradiction|].
    destruct ts; reflexivity. }
  rewrite T. cbn [negb]. rewrite (split_tags ts t Hc).
  assert (M : forall l, Forall clean_tag l -> Forall (fun t => t <> []) l ->
                        filter truthy (map trim (map (cons (chr 32)) l)) = l).
  { induction l as [|x l IHl]; intros Hcl Hnl; [reflexivity|].
    inversion Hcl as [|? ? [[_ [_ Hx]] _] Hcl']; subst.
    inversion Hnl as [|? ? Hx0 Hnl']; subst.
    cbn [map filter]. rewrite trim_space_head by reflexivity. rewrite Hx.
    destruct x as [|c x]; [contradiction|]. cbn [truthy].
    rewrite (IHl Hcl' Hnl'). reflexivity. }
  inversion Hc as [|? ? [[_ [_ Ht]] _] Hc']; subst.
  inversion Hn as [|? ? Ht0 Hn']; subst.
  cbn [map filter]. rewrite Ht. destruct t as [|c t]; [contradiction|]. cbn [truthy].
  rewrite (M ts Hc' Hn'). reflexivity.
Qed.

(** The joined tags are a clean field. *)
Lemma join_no_char (c : ascii) (sep : str) (l : list str) :
  has_char c sep = false -> Forall (fun t => has_char c t = false) l ->
  has_char c (join sep l) = false.
Proof.
  intros Hs H. induction H as [|t l Ht Hl IH]; [reflexivity|].
  destruct l as [|t' l']; [exact Ht|].
  rewrite join_cons, !has_char_app, Ht, Hs, IH. reflexivity.
Qed.

Lemma join_ends (sep : str) (l : list str) (t : str) :
  exists pre, join sep (t :: l) = pre ++ last (t :: l) [].
Proof.
  revert t. induction l as [|t' l IH]; intro t.
  - exists []. reflexivity.
  - destruct (IH t') as [pre E]. exists (t ++ sep ++ pre).
    rewrite join_cons, E, <- !app_assoc. reflexivity.
Qed.

Lemma join_starts (sep : str) (l : list str) (t : str) :
  exists post, join sep (t :: l) = t ++ post.
Proof.
  destruct l as [|t' l].
  - exists []. simpl. rewrite app_nil_r. reflexivity.
  - eexists. rewrite join_cons. reflexivity.
Qed.

Lemma trim_join (ts : list str) :
  Forall clean_tag ts -> Forall (fun t => t <> []) ts ->
  trim (join (js ", ") ts) = join (js ", ") ts.
Proof.
  intros Hc Hn. destruct ts as [|t ts]; [reflexivity|].
  apply trim_of_ends.
  - destruct (join_starts (js ", ") ts t) as [post E]. rewrite E.
    inversion Hc as [|? ? [[_ [_ Ht]] _] _]; subst. inversion Hn; subst.
    apply trimStart_app_head; [assumption|]. apply (trim_fixed_ends t Ht).
  - destruct (join_ends (js ", ") ts t) as [pre E]. rewrite E, rev_app_distr.
    assert (L : In (last (t :: ts) []) (t :: ts)).
    { clear. revert t. induction ts as [|x l IH]; intro t; [left; reflexivity|].
      right. apply (IH x). }
    rewrite Forall_forall in Hc, Hn.
    destruct (Hc _ L) as [[_ [_ Tl]] _]. specialize (Hn _ L).
    apply trimStart_app_head; [|apply (trim_fixed_ends _ Tl)].
    intro R. apply Hn. apply (f_equal (@rev ascii)) in R.
    rewrite rev_involutive in R. exact R.
Qed.

(** *** The date *)

Lemma digit_not_newline (r : Z) :
  0 <= r < 10 -> ascii_eqb newline (chr (48 + r)) = false.
Proof.
  intro H.
  assert (C : r = 0 \/ r = 1 \/ r = 2 \/ r = 3 \/ r = 4 \/ r = 5 \/ r = 6 \/ r = 7
              \/ r = 8 \/ r = 9) by lia.
  repeat (destruct C as [->|C]; [reflexivity|]). subst. reflexivity.
Qed.

Lemma digits_no_newline (k : nat) : forall n, has_char newline (JSDate.digits k n) = false.
Proof.
  induction k as [|k IH]; intro n; [reflexivity|].
  cbn [JSDate.digits]. rewrite has_char_app, IH. unfold has_char. cbn [existsb].
  rewrite digit_not_newline; [reflexivity|]. apply Z.mod_pos_bound. lia.
Qed.

Lemma has_char_cons (c x : ascii) (s : str) :
  has_char c (x :: s) = ascii_eqb c x || has_char c s.
Proof. reflexivity. Qed.

Lemma year_text_no_newline (y : Z) : has_char newline (JSDate.year_text y) = false.
Proof.
  unfold JSDate.year_text.
  destruct ((0 <=? y) && (y <=? 9999)); [apply digits_no_newline|].
  destruct (y <? 0); rewrite has_char_app, digits_no_newline; reflexivity.
Qed.

Lemma toISOString_no_newline (t : Z) (iso : str) :
  JSDate.toISOString t = Some iso -> has_char newline iso = false.
Proof.
  unfold JSDate.toISOString. destruct (8640000000000000 <? Z.abs t); [discriminate|].
  destruct (JSDate.civil (t / 86400000)) as [[y m] d]. intro H.
  apply (f_equal (fun o => match o with
                           | Some s => has_char newline s
                           | None => false
                           end)) in H.
  cbv beta iota in H. rewrite <- H.
  repeat (rewrite digits_no_newline || rewrite year_text_no_newline
          || rewrite has_char_app).
  reflexivity.
Qed.

Lemma toISOString_some (t : Z) :
  Z.abs t <= 8640000000000000 -> exists iso, JSDate.toISOString t = Some iso.
Proof.
  intro H. unfold JSDate.toISOString.
  destruct (8640000000000000 <? Z.abs t) eqn:E; [apply Z.ltb_lt in E; lia|].
  destruct (JSDate.civil (t / 86400000)) as [[y m] d]. eexists. reflexivity.
Qed.

(** *** Rows *)

Lemma header_no_newline : has_char newline (join [comma] csv_headers) = false.
Proof. vm_compute. reflexivity. Qed.

Lemma header_mapping :
  detectCSVMapping
    (map (fun h => toLowerCase (remove_quotes (trim h)))
         (split_on (ascii_eqb comma) (join [comma] csv_headers)))
  = csv_mapping.
Proof. vm_compute. reflexivity. Qed.

Lemma exportRow_shape (k : key str) :
  exportRow k = option_map (row_of k) (JSDate.toISOString (createdAt k)).
Proof.
  unfold exportRow. destruct (JSDate.toISOString (createdAt k)); reflexivity.
Qed.

Lemma row_no_newline (k : key str) (iso : str) :
  round_trippable k -> has_char newline iso = false ->
  has_char newline (row_of k iso) = false.
Proof.
  intros [[[_ [N0 _]] [[_ [N1 _]] [_ [[_ [N2 _]] [[_ [N4 _]] Ht]]]]] [_ [Hd _]]] Hi.
  assert (N3 : has_char newline (join (js ", ") (tags k)) = false).
  { apply join_no_char; [reflexivity|].
    apply Forall_impl with (P := clean_tag); [|exact Ht]. intros t [[_ [H _]] _]. exact H. }
  assert (N5 : has_char newline (join (js ", ") (domains k)) = false).
  { apply join_no_char; [reflexivity | exact Hd]. }
  unfold row_of.
  repeat (rewrite has_char_app || rewrite has_char_cons || rewrite escapeCSV_no_newline);
    assumption.
Qed.

Lemma importLine_row (k : key str) (iso : str) :
  round_trippable k -> importLine csv_mapping (row_of k iso) = Some (fields_of k).
Proof.
  intros [[[Q0 [_ T0]] [[Q1 [_ T1]] [Hne [[Q2 [_ T2]] [[Q4 [_ T4]] Ht]]]]] [Hn _]].
  assert (Q3 : has_char dquote (join (js ", ") (tags k)) = false).
  { apply join_no_char; [reflexivity|].
    apply Forall_impl with (P := clean_tag); [|exact Ht]. intros t [[H _] _]. exact H. }
  assert (T3 := trim_join (tags k) Ht Hn).
  unfold importLine.
  assert (B : truthy (trim (row_of k iso)) = true).
  { unfold row_of. rewrite (escapeCSV_clean _ Q0).
    change ((dquote :: serviceName k ++ [dquote]) ++ ?r)
      with (dquote :: ((serviceName k ++ [dquote]) ++ r)).
    pose proof (trim_head_not_space dquote
                  ((serviceName k ++ [dquote]) ++ comma ::
                   escapeCSV (keyValue k) ++ comma ::
                   escapeCSV (environment k) ++ comma ::
                   escapeCSV (join (js ", ") (tags k)) ++ comma ::
                   escapeCSV (notes k) ++ comma ::
                   (escapeCSV (join (js ", ") (domains k)) ++ comma :: iso))
                  eq_refl) as N.
    match goal with
    | |- truthy ?x = true =>
        assert (N' : x <> []) by exact N; destruct x; [contradiction | reflexivity]
    end. }
  rewrite B. cbn [negb].
  destruct (parseCSVLine_row (serviceName k) (keyValue k) (environment k)
              (join (js ", ") (tags k)) (notes k)
              (escapeCSV (join (js ", ") (domains k)) ++ comma :: iso)
              Q0 Q1 Q2 Q3 Q4 T0 T1 T2 T3 T4) as [more E].
  fold (row_of k iso) in E. rewrite E.
  cbn [csv_mapping m_keyValue m_serviceName m_environment m_tags m_notes nth_error].
  destruct (keyValue k) as [|c kv] eqn:KV; [contradiction|].
  cbn [truthy negb]. rewrite (extractTags_join (tags k) Ht Hn).
  unfold fields_of. rewrite KV. reflexivity.
Qed.

Lemma importLines_rows (ks : list (key str)) : forall rows,
  Forall round_trippable ks ->
  exportRows ks = Some rows ->
  Forall (fun r => has_char newline r = false) rows
  /\ importLines csv_mapping rows = map fields_of ks.
Proof.
  induction ks as [|k ks IH]; intros rows H E; cbn [exportRows] in E.
  - injection E as <-. split; [constructor | reflexivity].
  - inversion H as [|? ? Hk Hks]; subst.
    rewrite exportRow_shape in E.
    destruct (JSDate.toISOString (createdAt k)) as [iso|] eqn:I; [|discriminate].
    cbn [option_map] in E.
    destruct (exportRows ks) as [rs|]; [|discriminate].
    destruct (IH rs Hks eq_refl) as [N L].
    assert (R : rows = row_of k iso :: rs) by congruence. subst rows.
    split.
    + constructor; [|exact N]. apply row_no_newline; [exact Hk|].
      apply (toISOString_no_newline _ _ I).
    + cbn [importLines]. rewrite (importLine_row k iso Hk), L. reflexivity.
Qed.

Lemma exportRows_some (ks : list (key str)) :
  Forall round_trippable ks -> exists rows, exportRows ks = Some rows.
Proof.
  induction 1 as [|k ks Hk Hks [rs IH]]; [exists []; reflexivity|].
  destruct Hk as [_ [_ [_ Hc]]].
  destruct (toISOString_some _ Hc) as [iso I].
  exists (row_of k iso :: rs). cbn [exportRows].
  rewrite exportRow_shape, I, IH. reflexivity.
Qed.

End CsvFacts.

(** ** C10 *)

(** C10, as stated, fails: the sample key whose only tag is the empty
    string meets every condition of the claim, and comes back from
    [importCSV] after [exportToCSV] without that tag. *)
Lemma C10_counterexample_empty_tag_is_dropped :
  Spec.claimed_round_trippable Sample.key_empty_tag
  /\ StorageManager.tags Sample.key_empty_tag = [[]]
  /\ exists csv,
       ImportExport.exportToCSV [Sample.key_empty_tag] = Some csv
       /\ map ImportExport.i_tags (ImportExport.importCSV csv) = [[]]
       /\ ImportExport.importCSV csv <> map ImportExport.fields_of [Sample.key_empty_tag].
Proof.
  split; [|split; [reflexivity|]].
  - unfold Spec.claimed_round_trippable, Spec.clean.
    repeat split; try reflexivity; try discriminate.
    constructor; [|constructor]. repeat split; reflexivity.
  - eexists. split; [vm_compute; reflexivity|]. split; [vm_compute; reflexivity|].
    vm_compute. discriminate.
Qed.

(** A second way in which the statement fails: a domain with a newline
    breaks the row, and the rest of it is read as a key of its own. *)
Example csv_newline_in_domain_adds_a_key :
  Spec.claimed_round_trippable Sample.key_newline_domain
  /\ exists csv,
       ImportExport.exportToCSV [Sample.key_newline_domain] = Some csv
       /\ length (ImportExport.importCSV csv) = 2%nat.
Proof.
  split.
  - unfold Spec.claimed_round_trippable, Spec.clean.
    repeat split; try reflexivity; try discriminate. constructor.
  - eexists. split; vm_compute; reflexivity.
Qed.

(** C10 (amended): for every list of entries whose serviceName, keyValue,
    environment, tags and notes contain no double quote and no newline and
    have no white space at either end, whose tags contain no comma and no
    semicolon and are not empty, whose keyValue is not empty, whose domains
    contain no newline and whose createdAt is a time value that can be
    printed, [exportToCSV] returns a text from which [importCSV] reads, in
    the same order, one key per entry with the same serviceName, keyValue,
    environment, tags and notes (and no domains, not favorite). *)
Theorem C10_csv_round_trip (ks : list (StorageManager.key str)) :
  Forall Spec.round_trippable ks ->
  exists csv,
    ImportExport.exportToCSV ks = Some csv
    /\ ImportExport.importCSV csv = map ImportExport.fields_of ks.
Proof.
  intro H. destruct (CsvFacts.exportRows_some ks H) as [rows E].
  destruct (CsvFacts.importLines_rows ks rows H E) as [N L].
  unfold ImportExport.exportToCSV. rewrite E. eexists. split; [reflexivity|].
  unfold ImportExport.importCSV.
  rewrite CsvFacts.split_join_lines.
  - cbv zeta. rewrite CsvFacts.header_mapping. exact L.
  - discriminate.
  - constructor; [apply CsvFacts.header_no_newline | exact N].
Qed.

Lemma C10_csv_round_trip_witness :
  exists csv,
    ImportExport.exportToCSV [Sample.key_openai] = Some csv
    /\ ImportExport.importCSV csv = map ImportExport.fields_of [Sample.key_openai].
Proof.
  apply (C10_csv_round_trip [Sample.key_openai]).
  constructor; [|constructor].
  unfold Spec.round_trippable, Spec.claimed_round_trippable, Spec.clean_tag, Spec.clean.
  repeat split; try reflexivity; try discriminate.
  - repeat constructor.
  - repeat constructor; discriminate.
  - repeat constructor.
Defined.

(* ================================================================== *)
(** * Base64 text and the layout of a sealed value *)
(* ================================================================== *)

Module Base64Facts.

Import EncryptionService Base64.

(** Linear arithmetic with division and remainder by constants. *)
Ltac div_lia := Z.to_euclidean_division_equations; lia.

(** Induction on a list, three elements at a time. *)
Lemma list_ind3 {A} (P : list A -> Prop) :
  P [] -> (forall x, P [x]) -> (forall x y, P [x; y]) ->
  (forall x y z l, P l -> P (x :: y :: z :: l)) ->
  forall l, P l.
Proof.
  intros H0 H1 H2 H3.
  assert (K : forall l, P l /\ (forall x, P (x :: l)) /\ (forall x y, P (x :: y :: l))).
  { induction l as [|a l [I0 [I1 I2]]].
    - repeat split; auto.
    - repeat split; auto. }
  intro l. apply K.
Qed.

(** Induction on a list, four elements at a time. *)
(** *** The alphabet *)

Lemma below_64 (i : Z) : sextet i -> In (Z.to_nat i) (seq 0 64).
Proof. intros [H1 H2]. apply in_seq. lia. Qed.

Lemma value_digit (i : Z) : sextet i -> value (digit i) = Some i.
Proof.
  intro H.
  assert (A : forallb (fun n => match value (digit (Z.of_nat n)) with
                                | Some j => j =? Z.of_nat n
                                | None => false
                                end) (seq 0 64) = true) by (vm_compute; reflexivity).
  rewrite forallb_forall in A. specialize (A _ (below_64 i H)).
  rewrite Z2Nat.id in A by (destruct H; assumption).
  destruct (value (digit i)) as [j|]; [|discriminate].
  apply Z.eqb_eq in A. subst j. reflexivity.
Qed.

Lemma digit_plain (i : Z) :
  sextet i -> digit i <> pad /\ is_ascii_whitespace (digit i) = false.
Proof.
  intro H.
  assert (A : forallb (fun n => negb (ascii_eqb (digit (Z.of_nat n)) pad)
                                && negb (is_ascii_whitespace (digit (Z.of_nat n))))
                      (seq 0 64) = true) by (vm_compute; reflexivity).
  rewrite forallb_forall in A. specialize (A _ (below_64 i H)).
  rewrite Z2Nat.id in A by (destruct H; assumption).
  apply andb_true_iff in A. destruct A as [A1 A2].
  apply negb_true_iff in A1, A2. split; [|exact A2].
  apply ascii_eqb_neq. exact A1.
Qed.

Lemma values_digits (v : list Z) : Forall sextet v -> values (map digit v) = Some v.
Proof.
  induction 1 as [|x v Hx Hv IH]; simpl; [reflexivity|].
  rewrite (value_digit x Hx), IH. reflexivity.
Qed.

(** *** Bytes to 6-bit values and back *)

Lemma sextets_range (b : list Z) : Forall byte b -> Forall sextet (sextets b).
Proof.
  unfold byte, sextet.
  induction b as [| x | x y | x y z l IH] using list_ind3; intro H.
  - constructor.
  - inversion_clear H. cbn [sextets]. repeat constructor; div_lia.
  - inversion_clear H as [|? ? Hx H']. inversion_clear H' as [|? ? Hy _].
    cbn [sextets]. repeat constructor; div_lia.
  - inversion_clear H as [|? ? Hx H']. inversion_clear H' as [|? ? Hy H''].
    inversion_clear H'' as [|? ? Hz Hl].
    cbn [sextets app].
    repeat (constructor; [div_lia|]). apply IH. exact Hl.
Qed.

Lemma octets_sextets (b : list Z) : Forall byte b -> octets (sextets b) = b.
Proof.
  unfold byte.
  induction b as [| x | x y | x y z l IH] using list_ind3; intro H.
  - reflexivity.
  - inversion_clear H. cbn [sextets octets]. f_equal. div_lia.
  - inversion_clear H as [|? ? Hx H']. inversion_clear H' as [|? ? Hy _].
    cbn [sextets octets]. f_equal; [div_lia|]. f_equal. div_lia.
  - inversion_clear H as [|? ? Hx H']. inversion_clear H' as [|? ? Hy H''].
    inversion_clear H'' as [|? ? Hz Hl].
    cbn [sextets octets app]. rewrite (IH Hl).
    f_equal; [div_lia|]. f_equal; [div_lia|]. f_equal. div_lia.
Qed.

(** *** Lengths *)

Lemma padding_step (n : nat) : padding (S (S (S n))) = padding n.
Proof.
  unfold padding. replace (S (S (S n))) with (n + 1 * 3)%nat by lia.
  rewrite Nat.Div0.mod_add. reflexivity.
Qed.

Lemma padding_cases (n : nat) :
  padding n = [] \/ padding n = [pad] \/ padding n = [pad; pad].
Proof.
  unfold padding. destruct (n mod 3)%nat as [|[|k]]; auto.
Qed.

Lemma mod4_step (n : nat) : (S (S (S (S n))) mod 4 = n mod 4)%nat.
Proof.
  replace (S (S (S (S n)))) with (n + 1 * 4)%nat by lia.
  apply Nat.Div0.mod_add.
Qed.

(** The text has a multiple of four characters; without its padding, it
    never has one character more than a multiple of four. *)
Lemma btoa_lengths (b : list Z) :
  ((length (sextets b) + length (padding (length b))) mod 4 = 0
   /\ length (sextets b) mod 4 <> 1)%nat.
Proof.
  induction b as [| x | x y | x y z l IH] using list_ind3.
  - split; [reflexivity | discriminate].
  - split; [reflexivity | discriminate].
  - split; [reflexivity | discriminate].
  - cbn [sextets app length]. rewrite padding_step.
    cbn [Nat.add]. rewrite !mod4_step. exact IH.
Qed.

(** *** Padding *)

Lemma strip_padding_app (X p : str) :
  Forall (fun c => c <> pad) X ->
  p = [] \/ p = [pad] \/ p = [pad; pad] ->
  strip_padding (X ++ p) = X.
Proof.
  intros HX Hp. unfold strip_padding.
  assert (R : Forall (fun c => c <> pad) (rev X)) by (apply Forall_rev; exact HX).
  destruct Hp as [-> | [-> | ->]].
  - rewrite app_nil_r.
    destruct (rev X) as [|c1 [|c2 r]] eqn:E.
    + apply (f_equal (@rev ascii)) in E. rewrite rev_involutive in E. exact (eq_sym E).
    + inversion_clear R as [|? ? H1 _]. apply ascii_eqb_neq in H1. rewrite H1. reflexivity.
    + inversion_clear R as [|? ? H1 _]. apply ascii_eqb_neq in H1. rewrite H1. reflexivity.
  - rewrite rev_app_distr. cbn [rev app].
    destruct (rev X) as [|c2 r] eqn:E.
    + rewrite ascii_eqb_refl.
      apply (f_equal (@rev ascii)) in E. rewrite rev_involutive in E. exact (eq_sym E).
    + rewrite ascii_eqb_refl.
      inversion_clear R as [|? ? H2 _]. apply ascii_eqb_neq in H2. rewrite H2.
      change (rev (c2 :: r) = X). rewrite <- E. apply rev_involutive.
  - rewrite rev_app_distr. cbn [rev app]. rewrite !ascii_eqb_refl.
    apply rev_involutive.
Qed.

Lemma digits_plain (v : list Z) :
  Forall sextet v ->
  Forall (fun c => c <> pad) (map digit v)
  /\ filter (fun c => negb (is_ascii_whitespace c)) (map digit v) = map digit v.
Proof.
  induction 1 as [|x v Hx Hv [I1 I2]]; simpl; [split; [constructor | reflexivity]|].
  destruct (digit_plain x Hx) as [P W]. rewrite W. simpl. rewrite I2.
  split; [constructor; assumption | reflexivity].
Qed.

Lemma padding_plain (n : nat) :
  filter (fun c => negb (is_ascii_whitespace c)) (padding n) = padding n.
Proof. destruct (padding_cases n) as [-> | [-> | ->]]; reflexivity. Qed.

(** *** The round trip of the platform functions *)

Lemma chr_code (c : ascii) : chr (code c) = c.
Proof. unfold chr, code. rewrite Nat2Z.id. apply ascii_nat_embedding. Qed.

Lemma code_chr (x : Z) : byte x -> code (chr x) = x.
Proof.
  intros [H1 H2]. unfold chr, code.
  rewrite nat_ascii_embedding by lia. lia.
Qed.

Lemma code_byte (c : ascii) : byte (code c).
Proof.
  unfold byte, code. pose proof (nat_ascii_bounded c). lia.
Qed.

Lemma atob_btoa (s : str) : atob (btoa s) = Some s.
Proof.
  unfold atob, btoa.
  set (b := map code s).
  assert (B : Forall byte b).
  { unfold b. apply Forall_forall. intros x Hx. apply in_map_iff in Hx.
    destruct Hx as [c [<- _]]. apply code_byte. }
  assert (L : length s = length b) by (unfold b; rewrite length_map; reflexivity).
  rewrite L.
  destruct (digits_plain _ (sextets_range b B)) as [P W].
  rewrite filter_app, W, padding_plain.
  destruct (btoa_lengths b) as [L0 L1].
  rewrite length_app, length_map, L0. cbn [Nat.eqb].
  rewrite (strip_padding_app _ _ P (padding_cases (length b))).
  rewrite length_map.
  apply Nat.eqb_neq in L1. rewrite L1.
  rewrite (values_digits _ (sextets_range b B)).
  rewrite (octets_sextets b B). unfold b. rewrite map_map.
  f_equal. rewrite <- (map_id s) at 2. apply map_ext. apply chr_code.
Qed.

End Base64Facts.

(** X1 (Base64 round trip): a byte array written as text by
    [arrayBufferToBase64] is read back unchanged by
    [base64ToArrayBuffer], whatever its length; [atob] does not throw on
    it. *)
Theorem base64_array_round_trip (buffer : EncryptionService.bytes) :
  Forall Base64.byte buffer ->
  Base64.base64ToArrayBuffer (Base64.arrayBufferToBase64 buffer) = Some buffer.
Proof.
  intro H. unfold Base64.base64ToArrayBuffer, Base64.arrayBufferToBase64.
  rewrite Base64Facts.atob_btoa. rewrite map_map. f_equal.
  rewrite <- (map_id buffer) at 2. apply map_ext_in.
  intros x Hx. apply Base64Facts.code_chr.
  rewrite Forall_forall in H. apply H. exact Hx.
Qed.

Lemma base64_array_round_trip_witness :
  Base64.base64ToArrayBuffer (Base64.arrayBufferToBase64 [77; 97; 110; 255; 0])
  = Some [77; 97; 110; 255; 0].
Proof.
  apply (base64_array_round_trip [77; 97; 110; 255; 0]).
  unfold Base64.byte. repeat constructor; lia.
Defined.

(** X2 (layout of a sealed value): the text that [encryptData] builds
    from a 16-byte salt, a 12-byte iv and the encrypted bytes is taken
    apart by [decryptData] into the same salt, iv and encrypted bytes. *)
Theorem sealed_layout_round_trip (salt iv encryptedData : EncryptionService.bytes) :
  length salt = EncryptionService.saltLength ->
  length iv = EncryptionService.ivLength ->
  Forall Base64.byte (salt ++ iv ++ encryptedData) ->
  Base64.split (Base64.combine salt iv encryptedData) = Some (salt, iv, encryptedData).
Proof.
  intros Hs Hi H. unfold Base64.split, Base64.combine.
  rewrite (base64_array_round_trip _ H).
  unfold Base64.slice, Base64.slice_from. rewrite <- Hs, <- Hi.
  f_equal. f_equal; [f_equal|].
  - cbn [skipn]. rewrite Nat.sub_0_r. rewrite firstn_app, Nat.sub_diag, firstn_all.
    cbn [firstn]. apply app_nil_r.
  - replace (length salt + length iv - length salt)%nat with (length iv) by lia.
    rewrite skipn_app, skipn_all, Nat.sub_diag. cbn [skipn app].
    rewrite firstn_app, Nat.sub_diag, firstn_all. cbn [firstn]. apply app_nil_r.
  - rewrite app_assoc. rewrite skipn_app, length_app, Nat.sub_diag.
    rewrite skipn_all2 by (rewrite length_app; lia). reflexivity.
Qed.

Lemma sealed_layout_round_trip_witness :
  Base64.split (Base64.combine (repeat 7 16) (repeat 9 12) [1; 2; 3; 250])
  = Some (repeat 7 16, repeat 9 12, [1; 2; 3; 250]).
Proof.
  apply (sealed_layout_round_trip (repeat 7 16) (repeat 9 12) [1; 2; 3; 250]).
  - reflexivity.
  - reflexivity.
  - unfold Base64.byte. simpl. repeat constructor; lia.
Defined.

(* ================================================================== *)
(** * The storage manager: adding, reading, changing, deleting *)
(* ================================================================== *)

Module StorageFacts.

Import EncryptionService StorageManager Spec Props.

Lemma session_updateLastActivity e w : session (updateLastActivity e w) = session w.
Proof. reflexivity. Qed.

Lemma find_app_right {A} (p : A -> bool) (l l' : list A) :
  existsb p l = false -> find p (l ++ l') = find p l'.
Proof.
  induction l as [|x l IH]; simpl; [reflexivity|].
  destruct (p x); [discriminate | exact IH].
Qed.

Lemma find_filter_same (i : str) (l : list (key envelope)) :
  find (fun k => str_eqb (id k) i) (filter (fun k => negb (str_eqb (id k) i)) l) = None.
Proof.
  induction l as [|x l IH]; simpl; [reflexivity|].
  destruct (str_eqb (id x) i) eqn:E; simpl; [exact IH|].
  rewrite E. exact IH.
Qed.

Lemma existsb_find_none {A} (p : A -> bool) (l : list A) :
  existsb p l = false <-> find p l = None.
Proof.
  induction l as [|x l IH]; simpl; [tauto|].
  destruct (p x); simpl; [split; discriminate | exact IH].
Qed.

(** [getKey] on an unlocked vault with a key list. *)
Lemma getKey_unlocked e i w ks :
  isUnlocked w = true -> keys (getStorageData w) = Some ks ->
  fst (getKey e i w)
  = match find (fun k => str_eqb (id k) i) ks with
    | None => Err KeyNotFound
    | Some k => match decryptData (keyValue k) (session w) with
                | Ok v => Ok (with_keyValue k v)
                | Err x => Err x
                end
    end.
Proof.
  intros U K. unfold getKey. rewrite U, K. cbn [negb].
  destruct (find _ ks) as [k|]; [|reflexivity].
  destruct (decryptData _ _); reflexivity.
Qed.

(** The decrypted list without the entry whose value does not open. *)
Lemma decryptAll_update_first_closed (p : key envelope -> bool)
    (f : key envelope -> key envelope) (password : str) (l : list (key envelope)) :
  (forall k, decryptData (keyValue (f k)) password = Err DecryptionFailed) ->
  decryptAll (update_first p f l) password = decryptAll (remove_first p l) password.
Proof.
  intro H. induction l as [|x l IH]; simpl; [reflexivity|].
  destruct (p x); simpl.
  - rewrite H. reflexivity.
  - rewrite IH. reflexivity.
Qed.

Lemma mergeSettings_idem (a b : settings) :
  mergeSettings (mergeSettings a b) b = mergeSettings a b.
Proof.
  unfold mergeSettings. simpl.
  destruct b as [b1 b2 b3 b4 b5 b6 b7 b8 b9]; simpl.
  destruct b1, b2, b3, b4, b5, b6, b7, b8, b9; reflexivity.
Qed.

Lemma arr_includes_In (l : list str) (s : str) : arr_includes l s = true <-> In s l.
Proof.
  unfold arr_includes. rewrite existsb_exists. split.
  - intros [x [Hin E]]. apply str_eqb_eq in E. subst x. exact Hin.
  - intro H. exists s. split; [exact H | apply str_eqb_refl].
Qed.

Lemma filter_nil_iff {A} (p : A -> bool) (l : list A) :
  filter p l = [] <-> forall x, In x l -> p x = false.
Proof.
  induction l as [|x l IH]; simpl.
  - split; [intros _ y [] | reflexivity].
  - destruct (p x) eqn:E.
    + split; [discriminate|]. intro H. specialize (H x (or_introl eq_refl)). congruence.
    + rewrite IH. split.
      * intros H y [<-|Hy]; [exact E | apply H; exact Hy].
      * intros H y Hy. apply H. right. exact Hy.
Qed.

End StorageFacts.

(** X3 (the comparison decides equality): [constantTimeEqual] answers
    true exactly when the two byte arrays are equal, and on arrays of
    equal length its loop visits every position, whatever they hold. *)
Theorem constantTimeEqual_decides_equality (a b : EncryptionService.bytes) :
  (EncryptionService.constantTimeEqual a b = true <-> a = b)
  /\ (length a = length b ->
      snd (EncryptionService.constantTimeEqual_steps a b) = length a).
Proof.
  split.
  - apply UnlockFacts.constantTimeEqual_eq.
  - apply UnlockFacts.constantTimeEqual_steps_length.
Qed.

(** X5 (a key added is the key read): on an unlocked vault in which the
    new id is not in use, [addKey] answers the new id and [getKey] on
    that id answers the key with the value that was passed in the clear,
    the defaults of the optional properties, a usage count of 0 and no
    last use. *)
Theorem added_key_is_retrieved (e e' : StorageManager.env)
    (kd : StorageManager.keyData) (w : StorageManager.world) :
  StorageManager.isUnlocked w = true ->
  existsb (fun k => str_eqb (StorageManager.id k) (StorageManager.generateId e))
          (Spec.keys_of w) = false ->
  exists k,
    fst (StorageManager.addKey e kd w) = Ok (StorageManager.generateId e)
    /\ fst (StorageManager.getKey e' (StorageManager.generateId e)
              (snd (StorageManager.addKey e kd w))) = Ok k
    /\ StorageManager.keyValue k = StorageManager.kd_keyValue kd
    /\ StorageManager.serviceName k = StorageManager.kd_serviceName kd
    /\ StorageManager.environment k
       = or_str (StorageManager.kd_environment kd) (js "production")
    /\ StorageManager.tags k = or_list (StorageManager.kd_tags kd)
    /\ StorageManager.usageCount k = Some 0
    /\ StorageManager.lastUsed k = None
    /\ StorageManager.createdAt k = StorageManager.now e.
Proof.
  intros U F. unfold StorageManager.addKey. rewrite U. cbn [negb fst snd].
  eexists. split; [reflexivity|].
  erewrite StorageFacts.getKey_unlocked; [| exact U | reflexivity].
  unfold Spec.keys_of in F.
  rewrite (StorageFacts.find_app_right _ _ _ F).
  cbn [find StorageManager.id]. rewrite str_eqb_refl.
  cbn [StorageManager.keyValue].
  rewrite StorageFacts.session_updateLastActivity.
  change (StorageManager.session (StorageManager.setStorageData _ w))
    with (StorageManager.session w).
  rewrite EncryptionFacts.decrypt_encrypt.
  split; [reflexivity|]. repeat split.
Qed.

Lemma added_key_is_retrieved_witness :
  exists k,
    fst (StorageManager.addKey Sample.env1 Sample.openai Sample.ext_unlocked)
    = Ok (StorageManager.generateId Sample.env1)
    /\ fst (StorageManager.getKey Sample.env2 (StorageManager.generateId Sample.env1)
              (snd (StorageManager.addKey Sample.env1 Sample.openai Sample.ext_unlocked)))
       = Ok k
    /\ StorageManager.keyValue k = StorageManager.kd_keyValue Sample.openai
    /\ StorageManager.serviceName k = StorageManager.kd_serviceName Sample.openai
    /\ StorageManager.environment k
       = or_str (StorageManager.kd_environment Sample.openai) (js "production")
    /\ StorageManager.tags k = or_list (StorageManager.kd_tags Sample.openai)
    /\ StorageManager.usageCount k = Some 0
    /\ StorageManager.lastUsed k = None
    /\ StorageManager.createdAt k = StorageManager.now Sample.env1.
Proof.
  apply (added_key_is_retrieved Sample.env1 Sample.env2 Sample.openai Sample.ext_unlocked).
  - reflexivity.
  - reflexivity.
Defined.

(** X6 (deleting): on an unlocked vault whose storage holds a key list,
    [deleteKey] of the storage manager answers success whether or not the
    id is there, removes every entry with that id and leaves the reading
    of every other id as it was; [getKey] on the id then answers 'Key not
    found'. The background handler, which reads the key first, answers
    'Key not found' for an id that is not there and changes nothing. On
    an unlocked vault whose storage holds no key list yet, [deleteKey] and
    [getKey] of the storage manager and the background handler fail on
    the missing list with a TypeError and change nothing. *)
Theorem deleted_key_is_gone (e e' : StorageManager.env) (i : str)
    (w : StorageManager.world) :
  StorageManager.isUnlocked w = true ->
  match StorageManager.keys (StorageManager.getStorageData w) with
  | Some ks =>
      fst (StorageManager.deleteKey e i w) = Ok tt
      /\ Spec.keys_of (snd (StorageManager.deleteKey e i w))
         = filter (fun k => negb (str_eqb (StorageManager.id k) i)) ks
      /\ fst (StorageManager.getKey e' i (snd (StorageManager.deleteKey e i w)))
         = Err KeyNotFound
      /\ (forall j, j <> i ->
            fst (StorageManager.getKey e' j (snd (StorageManager.deleteKey e i w)))
            = fst (StorageManager.getKey e' j w))
      /\ (find (fun k => str_eqb (StorageManager.id k) i) ks = None ->
            Background.deleteKey e i w = (Err KeyNotFound, w))
  | None =>
      StorageManager.deleteKey e i w = (Err TypeError, w)
      /\ StorageManager.getKey e' i w = (Err TypeError, w)
      /\ Background.deleteKey e i w = (Err TypeError, w)
  end.
Proof.
  intros U. destruct (StorageManager.keys (StorageManager.getStorageData w)) as [ks|] eqn:K.
  2: { unfold Background.deleteKey, StorageManager.deleteKey, StorageManager.getKey.
       rewrite U, K. repeat split; reflexivity. }
  unfold StorageManager.deleteKey. rewrite U, K. cbn [negb fst snd].
  split; [reflexivity|]. split; [reflexivity|].
  assert (G : forall j,
             fst (StorageManager.getKey e' j
                    (StorageManager.updateLastActivity e
                       (StorageManager.setStorageData
                          (StorageManager.set_keys (StorageManager.getStorageData w)
                             (filter (fun k => negb (str_eqb (StorageManager.id k) i)) ks))
                          w)))
             = match find (fun k => str_eqb (StorageManager.id k) j)
                          (filter (fun k => negb (str_eqb (StorageManager.id k) i)) ks) with
               | None => Err KeyNotFound
               | Some k =>
                   match EncryptionService.decryptData (StorageManager.keyValue k)
                           (StorageManager.session w) with
                   | Ok v => Ok (StorageManager.with_keyValue k v)
                   | Err x => Err x
                   end
               end).
  { intro j. erewrite StorageFacts.getKey_unlocked; [reflexivity | exact U | reflexivity]. }
  split; [|split].
  - rewrite G, StorageFacts.find_filter_same. reflexivity.
  - intros j Hj. rewrite G.
    rewrite (StorageFacts.getKey_unlocked e' j w ks U K).
    rewrite UsageFacts.find_filter_other; [reflexivity|].
    apply str_eqb_neq. congruence.
  - intro N. unfold Background.deleteKey, StorageManager.getKey.
    rewrite U, K. cbn [negb]. rewrite N. reflexivity.
Qed.

Lemma deleted_key_is_gone_witness :
  fst (StorageManager.deleteKey Sample.env2 Sample.openai_id Sample.ext_one_key) = Ok tt
  /\ fst (StorageManager.getKey Sample.env3 Sample.openai_id
            (snd (StorageManager.deleteKey Sample.env2 Sample.openai_id Sample.ext_one_key)))
     = Err KeyNotFound.
Proof.
  pose proof (deleted_key_is_gone Sample.env2 Sample.env3 Sample.openai_id Sample.ext_one_key
                eq_refl) as H.
  change (StorageManager.keys (StorageManager.getStorageData Sample.ext_one_key))
    with (Some (Spec.keys_of Sample.ext_one_key)) in H.
  cbv beta iota in H. destruct H as [A [_ [B _]]].
  split; [exact A | exact B].
Defined.

(** X7 (a new value is the value read): on an unlocked vault that holds
    the id, [updateKey] with a non-empty key value answers success, and
    [getKey] on the id then answers the entry with that value in the
    clear and its other properties unchanged. *)
Theorem updated_value_is_retrieved (e e' : StorageManager.env) (i v : str)
    (w : StorageManager.world) (ks : list (StorageManager.key EncryptionService.envelope))
    (k0 : StorageManager.key EncryptionService.envelope) :
  StorageManager.isUnlocked w = true ->
  StorageManager.keys (StorageManager.getStorageData w) = Some ks ->
  find (fun k => str_eqb (StorageManager.id k) i) ks = Some k0 ->
  v <> [] ->
  fst (StorageManager.updateKey e i (Props.new_value v) w) = Ok tt
  /\ fst (StorageManager.getKey e' i
            (snd (StorageManager.updateKey e i (Props.new_value v) w)))
     = Ok (StorageManager.with_keyValue k0 v).
Proof.
  intros U K F V. unfold StorageManager.updateKey. rewrite U, K. cbn [negb].
  rewrite (UsageFacts.find_existsb _ _ _ F). cbn [negb fst snd].
  split; [reflexivity|].
  erewrite StorageFacts.getKey_unlocked; [| exact U | reflexivity].
  rewrite (UsageFacts.find_update_first_same _ i ks k0); [| reflexivity | exact F].
  rewrite StorageFacts.session_updateLastActivity.
  change (StorageManager.session (StorageManager.setStorageData _ w))
    with (StorageManager.session w).
  destruct v as [|c v]; [contradiction|].
  cbn [StorageManager.merge Props.new_value StorageManager.u_keyValue truthy
       StorageManager.keyValue].
  rewrite EncryptionFacts.decrypt_encrypt.
  destruct k0; reflexivity.
Qed.

Lemma updated_value_is_retrieved_witness :
  fst (StorageManager.updateKey Sample.env2 Sample.openai_id (Props.new_value (js "sk-BBB"))
         Sample.ext_one_key) = Ok tt
  /\ exists k0 : StorageManager.key EncryptionService.envelope,
       fst (StorageManager.getKey Sample.env3 Sample.openai_id
              (snd (StorageManager.updateKey Sample.env2 Sample.openai_id
                      (Props.new_value (js "sk-BBB")) Sample.ext_one_key)))
       = Ok (StorageManager.with_keyValue k0 (js "sk-BBB")).
Proof.
  destruct (Spec.entry Sample.openai_id Sample.ext_one_key) as [k0|] eqn:E;
    [|vm_compute in E; discriminate E].
  destruct (updated_value_is_retrieved Sample.env2 Sample.env3 Sample.openai_id
              (js "sk-BBB") Sample.ext_one_key (Spec.keys_of Sample.ext_one_key) k0
              eq_refl eq_refl E) as [A B]; [discriminate|].
  split; [exact A | exists k0; exact B].
Defined.

(** X8 (an empty value hides the key): on an unlocked vault that holds
    the id, [updateKey] with the empty string as key value answers
    success; afterwards [getKey] on the id answers 'Decryption failed'
    and [getAllKeys] lists the vault as if that entry had been
    removed. *)
Theorem empty_value_update_hides_key (e e' : StorageManager.env) (i : str)
    (w : StorageManager.world) (ks : list (StorageManager.key EncryptionService.envelope))
    (k0 : StorageManager.key EncryptionService.envelope) :
  StorageManager.isUnlocked w = true ->
  StorageManager.keys (StorageManager.getStorageData w) = Some ks ->
  find (fun k => str_eqb (StorageManager.id k) i) ks = Some k0 ->
  fst (StorageManager.updateKey e i (Props.new_value []) w) = Ok tt
  /\ fst (StorageManager.getKey e' i
            (snd (StorageManager.updateKey e i (Props.new_value []) w)))
     = Err DecryptionFailed
  /\ fst (StorageManager.getAllKeys e'
            (snd (StorageManager.updateKey e i (Props.new_value []) w)))
     = Ok (StorageManager.sort StorageManager.compareKeys
             (StorageManager.decryptAll
                (Props.remove_first (fun k => str_eqb (StorageManager.id k) i) ks)
                (StorageManager.session w))).
Proof.
  intros U K F. unfold StorageManager.updateKey. rewrite U, K. cbn [negb].
  rewrite (UsageFacts.find_existsb _ _ _ F). cbn [negb fst snd].
  split; [reflexivity|]. split.
  - erewrite StorageFacts.getKey_unlocked; [| exact U | reflexivity].
    rewrite (UsageFacts.find_update_first_same _ i ks k0); [| reflexivity | exact F].
    reflexivity.
  - rewrite ListFacts.getAllKeys_unlocked by exact U. cbn [fst]. f_equal. f_equal.
    apply StorageFacts.decryptAll_update_first_closed. reflexivity.
Qed.

Lemma empty_value_update_hides_key_witness :
  fst (StorageManager.getKey Sample.env3 Sample.openai_id
         (snd (StorageManager.updateKey Sample.env2 Sample.openai_id (Props.new_value [])
                 Sample.ext_one_key)))
  = Err DecryptionFailed.
Proof.
  destruct (Spec.entry Sample.openai_id Sample.ext_one_key) as [k0|] eqn:E;
    [|vm_compute in E; discriminate E].
  exact (proj1 (proj2 (empty_value_update_hides_key Sample.env2 Sample.env3
                         Sample.openai_id Sample.ext_one_key
                         (Spec.keys_of Sample.ext_one_key) k0 eq_refl eq_refl E))).
Defined.

(* ================================================================== *)
(** * The audit log, the settings, backups and locking *)
(* ================================================================== *)

Module VaultFacts.

Import EncryptionService StorageManager Spec Props Settings.

(** *** The audit log *)

Lemma log_addAuditLog e a w :
  log_of (addAuditLog e a w) = log_of w
  \/ (length (log_of (addAuditLog e a w)) <= 1000)%nat.
Proof.
  unfold addAuditLog.
  destruct (negb _); [left; reflexivity|]. right.
  unfold log_of. cbn [getStorageData setStorageData vaultData auditLog or_list].
  destruct (1000 <? _)%nat eqn:E.
  - rewrite length_firstn. lia.
  - apply Nat.ltb_ge in E. exact E.
Qed.

Lemma log_updateLastActivity e w : log_of (updateLastActivity e w) = log_of w.
Proof. reflexivity. Qed.

Lemma log_getAllKeys e w : log_of (snd (getAllKeys e w)) = log_of w.
Proof. unfold getAllKeys. destruct (negb (isUnlocked w)); reflexivity. Qed.

Lemma log_getKey e i w : log_of (snd (getKey e i w)) = log_of w.
Proof.
  unfold getKey. destruct (negb (isUnlocked w)); [reflexivity|].
  destruct (keys (getStorageData w)) as [ks|]; [|reflexivity].
  destruct (find _ ks) as [k|]; [|reflexivity].
  destruct (decryptData _ _); reflexivity.
Qed.

Lemma log_addKey e kd w : log_of (snd (StorageManager.addKey e kd w)) = log_of w.
Proof. unfold StorageManager.addKey. destruct (negb (isUnlocked w)); reflexivity. Qed.

Lemma log_updateKey e i u w : log_of (snd (StorageManager.updateKey e i u w)) = log_of w.
Proof.
  unfold StorageManager.updateKey. destruct (negb (isUnlocked w)); [reflexivity|].
  destruct (keys (getStorageData w)) as [ks|]; [|reflexivity].
  destruct (negb (existsb _ ks)); reflexivity.
Qed.

Lemma log_deleteKey e i w : log_of (snd (StorageManager.deleteKey e i w)) = log_of w.
Proof.
  unfold StorageManager.deleteKey. destruct (negb (isUnlocked w)); [reflexivity|].
  destruct (keys (getStorageData w)) as [ks|]; reflexivity.
Qed.

Lemma log_recordKeyUsage e i d w :
  log_of (snd (StorageManager.recordKeyUsage e i d w)) = log_of w.
Proof.
  unfold StorageManager.recordKeyUsage. destruct (negb (isUnlocked w)); [reflexivity|].
  destruct (keys (getStorageData w)) as [ks|]; [|reflexivity].
  destruct (existsb _ ks); reflexivity.
Qed.

Lemma log_exportData e w : log_of (snd (exportData e w)) = log_of w.
Proof. unfold exportData. destruct (negb (isUnlocked w)); reflexivity. Qed.

Lemma log_importData d w : log_of (snd (importData d w)) = log_of w.
Proof.
  unfold importData. destruct (negb (isUnlocked w)); [reflexivity|].
  destruct (keys (getStorageData w)) as [ks|]; [|reflexivity].
  destruct (ex_keys d); reflexivity.
Qed.

(** A logged step after steps that keep the log. *)
Lemma log_then_audit e a w w' :
  log_of w' = log_of w ->
  log_of (addAuditLog e a w') = log_of w
  \/ (length (log_of (addAuditLog e a w')) <= 1000)%nat.
Proof.
  intro H. destruct (log_addAuditLog e a w') as [E|E]; [left; congruence | right; exact E].
Qed.

(** One call keeps the log or leaves at most 1000 entries. *)
Lemma log_run e o w :
  log_of (snd (Api.run e o w)) = log_of w
  \/ (length (log_of (snd (Api.run e o w))) <= 1000)%nat.
Proof.
  destruct o; cbn [Api.run]; rewrite UsageFacts.snd_lift.
  - left. apply log_getKey.
  - left. unfold Background.getKeys.
    pose proof (log_getAllKeys e w) as L.
    destruct (getAllKeys e w) as [[ks|x] w']; exact L.
  - left. unfold Background.searchKeys.
    pose proof (log_getAllKeys e w) as L.
    destruct (getAllKeys e w) as [[ks|x] w']; exact L.
  - unfold Background.addKey.
    pose proof (log_addKey e kd w) as L.
    destruct (StorageManager.addKey e kd w) as [[j|x] w']; cbn [snd] in *.
    + apply log_then_audit. exact L.
    + left. exact L.
  - unfold Background.updateKey.
    pose proof (log_updateKey e i u w) as L.
    destruct (StorageManager.updateKey e i u w) as [[j|x] w']; cbn [snd] in *.
    + apply log_then_audit. exact L.
    + left. exact L.
  - unfold Background.deleteKey.
    pose proof (log_getKey e i w) as L1.
    destruct (getKey e i w) as [[k|x] w1]; cbn [snd] in *; [|left; exact L1].
    pose proof (log_deleteKey e i w1) as L2.
    destruct (StorageManager.deleteKey e i w1) as [[j|x] w2]; cbn [snd] in *.
    + apply log_then_audit. congruence.
    + left. congruence.
  - left. apply log_recordKeyUsage.
  - unfold Background.exportVault.
    pose proof (log_exportData e w) as L.
    destruct (exportData e w) as [[d|x] w']; cbn [snd] in *.
    + apply log_then_audit. exact L.
    + left. exact L.
  - unfold Background.importVault.
    destruct (negb (Background.opens b password)); [left; reflexivity|].
    destruct b as [salt iv k content | salt iv k text other | raw];
      [| left; destruct (JSON.parse text); [destruct (negb (isUnlocked w))|]; reflexivity
       | left; reflexivity].
    pose proof (log_importData content w) as L.
    destruct (importData content w) as [[j|x] w']; cbn [snd] in *.
    + apply log_then_audit. exact L.
    + left. exact L.
Qed.

Lemma log_unlockVault e p w :
  log_of (snd (Background.unlockVault e p w)) = log_of w
  \/ (length (log_of (snd (Background.unlockVault e p w))) <= 1000)%nat.
Proof.
  unfold Background.unlockVault, StorageManager.unlockVault.
  destruct (verifyMasterPassword (rand_salt e) (passwordHash w) p) as [isValid stored] eqn:V.
  destruct isValid; cbn [negb]; [|left; reflexivity].
  cbn [passwordHash]. 
  destruct (verifyMasterPassword (rand_salt e) stored p) as [isValid' stored'].
  destruct isValid'; cbn [negb snd]; [|left; reflexivity].
  apply log_then_audit. reflexivity.
Qed.

Lemma log_lockVault e w :
  log_of (snd (Background.lockVault e w)) = log_of w
  \/ (length (log_of (snd (Background.lockVault e w))) <= 1000)%nat.
Proof. unfold Background.lockVault. cbn [snd]. apply log_then_audit. reflexivity. Qed.

(** One request keeps the log or leaves at most 1000 entries. *)
Lemma log_serve e r w :
  log_of (Worker.serve e r w) = log_of w
  \/ (length (log_of (Worker.serve e r w)) <= 1000)%nat.
Proof.
  destruct r; cbn [Worker.serve]; try (left; reflexivity).
  - apply log_unlockVault.
  - apply log_lockVault.
  - apply log_run.
  - unfold Worker.onAlarm.
    destruct (str_eqb name (js "auto-lock")); [apply log_lockVault|].
    destruct (str_eqb name (js "check-auto-lock")); [|left; reflexivity].
    destruct (isVaultUnlocked w); [|left; reflexivity].
    destruct (autoLockMinutes (getSettings w)) as [m|]; [|left; reflexivity].
    destruct (_ <? _); [apply log_lockVault | left; reflexivity].
Qed.

(** *** Importing *)

Lemma filter_known_names (ks iks : list (key envelope)) :
  filter (fun k => negb (arr_includes
                           (map serviceName
                                (ks ++ filter (fun k' => negb (arr_includes (map serviceName ks)
                                                                            (serviceName k')))
                                              iks))
                           (serviceName k))) iks = [].
Proof.
  apply StorageFacts.filter_nil_iff. intros x Hx.
  apply negb_false_iff. apply StorageFacts.arr_includes_In.
  rewrite map_app, in_app_iff.
  destruct (arr_includes (map serviceName ks) (serviceName x)) eqn:E.
  - left. apply StorageFacts.arr_includes_In. exact E.
  - right. apply in_map. apply filter_In. split; [exact Hx|]. rewrite E. reflexivity.
Qed.

End VaultFacts.

(** X9 (the audit log is bounded): whatever sequence of messages and
    alarms the background worker serves, the unlock, lock and settings
    messages included, the audit log afterwards holds at most 1000
    entries, or at most as many as it held before when that was more. *)
Theorem audit_log_is_bounded (requests : list (StorageManager.env * Worker.request)) :
  forall w : StorageManager.world,
    (length (Settings.log_of (Worker.serve_all requests w))
     <= Nat.max 1000 (length (Settings.log_of w)))%nat.
Proof.
  induction requests as [|[e r] requests IH]; intro w; cbn [Worker.serve_all].
  - lia.
  - specialize (IH (Worker.serve e r w)).
    destruct (VaultFacts.log_serve e r w) as [E|E].
    + rewrite E in IH. exact IH.
    + lia.
Qed.

(** X10 (settings are merged over the effective ones): after
    [updateSettings], [getSettings] answers the new value of every
    property that the update defines and, for every other property, what
    [getSettings] answered before, the defaults included; once the update
    has switched the audit log off, [addAuditLog] writes nothing. *)
Theorem updated_settings_are_merged (s : StorageManager.settings)
    (w : StorageManager.world) :
  StorageManager.getSettings (Settings.updateSettings s w)
  = StorageManager.mergeSettings (StorageManager.getSettings w) s
  /\ (forall e a,
        StorageManager.addAuditLog e a (Settings.updateSettings Props.audit_off w)
        = Settings.updateSettings Props.audit_off w).
Proof.
  split.
  - unfold StorageManager.getSettings, Settings.updateSettings.
    cbn [StorageManager.getStorageData StorageManager.setStorageData
         StorageManager.vaultData StorageManager.settings_].
    destruct (StorageManager.settings_ _); reflexivity.
  - intros e a. unfold StorageManager.addAuditLog.
    replace (StorageManager.enableAuditLog
               (StorageManager.getSettings (Settings.updateSettings Props.audit_off w)))
      with (Some false); [reflexivity|].
    unfold StorageManager.getSettings, Settings.updateSettings.
    cbn [StorageManager.getStorageData StorageManager.setStorageData
         StorageManager.vaultData StorageManager.settings_].
    reflexivity.
Qed.

(** X11 (importing twice is importing once): [importData] with the data
    it has just imported changes nothing, since every service name of the
    import is in the vault by then. *)
Theorem import_is_idempotent (imp : StorageManager.exported) (w : StorageManager.world) :
  snd (StorageManager.importData imp (snd (StorageManager.importData imp w)))
  = snd (StorageManager.importData imp w).
Proof.
  unfold StorageManager.importData at 2 3.
  destruct (negb (StorageManager.isUnlocked w)) eqn:U.
  { cbn [snd]. unfold StorageManager.importData. rewrite U. reflexivity. }
  destruct (StorageManager.keys (StorageManager.getStorageData w)) as [ks|] eqn:K.
  2: { cbn [snd]. unfold StorageManager.importData. rewrite U, K. reflexivity. }
  destruct (StorageManager.ex_keys imp) as [iks|] eqn:I.
  2: { cbn [snd]. unfold StorageManager.importData. rewrite U, K, I. reflexivity. }
  cbn [snd]. unfold StorageManager.importData.
  cbn [StorageManager.isUnlocked StorageManager.setStorageData
       StorageManager.getStorageData StorageManager.vaultData StorageManager.keys
       StorageManager.settings_ StorageManager.initialized StorageManager.auditLog
       StorageManager.lastActivity StorageManager.passwordHash StorageManager.sessionKey
       StorageManager.or_settings snd].
  rewrite U, I. cbn [snd].
  rewrite VaultFacts.filter_known_names, app_nil_r, StorageFacts.mergeSettings_idem.
  reflexivity.
Qed.

(** X12 (a backup is read back): on an unlocked vault with a key list,
    the text that [exportVault] seals under a password is opened by
    [importVault] under that password, and importing it into the vault it
    came from adds no key; under a password from which the key derivation
    gives other bits for the salt of the backup (any other password, the
    derivation taken as free of collisions) [importVault] answers
    'Decryption failed' and changes nothing. *)
Theorem backup_round_trip (e1 e2 : StorageManager.env) (p : str)
    (w : StorageManager.world) (ks : list (StorageManager.key EncryptionService.envelope)) :
  StorageManager.isUnlocked w = true ->
  StorageManager.keys (StorageManager.getStorageData w) = Some ks ->
  exists b w1,
    Background.exportVault e1 p w = (Ok b, w1)
    /\ fst (Background.importVault e2 b p w1) = Ok tt
    /\ Spec.keys_of (snd (Background.importVault e2 b p w1)) = ks
    /\ (forall p',
          EncryptionService.derived_eqb
            (EncryptionService.deriveKey p (StorageManager.rand_salt e1))
            (EncryptionService.deriveKey p' (StorageManager.rand_salt e1)) = false ->
          Background.importVault e2 b p' w1 = (Err DecryptionFailed, w1)).
Proof.
  intros U K. unfold Background.exportVault, StorageManager.exportData.
  rewrite U. cbn [negb]. eexists. eexists. split; [reflexivity|].
  assert (U1 : StorageManager.isUnlocked
                 (StorageManager.addAuditLog e1 (js "Vault exported") w) = true).
  { rewrite LockFacts.addAuditLog_isUnlocked. exact U. }
  assert (K1 : Spec.keys_of (StorageManager.addAuditLog e1 (js "Vault exported") w) = ks).
  { rewrite UsageFacts.keys_of_addAuditLog. apply UsageFacts.keys_of_some. exact K. }
  assert (K2 : StorageManager.keys
                 (StorageManager.getStorageData
                    (StorageManager.addAuditLog e1 (js "Vault exported") w)) = Some ks).
  { unfold StorageManager.addAuditLog. destruct (negb _); [exact K|].
    cbn [StorageManager.getStorageData StorageManager.setStorageData
         StorageManager.vaultData StorageManager.keys]. exact K. }
  split; [|split].
  - unfold Background.importVault, Background.opens.
    rewrite EncryptionFacts.derived_eqb_refl. cbn [negb].
    unfold StorageManager.importData. rewrite U1, K2, K. cbn [negb StorageManager.ex_keys].
    reflexivity.
  - unfold Background.importVault, Background.opens.
    rewrite EncryptionFacts.derived_eqb_refl. cbn [negb].
    unfold StorageManager.importData. rewrite U1, K2, K. cbn [negb StorageManager.ex_keys snd].
    rewrite UsageFacts.keys_of_addAuditLog.
    unfold Spec.keys_of.
    cbn [StorageManager.getStorageData StorageManager.setStorageData
         StorageManager.vaultData StorageManager.keys or_list].
    replace (filter _ ks) with (@nil (StorageManager.key EncryptionService.envelope));
      [apply app_nil_r|].
    symmetry. apply StorageFacts.filter_nil_iff. intros x Hx.
    apply negb_false_iff. apply StorageFacts.arr_includes_In. apply in_map. exact Hx.
  - intros p' Hp. unfold Background.importVault, Background.opens.
    rewrite Hp. reflexivity.
Qed.

Lemma backup_round_trip_witness :
  exists b w1,
    Background.exportVault Sample.env2 (js "backup pw") Sample.ext_one_key = (Ok b, w1)
    /\ fst (Background.importVault Sample.env3 b (js "backup pw") w1) = Ok tt
    /\ Spec.keys_of (snd (Background.importVault Sample.env3 b (js "backup pw") w1))
       = Spec.keys_of Sample.ext_one_key
    /\ (forall p',
          EncryptionService.derived_eqb
            (EncryptionService.deriveKey (js "backup pw") (StorageManager.rand_salt Sample.env2))
            (EncryptionService.deriveKey p' (StorageManager.rand_salt Sample.env2)) = false ->
          Background.importVault Sample.env3 b p' w1 = (Err DecryptionFailed, w1)).
Proof.
  apply (backup_round_trip Sample.env2 Sample.env3 (js "backup pw") Sample.ext_one_key
           (Spec.keys_of Sample.ext_one_key)).
  - reflexivity.
  - reflexivity.
Defined.

(** X13 (the first unlock sets the master password): with no verifier
    stored, the background handler accepts whatever password it is sent
    and stores its salted verifier; once the vault is locked again,
    [unlockVault] succeeds with that password and with no other (the
    derived bits taken as free of collisions). *)
Theorem first_unlock_sets_master_password (e0 e1 e2 : StorageManager.env) (p p' : str)
    (w : StorageManager.world) :
  StorageManager.passwordHash w = None ->
  fst (Background.unlockVault e0 p w) = Ok tt
  /\ StorageManager.isUnlocked (snd (Background.unlockVault e0 p w)) = true
  /\ StorageManager.isUnlocked
       (snd (Background.lockVault e1 (snd (Background.unlockVault e0 p w)))) = false
  /\ (fst (Background.unlockVault e2 p'
             (snd (Background.lockVault e1 (snd (Background.unlockVault e0 p w)))))
      = Ok tt <-> p' = p).
Proof.
  intro H.
  assert (A : Background.unlockVault e0 p w
              = (Ok tt,
                 StorageManager.addAuditLog e0 (js "Vault unlocked")
                   (StorageManager.updateLastActivity e0
                      (StorageManager.World (StorageManager.vaultData w)
                         (Some (EncryptionService.hashPassword (StorageManager.rand_salt e0) p))
                         (Some p) true)))).
  { unfold Background.unlockVault, EncryptionService.verifyMasterPassword.
    rewrite H. cbn [negb].
    unfold StorageManager.unlockVault, EncryptionService.verifyMasterPassword.
    cbn [StorageManager.passwordHash]. unfold EncryptionService.hashPassword.
    rewrite EncryptionFacts.derived_eqb_refl. reflexivity. }
  rewrite A. cbn [fst snd].
  split; [reflexivity|]. split.
  { rewrite LockFacts.addAuditLog_isUnlocked. reflexivity. }
  split.
  { unfold Background.lockVault. cbn [snd].
    rewrite LockFacts.addAuditLog_isUnlocked. reflexivity. }
  set (w2 := snd (Background.lockVault e1 _)).
  assert (P : StorageManager.passwordHash w2
              = Some (EncryptionService.hashPassword (StorageManager.rand_salt e0) p)).
  { unfold w2, Background.lockVault. cbn [snd].
    unfold StorageManager.addAuditLog at 1.
    destruct (negb _); [|cbn [StorageManager.setStorageData StorageManager.passwordHash]];
      unfold StorageManager.lockVault; cbn [StorageManager.passwordHash];
      unfold StorageManager.addAuditLog;
      destruct (negb _); reflexivity. }
  unfold Background.unlockVault. rewrite P.
  split.
  - intro R. destruct (str_eqb p p') eqn:E; [apply str_eqb_eq in E; congruence|].
    apply str_eqb_neq in E.
    pose proof (EncryptionFacts.verify_other_password (StorageManager.rand_salt e0)
                  (StorageManager.rand_salt e2) p p' E) as V.
    destruct (EncryptionService.verifyMasterPassword _ _ p') as [ok st].
    cbn [fst] in V. subst ok. cbn [negb fst] in R. discriminate R.
  - intros ->. rewrite EncryptionFacts.verify_installed. cbn [negb].
    unfold StorageManager.unlockVault. cbn [StorageManager.passwordHash].
    rewrite EncryptionFacts.verify_installed. reflexivity.
Qed.

Lemma first_unlock_sets_master_password_witness :
  fst (Background.unlockVault Sample.env0 (js "correct horse") Sample.ext_first_start)
  = Ok tt.
Proof.
  exact (proj1 (first_unlock_sets_master_password Sample.env0 Sample.env1 Sample.env2
                  (js "correct horse") (js "other") Sample.ext_first_start eq_refl)).
Defined.

(** X14 (the periodic check locks after inactivity): after an unlock at
    time t0, the alarm 'check-auto-lock' at time t1 leaves the vault
    unlocked exactly when t1 - t0 is at most [autoLockMinutes] minutes;
    the alarm 'auto-lock' locks it at any time. *)
Theorem periodic_check_locks_after_inactivity (e0 e1 : StorageManager.env) (p : str)
    (w : StorageManager.world) (minutes : Z) :
  StorageManager.autoLockMinutes (StorageManager.getSettings w) = Some minutes ->
  StorageManager.now e0 <> 0 ->
  fst (Background.unlockVault e0 p w) = Ok tt ->
  StorageManager.isUnlocked
    (Worker.onAlarm e1 (js "check-auto-lock") (snd (Background.unlockVault e0 p w)))
  = (StorageManager.now e1 - StorageManager.now e0 <=? minutes * 60 * 1000)
  /\ StorageManager.isUnlocked
       (Worker.onAlarm e1 (js "auto-lock") (snd (Background.unlockVault e0 p w))) = false.
Proof.
  intros HS H0 HU.
  unfold Background.unlockVault in *.
  destruct (EncryptionService.verifyMasterPassword _ _ _) as [ok st] eqn:V.
  destruct ok; cbn [negb] in *; [|discriminate HU].
  unfold StorageManager.unlockVault in *. cbn [StorageManager.passwordHash] in *.
  destruct (EncryptionService.verifyMasterPassword (StorageManager.rand_salt e0) st p)
    as [ok2 st2] eqn:V2.
  destruct ok2; cbn [negb] in *; [|discriminate HU].
  cbn [snd].
  set (w1 := StorageManager.addAuditLog e0 (js "Vault unlocked") _).
  assert (U1 : StorageManager.isUnlocked w1 = true).
  { unfold w1. rewrite LockFacts.addAuditLog_isUnlocked. reflexivity. }
  assert (S1 : StorageManager.getSettings w1 = StorageManager.getSettings w).
  { unfold w1, StorageManager.addAuditLog. destruct (negb _); reflexivity. }
  assert (L1 : StorageManager.getLastActivity e1 w1 = StorageManager.now e0).
  { unfold w1, StorageManager.addAuditLog, StorageManager.getLastActivity.
    destruct (negb _);
      cbn [StorageManager.getStorageData StorageManager.setStorageData
           StorageManager.updateLastActivity StorageManager.vaultData
           StorageManager.lastActivity];
      apply Z.eqb_neq in H0; rewrite H0; reflexivity. }
  split.
  - unfold Worker.onAlarm. cbn [str_eqb js list_ascii_of_string ascii_eqb Ascii.eqb
                                Bool.eqb andb].
    unfold StorageManager.isVaultUnlocked. rewrite U1, S1, HS, L1.
    destruct (minutes * 60 * 1000 <? StorageManager.now e1 - StorageManager.now e0) eqn:C.
    + unfold Background.lockVault. cbn [snd].
      rewrite LockFacts.addAuditLog_isUnlocked. cbn [StorageManager.lockVault
                                                      StorageManager.isUnlocked].
      symmetry. apply Z.leb_gt. apply Z.ltb_lt in C. exact C.
    + rewrite U1. symmetry. apply Z.leb_le. apply Z.ltb_ge in C. exact C.
  - unfold Worker.onAlarm. cbn [str_eqb js list_ascii_of_string ascii_eqb Ascii.eqb
                                Bool.eqb andb].
    unfold Background.lockVault. cbn [snd].
    rewrite LockFacts.addAuditLog_isUnlocked. reflexivity.
Qed.

Lemma periodic_check_locks_after_inactivity_witness :
  StorageManager.isUnlocked
    (Worker.onAlarm Sample.env2 (js "check-auto-lock")
       (snd (Background.unlockVault Sample.env0 (js "correct horse") Sample.ext_first_start)))
  = (StorageManager.now Sample.env2 - StorageManager.now Sample.env0 <=? 15 * 60 * 1000).
Proof.
  exact (proj1 (periodic_check_locks_after_inactivity Sample.env0 Sample.env2
                  (js "correct horse") Sample.ext_first_start 15
                  eq_refl ltac:(discriminate) eq_refl)).
Defined.

(** X4 (generated keys): [generateSecureKey] answers a text of the
    length asked for, made of characters of its 64-character set only;
    and every character of the set is the image of exactly 4 of the 256
    byte values, so that uniform bytes give uniform characters. *)
Theorem generated_key_is_unbiased_charset_text (array : EncryptionService.bytes)
    (key : str) :
  Worker.generateSecureKey array = Some key ->
  length key = length array
  /\ Forall (fun c => In c Worker.charset) key
  /\ (forall c, In c Worker.charset ->
        length (filter (fun b => ascii_eqb (Worker.pick b) c) Props.all_bytes) = 4%nat).
Proof.
  unfold Worker.generateSecureKey. destruct (65536 <? _); [discriminate|].
  intros [= <-]. split; [apply length_map|]. split.
  - apply Forall_forall. intros c Hc. apply in_map_iff in Hc.
    destruct Hc as [b [<- _]]. unfold Worker.pick. apply nth_In.
    change (length Worker.charset) with 64%nat.
    assert (0 <= b mod Z.of_nat 64 < 64) by (apply Z.mod_pos_bound; lia). lia.
  - assert (A : forallb (fun c => (length (filter (fun b => ascii_eqb (Worker.pick b) c)
                                                  Props.all_bytes) =? 4)%nat)
                        Worker.charset = true) by (vm_compute; reflexivity).
    rewrite forallb_forall in A. intros c Hc. apply Nat.eqb_eq. apply A. exact Hc.
Qed.

Lemma generated_key_is_unbiased_charset_text_witness :
  Worker.generateSecureKey [0; 63; 64; 255] = Some (js "A_A_")
  /\ length (js "A_A_") = length [0; 63; 64; 255].
Proof.
  split; [vm_compute; reflexivity|].
  exact (proj1 (generated_key_is_unbiased_charset_text [0; 63; 64; 255] (js "A_A_")
                  ltac:(vm_compute; reflexivity))).
Defined.

(* ================================================================== *)
(** * The content script *)
(* ================================================================== *)

Module ContentFacts.

Import EncryptionService StorageManager Spec Props Content.

(** *** Occurrences in a text made of parts *)

(** A text without the separator occurs in two parts joined by it
    exactly when it occurs in one of them. *)
Lemma includes_separated (a b p : str) (sep : ascii) :
  p <> [] -> ~ In sep p ->
  (includes (a ++ sep :: b) p = true
   <-> includes a p = true \/ includes b p = true).
Proof.
  intros Hne Hsep. rewrite !includes_spec. split.
  - intros [pre [post H]].
    apply app_eq_app in H. destruct H as [l [[Ha Hp] | [Hpre Hb]]].
    + apply app_eq_app in Hp. destruct Hp as [l2 [[Hp Hpost] | [Hpost Hl]]].
      * destruct l2 as [|c l2].
        -- left. exists pre, []. rewrite Ha. rewrite app_nil_r in Hp.
           subst l. rewrite app_nil_r. reflexivity.
        -- exfalso. apply Hsep. simpl in Hpost. injection Hpost as -> _.
           rewrite Hp. apply in_or_app. right. left. reflexivity.
      * left. exists pre, l2. rewrite Ha, Hpost. rewrite app_assoc. reflexivity.
    + destruct l as [|c l]; simpl in Hb.
      * exfalso. destruct p as [|y p]; [contradiction|].
        simpl in Hb. injection Hb as -> _. apply Hsep. left. reflexivity.
      * right. injection Hb as _ Hb. exists l, post. exact Hb.
  - intros [[pre [post H]] | [pre [post H]]].
    + exists pre, (post ++ sep :: b). rewrite H. rewrite <- !app_assoc. reflexivity.
    + exists (a ++ sep :: pre), post. rewrite H. rewrite <- app_assoc. reflexivity.
Qed.

Lemma patterns_plain (p : str) :
  In p patterns -> p <> [] /\ ~ In space p /\ includes [] p = false.
Proof.
  intro H.
  assert (A : forallb (fun q => truthy q && negb (existsb (ascii_eqb space) q)
                                && negb (includes [] q)) patterns = true)
    by (vm_compute; reflexivity).
  rewrite forallb_forall in A. specialize (A p H).
  apply andb_true_iff in A. destruct A as [A A3].
  apply andb_true_iff in A. destruct A as [A1 A2].
  apply negb_true_iff in A2, A3. split; [|split].
  - intros ->. discriminate A1.
  - intro I. assert (E : existsb (ascii_eqb space) p = true).
    { apply existsb_exists. exists space. split; [exact I | apply ascii_eqb_refl]. }
    congruence.
  - exact A3.
Qed.

(** *** Reading the vault after a usage was recorded *)

Lemma update_first_In {A} (p : A -> bool) (f : A -> A) (l : list A) (k : A) :
  find p l = Some k -> In (f k) (update_first p f l).
Proof.
  induction l as [|x l IH]; simpl; [discriminate|].
  destruct (p x) eqn:E.
  - intros [= ->]. left. reflexivity.
  - intro H. right. apply IH. exact H.
Qed.

Lemma getKeys_domain e (d : str) w :
  isUnlocked w = true -> d <> [] ->
  Background.getKeys e (Some (Background.KeyFilter (Some d) None None)) w
  = (Ok (filter (fun k => arr_includes (domains k) d)
                (sort compareKeys (decryptAll (keys_of w) (session w)))),
     updateLastActivity e w).
Proof.
  intros U D. unfold Background.getKeys.
  rewrite ListFacts.getAllKeys_unlocked by exact U.
  unfold Background.applyKeyFilter. cbn [Background.f_domain Background.f_favorite
                                          Background.f_environment].
  destruct d as [|c d]; [contradiction|]. reflexivity.
Qed.

Lemma getKeys_all e w :
  isUnlocked w = true ->
  Background.getKeys e None w
  = (Ok (sort compareKeys (decryptAll (keys_of w) (session w))), updateLastActivity e w).
Proof.
  intro U. unfold Background.getKeys.
  rewrite ListFacts.getAllKeys_unlocked by exact U. reflexivity.
Qed.

Lemma showKeySelector_bound e1 e2 (d : str) w y l :
  isUnlocked w = true -> d <> [] ->
  filter (fun k => arr_includes (domains k) d)
         (sort compareKeys (decryptAll (keys_of w) (session w))) = y :: l ->
  showKeySelector e1 e2 d w = (Offered (y :: l), updateLastActivity e1 w).
Proof.
  intros U D L. unfold showKeySelector, isVaultUnlocked. rewrite U. cbn [negb].
  rewrite (getKeys_domain e1 d w U D), L. reflexivity.
Qed.

End ContentFacts.

(** X15 (what makes a field an API key field): [isApiKeyField] answers
    true exactly when one of its thirteen patterns occurs, case ignored
    on the side of the page, in the name, the id, the placeholder, the
    aria-label or the label text of the input: a pattern never matches
    across two of them. *)
Theorem api_key_field_iff (i : Content.input) :
  Content.isApiKeyField i = true <->
  exists pattern text,
    In pattern Content.patterns
    /\ In text [Content.name i; Content.id_ i; Content.placeholder i;
                or_str (Content.ariaLabel i) []; or_str (Content.label i) []]
    /\ includes (toLowerCase text) pattern = true.
Proof.
  unfold Content.isApiKeyField.
  set (n := toLowerCase (Content.name i)).
  set (d := toLowerCase (Content.id_ i)).
  set (h := toLowerCase (Content.placeholder i)).
  set (a := toLowerCase (or_str (Content.ariaLabel i) [])).
  change (n ++ [Content.space] ++ d ++ [Content.space] ++ h ++ [Content.space] ++ a)
    with (n ++ Content.space :: (d ++ Content.space :: (h ++ Content.space :: a))).
  set (ft := n ++ Content.space :: (d ++ Content.space :: (h ++ Content.space :: a))).
  assert (S : forall p, In p Content.patterns ->
            (includes ft p = true
             <-> includes n p = true \/ includes d p = true \/ includes h p = true
                 \/ includes a p = true)).
  { intros p Hp. destruct (ContentFacts.patterns_plain p Hp) as [P1 [P2 _]].
    unfold ft. rewrite !ContentFacts.includes_separated by assumption. tauto. }
  split.
  - destruct (existsb _ Content.patterns) eqn:E.
    + intros _. apply existsb_exists in E. destruct E as [p [Hp Hi]].
      apply (S p Hp) in Hi.
      destruct Hi as [H | [H | [H | H]]]; exists p; eexists;
        (split; [exact Hp|]); (split; [|exact H]); simpl; auto.
    + destruct (Content.label i) as [l|] eqn:L; [|discriminate].
      intro H. apply andb_true_iff in H. destruct H as [T H].
      apply existsb_exists in H. destruct H as [p [Hp Hi]].
      exists p, l. split; [exact Hp|]. split; [|exact Hi].
      right; right; right; right; left. cbn [or_str]. rewrite T. reflexivity.
  - intros [p [text [Hp [Ht Hi]]]].
    destruct (existsb _ Content.patterns) eqn:E; [reflexivity|].
    assert (N : includes ft p = false).
    { destruct (includes ft p) eqn:I; [|reflexivity].
      assert (X : existsb (fun pattern => includes ft pattern) Content.patterns = true).
      { apply existsb_exists. exists p. split; assumption. }
      congruence. }
    simpl in Ht. destruct Ht as [<- | [<- | [<- | [<- | [<- | []]]]]].
    + exfalso. assert (T := proj2 (S p Hp) (or_introl Hi)). congruence.
    + exfalso. assert (T := proj2 (S p Hp) (or_intror (or_introl Hi))). congruence.
    + exfalso. assert (T := proj2 (S p Hp) (or_intror (or_intror (or_introl Hi)))).
      congruence.
    + exfalso. assert (T := proj2 (S p Hp) (or_intror (or_intror (or_intror Hi)))).
      congruence.
    + destruct (Content.label i) as [l|]; cbn [or_str] in Hi.
      * destruct (truthy l) eqn:T.
        -- cbn [andb]. apply existsb_exists. exists p. split; assumption.
        -- destruct (ContentFacts.patterns_plain p Hp) as [_ [_ P3]].
           cbn [toLowerCase map] in Hi. congruence.
      * destruct (ContentFacts.patterns_plain p Hp) as [_ [_ P3]].
        cbn [toLowerCase map] in Hi. congruence.
Qed.

(** X16 (a filled key is bound to the page's domain): when a key of an
    unlocked vault is filled into a field of a page with a non-empty
    host name, the usage recorded adds that host to the domains of the
    entry; the selector then offers, on that host, only keys bound to
    it, the filled one among them. *)
Theorem filled_key_is_offered_on_its_domain (e e1 e2 : StorageManager.env) (d v : str)
    (k : StorageManager.key str) (w : StorageManager.world)
    (ks : list (StorageManager.key EncryptionService.envelope))
    (k0 : StorageManager.key EncryptionService.envelope) :
  StorageManager.isUnlocked w = true ->
  StorageManager.keys (StorageManager.getStorageData w) = Some ks ->
  find (fun x => str_eqb (StorageManager.id x) (StorageManager.id k)) ks = Some k0 ->
  EncryptionService.decryptData (StorageManager.keyValue k0) (StorageManager.session w)
  = Ok v ->
  d <> [] ->
  exists l w2,
    Content.showKeySelector e1 e2 d (snd (Content.fillKey e d k w)) = (Content.Offered l, w2)
    /\ Forall (fun x => In d (StorageManager.domains x)) l
    /\ exists x, In x l /\ StorageManager.id x = StorageManager.id k
                 /\ StorageManager.keyValue x = v.
Proof.
  intros U K F D Hd.
  unfold Content.fillKey, Background.recordKeyUsage, StorageManager.recordKeyUsage.
  rewrite U, K. cbn [negb]. rewrite (UsageFacts.find_existsb _ _ _ F). cbn [snd].
  set (ks' := StorageManager.update_first _ _ ks).
  set (w1 := StorageManager.updateLastActivity e _).
  assert (U1 : StorageManager.isUnlocked w1 = true) by exact U.
  set (l := filter (fun x => arr_includes (StorageManager.domains x) d)
                   (StorageManager.sort StorageManager.compareKeys
                      (StorageManager.decryptAll ks' (StorageManager.session w)))).
  assert (X : In (StorageManager.with_keyValue (StorageManager.bump e d k0) v) l).
  { unfold l. apply filter_In. split.
    - apply (Permutation_in _ (Permutation_sym (sort_perm _ _))).
      apply ViewFacts.decryptAll_spec. exists (StorageManager.bump e d k0).
      split; [|split].
      + unfold ks'. apply ContentFacts.update_first_In. exact F.
      + exact D.
      + reflexivity.
    - apply StorageFacts.arr_includes_In.
      change (StorageManager.domains (StorageManager.with_keyValue
                                        (StorageManager.bump e d k0) v))
        with (StorageManager.domains (StorageManager.bump e d k0)).
      apply UsageFacts.bump_domains. right. split; [reflexivity | exact Hd]. }
  assert (B : Forall (fun x => In d (StorageManager.domains x)) l).
  { apply Forall_forall. intros x Hx. unfold l in Hx. apply filter_In in Hx.
    apply StorageFacts.arr_includes_In. apply Hx. }
  destruct l as [|y l'] eqn:L; [contradiction|].
  exists (y :: l'), (StorageManager.updateLastActivity e1 w1).
  split; [apply ContentFacts.showKeySelector_bound; [exact U1 | exact Hd | exact L]|].
  split; [exact B|].
  eexists. split; [exact X|]. split.
  - cbn [StorageManager.with_keyValue StorageManager.id StorageManager.bump].
    apply find_some in F. destruct F as [_ F]. apply str_eqb_eq in F. exact F.
  - reflexivity.
Qed.

Lemma filled_key_is_offered_on_its_domain_witness :
  exists l w2,
    Content.showKeySelector Sample.env3 Sample.env3 (js "platform.openai.com")
      (snd (Content.fillKey Sample.env2 (js "platform.openai.com") Sample.key_openai
              Sample.ext_one_key))
    = (Content.Offered l, w2)
    /\ Forall (fun x => In (js "platform.openai.com") (StorageManager.domains x)) l
    /\ exists x, In x l /\ StorageManager.id x = StorageManager.id Sample.key_openai
                 /\ StorageManager.keyValue x = js "sk-AAA".
Proof.
  destruct (Spec.entry Sample.openai_id Sample.ext_one_key) as [k0|] eqn:E;
    [|vm_compute in E; discriminate E].
  apply (filled_key_is_offered_on_its_domain Sample.env2 Sample.env3 Sample.env3
           (js "platform.openai.com") (js "sk-AAA") Sample.key_openai Sample.ext_one_key
           (Spec.keys_of Sample.ext_one_key) k0).
  - reflexivity.
  - reflexivity.
  - exact E.
  - vm_compute in E. injection E as <-. vm_compute. reflexivity.
  - discriminate.
Defined.

(** X17 (the selector falls back to every key): whenever the selector
    offers keys, the offer is not empty and is either the keys bound to
    the host of the page, in the order of the default list, or, when the
    host name is empty or no key is bound to it, the whole default
    list. *)
Theorem selector_offers_domain_keys_or_all (e1 e2 : StorageManager.env) (d : str)
    (w w' : StorageManager.world) (l : list (StorageManager.key str)) :
  Content.showKeySelector e1 e2 d w = (Content.Offered l, w') ->
  l <> []
  /\ ((d <> []
       /\ l = filter (fun k => arr_includes (StorageManager.domains k) d)
                     (StorageManager.sort StorageManager.compareKeys
                        (StorageManager.decryptAll (Spec.keys_of w) (StorageManager.session w))))
      \/ ((d = [] \/ filter (fun k => arr_includes (StorageManager.domains k) d)
                            (StorageManager.sort StorageManager.compareKeys
                               (StorageManager.decryptAll (Spec.keys_of w)
                                  (StorageManager.session w))) = [])
          /\ l = StorageManager.sort StorageManager.compareKeys
                   (StorageManager.decryptAll (Spec.keys_of w) (StorageManager.session w)))).
Proof.
  unfold Content.showKeySelector, StorageManager.isVaultUnlocked.
  destruct (StorageManager.isUnlocked w) eqn:U; cbn [negb]; [|discriminate].
  set (all := StorageManager.sort StorageManager.compareKeys
                (StorageManager.decryptAll (Spec.keys_of w) (StorageManager.session w))).
  assert (U1 : StorageManager.isUnlocked (StorageManager.updateLastActivity e1 w) = true)
    by exact U.
  destruct d as [|c d].
  - unfold Background.getKeys at 1.
    rewrite ListFacts.getAllKeys_unlocked by exact U.
    unfold Background.applyKeyFilter.
    cbn [Background.f_domain Background.f_favorite Background.f_environment truthy].
    fold all. rewrite (ContentFacts.getKeys_all e2 _ U1).
    change (StorageManager.sort _ (StorageManager.decryptAll
              (Spec.keys_of (StorageManager.updateLastActivity e1 w))
              (StorageManager.session (StorageManager.updateLastActivity e1 w))))
      with all.
    destruct all as [|y all'] eqn:A.
    + discriminate.
    + intros [= <- _]. split; [discriminate|]. right. split; [left|]; reflexivity.
  - rewrite (ContentFacts.getKeys_domain e1 (c :: d) w U) by discriminate.
    fold all.
    destruct (filter _ all) as [|y b'] eqn:B.
    + rewrite (ContentFacts.getKeys_all e2 _ U1).
      change (StorageManager.sort _ (StorageManager.decryptAll
                (Spec.keys_of (StorageManager.updateLastActivity e1 w))
                (StorageManager.session (StorageManager.updateLastActivity e1 w))))
        with all.
      destruct all as [|z all'] eqn:A.
      * discriminate.
      * intros [= <- _]. split; [discriminate|]. right. split; [right|]; reflexivity.
    + intros [= <- _]. split; [discriminate|]. left. split; [discriminate | reflexivity].
Qed.

Lemma selector_offers_domain_keys_or_all_witness :
  exists l w',
    Content.showKeySelector Sample.env2 Sample.env3 (js "example.org") Sample.ext_one_key
    = (Content.Offered l, w')
    /\ l <> [].
Proof.
  eexists. eexists.
  assert (R : Content.showKeySelector Sample.env2 Sample.env3 (js "example.org")
                Sample.ext_one_key
              = ltac:(let x := eval vm_compute in
                                 (Content.showKeySelector Sample.env2 Sample.env3
                                    (js "example.org") Sample.ext_one_key) in
                      exact x)) by (vm_compute; reflexivity).
  split; [exact R|].
  exact (proj1 (selector_offers_domain_keys_or_all _ _ _ _ _ _ R)).
Defined.

(* ================================================================== *)
(** * The MCP server: sessions, resources, key retrieval *)
(* ================================================================== *)

Module McpFacts.

Import NodeVault.

(** [requireUnlocked] with a session key in memory and a vault file. *)
Lemma requireUnlocked_in_memory now w v k :
  MCP.vault_file w = Some v -> MCP.sessionKey w = Some k -> k <> [] ->
  (forall s, MCP.session_file w = Some s -> MCP.key s <> []) ->
  fst (MCP.requireUnlocked now w) = None
  /\ MCP.vault (snd (MCP.requireUnlocked now w)) = Some v.
Proof.
  intros Hv Hk Hne Hs. unfold MCP.requireUnlocked, MCP.loadSession, MCP.loadVault.
  cbn [MCP.session_file MCP.vault MCP.sessionKey MCP.vault_file].
  destruct (MCP.session_file w) as [s|] eqn:S.
  - destruct (now - MCP.timestamp s <? 3600000); cbn [MCP.vault MCP.sessionKey];
      rewrite Hv.
    + specialize (Hs s eq_refl). destruct (MCP.key s); [contradiction|]. split; reflexivity.
    + rewrite Hk. destruct k; [contradiction|]. split; reflexivity.
  - cbn [MCP.vault MCP.sessionKey]. rewrite Hv, Hk.
    destruct k; [contradiction|]. split; reflexivity.
Qed.

(** [requireUnlocked] with a fresh session file. *)
Lemma requireUnlocked_session_file now w v k t :
  MCP.vault_file w = Some v -> MCP.session_file w = Some (MCP.Session k t) ->
  k <> [] -> now - t < 3600000 ->
  MCP.requireUnlocked now w
  = (None, MCP.World (Some v) (Some (MCP.Session k t)) (Some v) (Some k)).
Proof.
  intros Hv Hs Hk Ht. unfold MCP.requireUnlocked, MCP.loadSession, MCP.loadVault.
  cbn [MCP.session_file MCP.vault MCP.sessionKey MCP.vault_file].
  rewrite Hs. cbn [MCP.timestamp MCP.key].
  apply Z.ltb_lt in Ht. rewrite Ht. cbn [MCP.vault MCP.sessionKey MCP.vault_file].
  rewrite Hv. destruct k; [contradiction|]. reflexivity.
Qed.

End McpFacts.

(** X18 (a running server stays unlocked): once the MCP server has
    accepted a non-empty password, [requireUnlocked] lets every later
    call through, however much later: the session key in memory is never
    dropped. The hour of validity applies to the session file only: a
    server started anew on the same two files is locked once the hour is
    over. *)
Theorem running_server_stays_unlocked (now later : Z) (password : str)
    (w : MCP.world) (v : NodeVault.vault) :
  MCP.vault_file w = Some v ->
  SHA256.sha256_hex password = NodeVault.passwordHash v ->
  password <> [] ->
  fst (MCP.requireUnlocked later (snd (MCP.unlockVault now password w))) = None
  /\ (now + 3600000 <= later ->
      fst (MCP.requireUnlocked later
             (MCP.World (MCP.vault_file (snd (MCP.unlockVault now password w)))
                        (MCP.session_file (snd (MCP.unlockVault now password w)))
                        None None))
      = Some MCP.ErrVaultLocked).
Proof.
  intros Hv Hh Hp.
  rewrite (UnlockFacts.mcp_unlock_accepts now password w v Hv Hh). cbn [snd].
  split.
  - apply (McpFacts.requireUnlocked_in_memory later _ v password); try reflexivity.
    + exact Hp.
    + intros s [= <-]. exact Hp.
  - intro L. unfold MCP.requireUnlocked, MCP.loadSession, MCP.loadVault.
    cbn [MCP.session_file MCP.vault MCP.sessionKey MCP.vault_file MCP.timestamp].
    assert (E : (later - now <? 3600000) = false) by (apply Z.ltb_ge; lia).
    rewrite E. reflexivity.
Qed.

Lemma running_server_stays_unlocked_witness :
  fst (MCP.requireUnlocked 1800000000000
         (snd (MCP.unlockVault 1700000001000 (js "password") Sample.mcp_fresh))) = None.
Proof.
  apply (running_server_stays_unlocked 1700000001000 1800000000000 (js "password")
           Sample.mcp_fresh Sample.node_vault).
  - reflexivity.
  - vm_compute. reflexivity.
  - discriminate.
Defined.

(** X19 (the session file is trusted as it is): with a vault file and a
    session file younger than an hour that holds any non-empty key, the
    tools list and search answer with the metadata of the vault; the key
    of the session file is not compared with the verifier of the
    vault. *)
Theorem session_file_is_not_verified (now t : Z) (k query : str) (w : MCP.world)
    (v : NodeVault.vault) :
  MCP.vault_file w = Some v ->
  MCP.session_file w = Some (MCP.Session k t) ->
  k <> [] ->
  now - t < 3600000 ->
  fst (MCP.listApiKeys now None None w)
  = MCP.KeysText (map MCP.listed_of (NodeVault.keys v))
  /\ fst (MCP.searchApiKeys now query w)
     = MCP.MatchesText
         (map MCP.found_of (filter (MCP.matches (toLowerCase query)) (NodeVault.keys v))).
Proof.
  intros Hv Hs Hk Ht.
  unfold MCP.listApiKeys, MCP.searchApiKeys.
  rewrite (McpFacts.requireUnlocked_session_file now w v k t Hv Hs Hk Ht).
  split; reflexivity.
Qed.

Lemma session_file_is_not_verified_witness :
  fst (MCP.listApiKeys 1700000002000 None None
         (MCP.World (Some Sample.node_vault)
                    (Some (MCP.Session (js "not the password") 1700000001000)) None None))
  = MCP.KeysText (map MCP.listed_of (NodeVault.keys Sample.node_vault)).
Proof.
  exact (proj1 (session_file_is_not_verified 1700000002000 1700000001000
                  (js "not the password") []
                  (MCP.World (Some Sample.node_vault)
                     (Some (MCP.Session (js "not the password") 1700000001000)) None None)
                  Sample.node_vault
                  eq_refl eq_refl ltac:(discriminate) ltac:(reflexivity))).
Defined.

(** X20 (the key list resource is served to a locked server): with a
    vault file, reading [keyvault://keys] answers the id, name,
    environment, tags, times and usage count of every key whatever the
    session state, and the answer does not depend on any key value; on a
    locked server the tool [list_api_keys] refuses with the lock error
    while the resource lists the same names, environments, tags and
    usage figures that the tool shows once unlocked. *)
Theorem keys_resource_needs_no_unlock (now : Z) (w : MCP.world) (v : NodeVault.vault) :
  MCP.vault_file w = Some v ->
  fst (McpResources.readResource now (js "keyvault://keys") w)
  = McpResources.KeysJson (map McpResources.keyEntry_of (NodeVault.keys v))
  /\ fst (McpResources.readResource now (js "keyvault://keys") (Spec.redact w))
     = fst (McpResources.readResource now (js "keyvault://keys") w)
  /\ (MCP.locked now w = true ->
      fst (MCP.listApiKeys now None None w) = MCP.ErrVaultLocked)
  /\ map (fun r => (McpResources.r_serviceName r, McpResources.r_environment r,
                    McpResources.r_tags r, McpResources.r_lastUsed r,
                    McpResources.r_usageCount r))
         (map McpResources.keyEntry_of (NodeVault.keys v))
     = map (fun l => (MCP.l_serviceName l, MCP.l_environment l, MCP.l_tags l,
                      MCP.l_lastUsed l, MCP.l_usageCount l))
           (map MCP.listed_of (NodeVault.keys v)).
Proof.
  intro Hv. split; [|split; [|split]].
  - unfold McpResources.readResource.
    change (str_eqb (js "keyvault://keys") (js "keyvault://keys")) with true. cbv iota.
    unfold MCP.loadVault. cbn [MCP.vault MCP.vault_file]. rewrite Hv. reflexivity.
  - unfold McpResources.readResource.
    change (str_eqb (js "keyvault://keys") (js "keyvault://keys")) with true. cbv iota.
    unfold MCP.loadVault, Spec.redact. cbn [MCP.vault MCP.vault_file]. rewrite Hv.
    cbn [option_map fst Spec.redact_vault NodeVault.keys]. f_equal.
    rewrite map_map. apply map_ext. intro k. reflexivity.
  - intro L. destruct (LockFacts.mcp_requireUnlocked_locked now w v Hv L) as [w' [R _]].
    unfold MCP.listApiKeys. rewrite R. reflexivity.
  - rewrite !map_map. apply map_ext. intro k. reflexivity.
Qed.

Lemma keys_resource_needs_no_unlock_witness :
  fst (McpResources.readResource 1700000001000 (js "keyvault://keys") Sample.mcp_fresh)
  = McpResources.KeysJson (map McpResources.keyEntry_of (NodeVault.keys Sample.node_vault)).
Proof.
  exact (proj1 (keys_resource_needs_no_unlock 1700000001000 Sample.mcp_fresh
                  Sample.node_vault eq_refl)).
Defined.

(** X21 (a key is handed out for the requested environment only):
    whenever [getApiKey] answers with a key value, the vault file holds a
    key whose name equals the requested one up to case, whose environment
    is the requested one (development when none is given) and whose
    stored value opens to the value answered under the session key. *)
Theorem getApiKey_answers_requested_environment (now : Z) (name : str)
    (env : option str) (w w' : MCP.world) (name' env' decrypted : str) :
  MCP.getApiKey now name env w = (MCP.KeyText name' env' decrypted, w') ->
  name' = name
  /\ env' = MCP.or_development env
  /\ exists v k s,
       MCP.vault_file w = Some v
       /\ In k (NodeVault.keys v)
       /\ toLowerCase (NodeVault.serviceName k) = toLowerCase name
       /\ NodeVault.environment k = env'
       /\ MCP.effective_key now w = Some s
       /\ NodeVault.decrypt s (NodeVault.keyValue k) = Some decrypted.
Proof.
  unfold MCP.getApiKey, MCP.requireUnlocked, MCP.loadSession, MCP.loadVault,
    MCP.effective_key.
  cbn [MCP.session_file MCP.vault MCP.sessionKey MCP.vault_file].
  set (wanted := MCP.wanted name (MCP.or_development env)).
  destruct (MCP.vault_file w) as [v|] eqn:Hv.
  2: { destruct (MCP.session_file w) as [s|]; [destruct (_ <? _)|]; cbn; discriminate. }
  assert (Body : forall (sk : option str) (w1 : MCP.world),
             MCP.vault w1 = Some v -> MCP.sessionKey w1 = sk ->
             match
               match sk with
               | Some k0 => if truthy k0 then (@None MCP.response, w1)
                            else (Some MCP.ErrVaultLocked, w1)
               | None => (Some MCP.ErrVaultLocked, w1)
               end
             with
             | (Some err, w2) => (err, w2)
             | (None, w2) =>
                 match find wanted (MCP.current_keys w2) with
                 | None =>
                     match find (MCP.same_service name) (MCP.current_keys w2) with
                     | Some anyEnvKey =>
                         (MCP.OtherEnvironmentText name (NodeVault.environment anyEnvKey)
                            (MCP.or_development env)
                            (map NodeVault.environment
                               (filter (MCP.same_service name) (MCP.current_keys w2))), w2)
                     | None => (MCP.NoSuchKeyText name, w2)
                     end
                 | Some k =>
                     match NodeVault.decrypt
                             (match MCP.sessionKey w2 with Some s => s | None => [] end)
                             (NodeVault.keyValue k) with
                     | None => (MCP.ErrDecipher, w2)
                     | Some d =>
                         (MCP.KeyText name (MCP.or_development env) d,
                          MCP.World
                            (match MCP.vault w2 with
                             | Some v0 =>
                                 Some (NodeVault.Vault (NodeVault.version v0)
                                         (NodeVault.created v0) (NodeVault.passwordHash v0)
                                         (StorageManager.update_first wanted (MCP.touch now)
                                            (MCP.current_keys w2)))
                             | None => None
                             end)
                            (MCP.session_file w2)
                            (match MCP.vault w2 with
                             | Some v0 =>
                                 Some (NodeVault.Vault (NodeVault.version v0)
                                         (NodeVault.created v0) (NodeVault.passwordHash v0)
                                         (StorageManager.update_first wanted (MCP.touch now)
                                            (MCP.current_keys w2)))
                             | None => None
                             end)
                            (MCP.sessionKey w2))
                     end
                 end
             end = (MCP.KeyText name' env' decrypted, w') ->
             name' = name /\ env' = MCP.or_development env
             /\ exists k s, In k (NodeVault.keys v)
                            /\ toLowerCase (NodeVault.serviceName k) = toLowerCase name
                            /\ NodeVault.environment k = env'
                            /\ sk = Some s
                            /\ NodeVault.decrypt s (NodeVault.keyValue k) = Some decrypted).
  { intros sk w1 V1 S1. destruct sk as [k0|]; [|discriminate].
    destruct (truthy k0); [|discriminate].
    unfold MCP.current_keys. rewrite V1, S1.
    destruct (find wanted (NodeVault.keys v)) as [k|] eqn:F.
    - destruct (NodeVault.decrypt k0 (NodeVault.keyValue k)) as [d|] eqn:D; [|discriminate].
      intros [= <- <- <- _]. split; [reflexivity|]. split; [reflexivity|].
      apply find_some in F. destruct F as [I W]. unfold wanted, MCP.wanted in W.
      apply andb_true_iff in W. destruct W as [W1 W2].
      unfold MCP.same_service in W1. apply str_eqb_eq in W1, W2.
      exists k, k0. auto.
    - destruct (find (MCP.same_service name) (NodeVault.keys v)); discriminate. }
  destruct (MCP.session_file w) as [s|] eqn:Hs.
  - destruct (now - MCP.timestamp s <? 3600000) eqn:T.
    + cbn [MCP.vault MCP.sessionKey]. intro H.
      apply (Body (Some (MCP.key s))) in H; [|reflexivity|reflexivity].
      destruct H as [A [B [k [s0 [I [N [E [S D]]]]]]]]. split; [exact A|]. split; [exact B|].
      exists v, k, s0. repeat split; auto.
    + cbn [MCP.vault MCP.sessionKey]. intro H.
      apply (Body (MCP.sessionKey w)) in H; [|reflexivity|reflexivity].
      destruct H as [A [B [k [s0 [I [N [E [S D]]]]]]]]. split; [exact A|]. split; [exact B|].
      exists v, k, s0. repeat split; auto.
  - cbn [MCP.vault MCP.sessionKey]. intro H.
    apply (Body (MCP.sessionKey w)) in H; [|reflexivity|reflexivity].
    destruct H as [A [B [k [s0 [I [N [E [S D]]]]]]]]. split; [exact A|]. split; [exact B|].
    exists v, k, s0. repeat split; auto.
Qed.

Lemma getApiKey_answers_requested_environment_witness :
  exists w',
    MCP.getApiKey 1700000002000 (js "stripe") (Some (js "production")) Sample.mcp_unlocked
    = (MCP.KeyText (js "stripe") (js "production") (js "sk_live_51H"), w')
    /\ js "production" = MCP.or_development (Some (js "production")).
Proof.
  eexists.
  assert (R : MCP.getApiKey 1700000002000 (js "stripe") (Some (js "production"))
                Sample.mcp_unlocked
              = (MCP.KeyText (js "stripe") (js "production") (js "sk_live_51H"),
                 snd (MCP.getApiKey 1700000002000 (js "stripe") (Some (js "production"))
                        Sample.mcp_unlocked))) by (vm_compute; reflexivity).
  split; [exact R|].
  exact (proj1 (proj2 (getApiKey_answers_requested_environment _ _ _ _ _ _ _ _ R))).
Defined.

(* ================================================================== *)
(** * The terminal client: export and import *)
(* ================================================================== *)

Module CliFacts.

Import NodeVault CliCommands Props.

Lemma cbc_decrypt_encrypt (s v : str) : decrypt s (encrypt s v) = Some v.
Proof. unfold decrypt, encrypt. rewrite str_eqb_refl. reflexivity. Qed.

Lemma name_known (n : str) (ks : list key) :
  existsb (fun k => str_eqb (serviceName k) n) ks = true <-> In n (map serviceName ks).
Proof.
  rewrite existsb_exists, in_map_iff. split.
  - intros [k [I E]]. apply str_eqb_eq in E. exists k. auto.
  - intros [k [E I]]. exists k. split; [exact I|]. apply str_eqb_eq. exact E.
Qed.

Lemma importKeys_spec (s : str) (file : list (plain * (Z * str))) :
  forall ks, NoDup (map serviceName ks) ->
    NoDup (map serviceName (importKeys s file ks))
    /\ (exists added, importKeys s file ks = ks ++ added
                      /\ Forall (came_from s file) added)
    /\ (forall p, In p (map fst file) ->
                  In (p_serviceName p) (map serviceName (importKeys s file ks)))
    /\ (forall n, In n (map serviceName ks) ->
                  In n (map serviceName (importKeys s file ks))).
Proof.
  induction file as [|[p [now suffix]] file IH]; intros ks N; cbn [importKeys].
  - split; [exact N|]. split; [exists []; rewrite app_nil_r; auto|].
    split; [intros p []|auto].
  - destruct (existsb _ ks) eqn:E.
    + destruct (IH ks N) as [A [[added [B C]] [D K]]].
      split; [exact A|]. split; [|split; [|exact K]].
      * exists added. split; [exact B|].
        eapply Forall_impl; [|exact C]. intros k [q [I Q]]. exists q.
        split; [right; exact I | exact Q].
      * intros q [<-|I]; [|apply D; exact I].
        apply K. apply name_known. exact E.
    + assert (N' : NoDup (map serviceName (ks ++ [reencrypt now suffix s p]))).
      { rewrite map_app. cbn [map]. apply NoDup_app; [exact N | repeat constructor; auto |].
        intros n I [<-|[]]. apply name_known in I.
        cbn [reencrypt serviceName] in I. congruence. }
      destruct (IH _ N') as [A [[added [B C]] [D K]]].
      split; [exact A|]. split; [|split].
      * exists (reencrypt now suffix s p :: added). split.
        -- rewrite B, <- app_assoc. reflexivity.
        -- constructor.
           ++ exists p. split; [left; reflexivity|].
              cbn [reencrypt serviceName environment tags keyValue].
              rewrite cbc_decrypt_encrypt. auto.
           ++ eapply Forall_impl; [|exact C]. intros k [q [I Q]]. exists q.
              split; [right; exact I | exact Q].
      * intros q [<-|I]; [|apply D; exact I].
        apply K. rewrite map_app. apply in_or_app. right. left. reflexivity.
      * intros n I. apply K. rewrite map_app. apply in_or_app. left. exact I.
Qed.

(** What [exportVault] writes for each key. *)
Lemma exportKeys_spec (s : str) (ks : list key) (ps : list plain) :
  exportKeys s ks = Some ps ->
  Forall2 (fun k p => plain_of s k = Some p) ks ps.
Proof.
  revert ps. induction ks as [|k ks IH]; intros ps; cbn [exportKeys].
  - intros [= <-]. constructor.
  - destruct (plain_of s k) as [p|] eqn:P; [|discriminate].
    destruct (exportKeys s ks) as [ps'|]; [|discriminate].
    intros [= <-]. constructor; [exact P | apply IH; reflexivity].
Qed.

(** Into an empty vault, a file with distinct names is imported whole. *)
Lemma importKeys_fresh (s : str) (file : list (plain * (Z * str))) :
  forall ks,
    NoDup (map serviceName ks ++ map (fun x => p_serviceName (fst x)) file) ->
    importKeys s file ks
    = ks ++ map (fun x => reencrypt (fst (snd x)) (snd (snd x)) s (fst x)) file.
Proof.
  induction file as [|[p [now suffix]] file IH]; intros ks N; cbn [importKeys map].
  - rewrite app_nil_r. reflexivity.
  - destruct (existsb _ ks) eqn:E.
    + exfalso. apply name_known in E.
      apply NoDup_remove_2 in N. apply N. apply in_or_app. left. exact E.
    + rewrite IH.
      * cbn [fst snd]. rewrite <- app_assoc. reflexivity.
      * rewrite map_app. cbn [map reencrypt serviceName].
        rewrite <- app_assoc. cbn [app fst] in *. exact N.
Qed.

End CliFacts.

(** X22 (the import of the terminal client keeps names distinct): on a
    vault whose service names are distinct, [importVault] keeps the keys
    that are there, appends keys of the file only, each sealed anew
    under the session key with the name, environment, tags and value of
    its source, and leaves the names distinct; every service name of the
    file is in the vault afterwards. A name that occurs twice in the file
    is therefore imported once. *)
Theorem cli_import_keeps_names_distinct (sessionKey : str)
    (file : list (CliCommands.plain * (Z * str))) (v : NodeVault.vault) :
  NoDup (map NodeVault.serviceName (NodeVault.keys v)) ->
  NoDup (map NodeVault.serviceName
             (NodeVault.keys (CliCommands.importVault sessionKey file v)))
  /\ (exists added,
        NodeVault.keys (CliCommands.importVault sessionKey file v)
        = NodeVault.keys v ++ added
        /\ Forall (fun k =>
             exists p, In p (map fst file)
                       /\ NodeVault.serviceName k = CliCommands.p_serviceName p
                       /\ NodeVault.environment k = CliCommands.p_environment p
                       /\ NodeVault.tags k = CliCommands.p_tags p
                       /\ NodeVault.decrypt sessionKey (NodeVault.keyValue k)
                          = Some (CliCommands.p_keyValue p)) added)
  /\ (forall p, In p (map fst file) ->
        In (CliCommands.p_serviceName p)
           (map NodeVault.serviceName
                (NodeVault.keys (CliCommands.importVault sessionKey file v)))).
Proof.
  intro N. unfold CliCommands.importVault. cbn [CliCommands.set_keys NodeVault.keys].
  destruct (CliFacts.importKeys_spec sessionKey file _ N) as [A [B [C _]]].
  split; [exact A|]. split; [exact B | exact C].
Qed.

Lemma cli_import_keeps_names_distinct_witness :
  NoDup (map NodeVault.serviceName
           (NodeVault.keys
              (CliCommands.importVault (js "password")
                 [(CliCommands.Plain (js "x") (js "GitHub") (js "ghp_1") (js "production")
                     [] 0 None None None None None None, (1700000003000, js "aaaaaaaaa"));
                  (CliCommands.Plain (js "y") (js "GitHub") (js "ghp_2") (js "staging")
                     [] 0 None None None None None None, (1700000003001, js "bbbbbbbbb"))]
                 Sample.node_vault))).
Proof.
  apply (cli_import_keeps_names_distinct (js "password") _ Sample.node_vault).
  simpl. repeat constructor; simpl; tauto.
Defined.

(** X23 (export and import between two vaults): the file that
    [exportVault] writes from a vault with distinct service names,
    imported into an empty vault under another session key, gives a vault
    with the same names, environments, tags, usage data and key values,
    in the same order; ids and creation times are new. *)
Theorem cli_export_import_round_trip (ka kb : str) (va vb : NodeVault.vault)
    (file : list (CliCommands.plain * (Z * str))) :
  CliCommands.exportVault ka va = Some (map fst file) ->
  NoDup (map NodeVault.serviceName (NodeVault.keys va)) ->
  NodeVault.keys vb = [] ->
  map (fun k => (NodeVault.serviceName k, NodeVault.environment k, NodeVault.tags k,
                 NodeVault.lastUsed k, NodeVault.usageCount k,
                 NodeVault.decrypt kb (NodeVault.keyValue k)))
      (NodeVault.keys (CliCommands.importVault kb file vb))
  = map (fun k => (NodeVault.serviceName k, NodeVault.environment k, NodeVault.tags k,
                   NodeVault.lastUsed k, NodeVault.usageCount k,
                   NodeVault.decrypt ka (NodeVault.keyValue k)))
        (NodeVault.keys va).
Proof.
  intros E N B. unfold CliCommands.importVault, CliCommands.exportVault in *.
  cbn [CliCommands.set_keys NodeVault.keys]. rewrite B.
  apply CliFacts.exportKeys_spec in E.
  assert (Names : map (fun x : CliCommands.plain * (Z * str) =>
                         CliCommands.p_serviceName (fst x)) file
                  = map NodeVault.serviceName (NodeVault.keys va)).
  { clear N B. revert E. generalize (NodeVault.keys va) as ks.
    induction file as [|x file IH]; intros ks E; inversion E; subst; [reflexivity|].
    cbn [map]. f_equal; [|apply IH; assumption].
    match goal with H : CliCommands.plain_of _ _ = Some _ |- _ => rename H into P end.
    unfold CliCommands.plain_of in P.
    destruct (NodeVault.decrypt ka _); [|discriminate]. injection P as <-. reflexivity. }
  rewrite CliFacts.importKeys_fresh by (cbn [map app]; rewrite Names; exact N).
  cbn [app]. rewrite map_map.
  clear N B Names. revert E. generalize (NodeVault.keys va) as ks.
  induction file as [|x file IH]; intros ks E; inversion E; subst; [reflexivity|].
  cbn [map]. f_equal; [|apply IH; assumption].
  match goal with H : CliCommands.plain_of _ _ = Some _ |- _ => rename H into P end.
  unfold CliCommands.plain_of in P.
  destruct (NodeVault.decrypt ka (NodeVault.keyValue _)) as [d|] eqn:D; [|discriminate].
  injection P as <-.
  cbn [CliCommands.reencrypt NodeVault.serviceName NodeVault.environment NodeVault.tags
       NodeVault.lastUsed NodeVault.usageCount NodeVault.keyValue
       CliCommands.p_serviceName CliCommands.p_environment CliCommands.p_tags
       CliCommands.p_lastUsed CliCommands.p_usageCount CliCommands.p_keyValue].
  rewrite CliFacts.cbc_decrypt_encrypt. reflexivity.
Qed.

Lemma cli_export_import_round_trip_witness :
  map (fun k => (NodeVault.serviceName k, NodeVault.environment k, NodeVault.tags k,
                 NodeVault.lastUsed k, NodeVault.usageCount k,
                 NodeVault.decrypt (js "another password") (NodeVault.keyValue k)))
      (NodeVault.keys
         (CliCommands.importVault (js "another password")
            [(CliCommands.Plain (js "1700000000000-abc123def") (js "Stripe")
                (js "sk_live_51H") (js "production") [js "payments"] 1700000000000 None
                (Some 0) None None (Some []) None, (1700000004000, js "ccccccccc"))]
            Sample.node_vault_empty))
  = map (fun k => (NodeVault.serviceName k, NodeVault.environment k, NodeVault.tags k,
                   NodeVault.lastUsed k, NodeVault.usageCount k,
                   NodeVault.decrypt (js "password") (NodeVault.keyValue k)))
        (NodeVault.keys Sample.node_vault).
Proof.
  apply (cli_export_import_round_trip (js "password") (js "another password")
           Sample.node_vault Sample.node_vault_empty).
  - vm_compute. reflexivity.
  - simpl. repeat constructor; simpl; tauto.
  - reflexivity.
Defined.

(* ================================================================== *)
(** * Fields: CSV rows, the key form, dates *)
(* ================================================================== *)

Module FieldFacts.

Import StorageManager ImportExport CsvFacts Props.

Local Arguments ascii_eqb : simpl never.
Local Arguments is_space : simpl never.

(** *** A row of escaped fields *)

Lemma escapeCSV_shape (v : str) :
  escapeCSV v = dquote :: double_quotes v ++ [dquote].
Proof.
  unfold escapeCSV. destruct v as [|c v]; [reflexivity|]. cbn [truthy negb].
  destruct (has_char comma (c :: v) || has_char dquote (c :: v)
            || has_char newline (c :: v)) eqn:E; [reflexivity|].
  apply orb_false_iff in E. destruct E as [E _].
  apply orb_false_iff in E. destruct E as [_ E].
  rewrite (double_quotes_clean _ E). reflexivity.
Qed.

(** Inside quotes, doubled quotes cancel and every other character is
    kept, commas included. *)
Lemma parseLoop_doubled (f : str) : forall tail values cur,
  parseLoop (double_quotes f ++ tail) values cur true
  = parseLoop tail values (cur ++ remove_quotes f) true.
Proof.
  induction f as [|c f IH]; intros tail values cur.
  - cbn [double_quotes flat_map remove_quotes filter app]. rewrite app_nil_r. reflexivity.
  - unfold double_quotes, remove_quotes. cbn [flat_map filter].
    fold (double_quotes f). fold (remove_quotes f).
    destruct (ascii_eqb c dquote) eqn:E.
    + cbn [negb app parseLoop]. rewrite ascii_eqb_refl. apply IH.
    + cbn [negb app parseLoop]. rewrite E, andb_false_r.
      rewrite IH, <- app_assoc. reflexivity.
Qed.

Lemma parseLoop_escaped (v tail : str) (values : list str) :
  parseLoop (escapeCSV v ++ tail) values [] false
  = parseLoop tail values (remove_quotes v) false.
Proof.
  rewrite escapeCSV_shape.
  change ((dquote :: double_quotes v ++ [dquote]) ++ tail)
    with (dquote :: ((double_quotes v ++ [dquote]) ++ tail)).
  rewrite <- app_assoc. cbn [parseLoop]. rewrite ascii_eqb_refl. cbn [negb].
  rewrite parseLoop_doubled. cbn [app parseLoop]. rewrite ascii_eqb_refl. reflexivity.
Qed.

Lemma parseLoop_row (vs : list str) : forall v values,
  parseLoop (join [comma] (map escapeCSV (v :: vs))) values [] false
  = rev values ++ map (fun x => trim (remove_quotes x)) (v :: vs).
Proof.
  induction vs as [|v' vs IH]; intros v values.
  - cbn [map join]. rewrite <- (app_nil_r (escapeCSV v)), parseLoop_escaped.
    reflexivity.
  - cbn [map]. rewrite join_cons. fold (map escapeCSV vs).
    change ([comma] ++ join [comma] (escapeCSV v' :: map escapeCSV vs))
      with (comma :: join [comma] (map escapeCSV (v' :: vs))).
    rewrite parseLoop_escaped. cbn [parseLoop].
    assert (C : ascii_eqb comma dquote = false) by reflexivity.
    rewrite C, ascii_eqb_refl. cbn [andb negb].
    rewrite IH. cbn [rev map]. rewrite <- app_assoc. reflexivity.
Qed.

Lemma Forall_trimStart (P : ascii -> Prop) (s : str) :
  Forall P s -> Forall P (trimStart s).
Proof.
  induction 1 as [|c s Hc Hs IH]; simpl; [constructor|].
  destruct (is_space c); [exact IH | constructor; assumption].
Qed.

Lemma Forall_trim (P : ascii -> Prop) (s : str) : Forall P s -> Forall P (trim s).
Proof.
  intro H. unfold trim, trimEnd. apply Forall_rev. apply Forall_trimStart.
  apply Forall_rev. apply Forall_trimStart. exact H.
Qed.

Lemma remove_quotes_clean (v : str) : has_char dquote (trim (remove_quotes v)) = false.
Proof.
  apply has_char_false. apply Forall_trim. unfold remove_quotes.
  apply Forall_forall. intros c Hc. apply filter_In in Hc. destruct Hc as [_ Hc].
  apply negb_true_iff in Hc. apply ascii_eqb_neq in Hc. exact Hc.
Qed.

(** *** The tags and domains field of the key form *)

Lemma no_comma (t : str) :
  has_char comma t = false -> forallb (fun x => negb (ascii_eqb comma x)) t = true.
Proof.
  intro H. apply has_char_false in H. rewrite Forall_forall in H.
  apply forallb_forall. intros x Hx. apply negb_true_iff. apply ascii_eqb_neq.
  intro E. apply (H x Hx). congruence.
Qed.

Lemma split_items (ts : list str) : forall t,
  Forall item_ok (t :: ts) ->
  split_on (ascii_eqb comma) (join (js ", ") (t :: ts)) = t :: map (cons (chr 32)) ts.
Proof.
  induction ts as [|t' ts IH]; intros t H.
  - apply split_on_no_sep. apply no_comma. inversion H as [|? ? [_ [_ C]] _]. exact C.
  - rewrite join_cons.
    change (js ", " ++ join (js ", ") (t' :: ts))
      with (comma :: chr 32 :: join (js ", ") (t' :: ts)).
    inversion H as [|? ? [_ [_ C]] Hrest]; subst.
    rewrite split_on_app; [|apply no_comma; exact C|apply ascii_eqb_refl].
    cbn [split_on]. change (ascii_eqb comma (chr 32)) with false. cbv iota.
    rewrite (IH t' Hrest). reflexivity.
Qed.

End FieldFacts.

(** X24 (a CSV row is read back field by field): a row made of one or
    more fields written by [escapeCSV] and joined by commas is split by
    [parseCSVLine] into as many values, each the field with every double
    quote removed and the white space at its ends trimmed; commas and
    line feeds inside a field are kept. *)
Theorem csv_row_is_read_back (vs : list str) :
  vs <> [] ->
  ImportExport.parseCSVLine (join [comma] (map ImportExport.escapeCSV vs))
  = map (fun v => trim (ImportExport.remove_quotes v)) vs.
Proof.
  destruct vs as [|v vs]; [contradiction|]. intros _.
  unfold ImportExport.parseCSVLine. rewrite FieldFacts.parseLoop_row.
  cbn [rev app]. rewrite map_map. apply map_ext. intro x.
  apply CsvFacts.strip_quotes_clean. apply FieldFacts.remove_quotes_clean.
Qed.

Lemma csv_row_is_read_back_witness :
  ImportExport.parseCSVLine
    (join [comma] (map ImportExport.escapeCSV [js "a,b"; []; js " say 'hi' "]))
  = map (fun v => trim (ImportExport.remove_quotes v)) [js "a,b"; []; js " say 'hi' "].
Proof.
  apply (csv_row_is_read_back [js "a,b"; []; js " say 'hi' "]). discriminate.
Defined.

(** X25 (the key form keeps a list it shows): the text that
    [loadKeyIntoForm] writes into the tags or domains field is read back
    by [saveKey] as the same list, provided every item is non-empty, has
    no white space at its ends and holds no comma. *)
Theorem form_list_round_trip (items : list str) :
  Forall Props.item_ok items ->
  PopupView.fieldItems (PopupView.fieldText items) = items.
Proof.
  intro H. unfold PopupView.fieldItems, PopupView.fieldText.
  destruct items as [|t ts]; [reflexivity|].
  rewrite (FieldFacts.split_items ts t H).
  assert (M : forall l,
             Forall Props.item_ok l ->
             filter truthy (map trim (map (cons (chr 32)) l)) = l).
  { induction l as [|x l IHl]; intro Hl; [reflexivity|].
    inversion Hl as [|? ? [Hx0 [Hx _]] Hl']; subst.
    cbn [map filter]. rewrite CsvFacts.trim_space_head by reflexivity. rewrite Hx.
    destruct x as [|c x]; [contradiction|]. cbn [truthy].
    rewrite (IHl Hl'). reflexivity. }
  inversion H as [|? ? [Ht0 [Ht _]] H']; subst.
  cbn [map filter]. rewrite Ht. destruct t as [|c t]; [contradiction|]. cbn [truthy].
  rewrite (M ts H'). reflexivity.
Qed.

Lemma form_list_round_trip_witness :
  PopupView.fieldItems (PopupView.fieldText [js "ai"; js "gpt 4"; js "a;b"])
  = [js "ai"; js "gpt 4"; js "a;b"].
Proof.
  apply (form_list_round_trip [js "ai"; js "gpt 4"; js "a;b"]).
  unfold Props.item_ok. repeat constructor; try discriminate; vm_compute; reflexivity.
Defined.

(** X26 (when the popup warns about expiration): with warnings switched
    on, a warning period of d days and an expiration time in range, a
    key is shown as expired exactly when its expiration time is before
    the clock, and as expiring in n days exactly when the time left is
    not negative and less than d + 1 days, n being the whole days left;
    otherwise nothing is shown. *)
Theorem expiration_warning_window (now x d : Z) (s : StorageManager.settings)
    (k : StorageManager.key str) :
  StorageManager.expiresAt k = Some x ->
  x <> 0 ->
  Z.abs x <= PopupView.max_time ->
  StorageManager.showExpirationWarnings s = Some true ->
  StorageManager.expirationWarningDays s = Some d ->
  (PopupView.getExpirationWarning now s k = Some PopupView.Expired <-> x < now)
  /\ (forall n, PopupView.getExpirationWarning now s k = Some (PopupView.ExpiresIn n)
                <-> n = (x - now) / PopupView.day_ms
                    /\ now <= x < now + (d + 1) * PopupView.day_ms)
  /\ (PopupView.getExpirationWarning now s k = None
      <-> now <= x /\ now + (d + 1) * PopupView.day_ms <= x).
Proof.
  intros E X R W D. unfold PopupView.getExpirationWarning.
  rewrite E, W, D. apply Z.eqb_neq in X. rewrite X. cbn [negb orb].
  assert (R' : (PopupView.max_time <? Z.abs x) = false) by (apply Z.ltb_ge; exact R).
  rewrite R'. unfold PopupView.day_ms.
  change (1000 * 60 * 60 * 24) with 86400000.
  set (q := (x - now) / 86400000).
  assert (Q1 : q < 0 <-> x < now) by (unfold q; Z.to_euclidean_division_equations; lia).
  assert (Q2 : q <= d <-> x < now + (d + 1) * 86400000)
    by (unfold q; Z.to_euclidean_division_equations; lia).
  destruct (q <? 0) eqn:C1.
  - apply Z.ltb_lt in C1. split; [tauto|]. split.
    + intro n. split; [discriminate|]. intros [_ [H _]]. lia.
    + split; [discriminate|]. intros [H _]. lia.
  - apply Z.ltb_ge in C1. destruct (q <=? d) eqn:C2.
    + apply Z.leb_le in C2. split; [split; [discriminate | lia]|]. split.
      * intro n. split.
        -- intros [= <-]. split; [reflexivity | lia].
        -- intros [-> _]. reflexivity.
      * split; [discriminate|]. lia.
    + apply Z.leb_gt in C2. split; [split; [discriminate | lia]|]. split.
      * intro n. split; [discriminate | lia].
      * split; [lia | reflexivity].
Qed.

Lemma expiration_warning_window_witness :
  PopupView.getExpirationWarning 1700000000000
    (StorageManager.getDefaultSettings)
    (StorageManager.Key (js "i") (js "S") (js "k") (js "e") [] 0 None None
       (Some 1700600000000) [] [] [] false [] 0)
  = Some (PopupView.ExpiresIn 6).
Proof.
  apply (proj1 (proj2 (expiration_warning_window 1700000000000 1700600000000 7
                         StorageManager.getDefaultSettings
                         (StorageManager.Key (js "i") (js "S") (js "k") (js "e") [] 0 None
                            None (Some 1700600000000) [] [] [] false [] 0)
                         eq_refl ltac:(discriminate) ltac:(vm_compute; discriminate)
                         eq_refl eq_refl)) 6).
  split; [vm_compute; reflexivity | vm_compute; split; [discriminate | reflexivity]].
Defined.

(** X27 (relative dates): [formatDate] shows 'just now' for less than a
    minute (and for times ahead of the clock), then whole minutes from 1
    to 59, whole hours from 1 to 23 and whole days from 1 to 6, each the
    floor of the time elapsed; it never shows 0 of a unit. The calendar
    date is shown from 7 days on, and for a time value out of the range
    of dates. *)
Theorem relative_date_ranges (now timestamp : Z) :
  match PopupView.formatDate now timestamp with
  | PopupView.JustNow => now - timestamp < 60000
  | PopupView.MinutesAgo n =>
      1 <= n <= 59 /\ n * 60000 <= now - timestamp < (n + 1) * 60000
  | PopupView.HoursAgo n =>
      1 <= n <= 23 /\ n * 3600000 <= now - timestamp < (n + 1) * 3600000
  | PopupView.DaysAgo n =>
      1 <= n <= 6 /\ n * 86400000 <= now - timestamp < (n + 1) * 86400000
  | PopupView.LocaleDate t =>
      t = timestamp
      /\ (7 * 86400000 <= now - timestamp \/ PopupView.max_time < Z.abs timestamp)
  end.
Proof.
  unfold PopupView.formatDate.
  set (diff := now - timestamp).
  destruct (PopupView.max_time <? Z.abs timestamp) eqn:R.
  { apply Z.ltb_lt in R. split; [reflexivity | right; exact R]. }
  clear R.
  destruct (diff / 60000 <? 1) eqn:M1.
  { apply Z.ltb_lt in M1. Z.to_euclidean_division_equations. lia. }
  apply Z.ltb_ge in M1.
  destruct (diff / 60000 <? 60) eqn:M2.
  { apply Z.ltb_lt in M2. Z.to_euclidean_division_equations. lia. }
  apply Z.ltb_ge in M2.
  destruct (diff / 3600000 <? 24) eqn:H1.
  { apply Z.ltb_lt in H1. Z.to_euclidean_division_equations. lia. }
  apply Z.ltb_ge in H1.
  destruct (diff / 86400000 <? 7) eqn:D1.
  { apply Z.ltb_lt in D1. Z.to_euclidean_division_equations. lia. }
  apply Z.ltb_ge in D1. split; [reflexivity|]. left.
  Z.to_euclidean_division_equations. lia.
Qed.

(* ================================================================== *)
(** * The .env adapter *)
(* ================================================================== *)

Module EnvFacts.

Import StorageManager ImportExport EnvFile CsvFacts Props.

Local Arguments ascii_eqb : simpl never.
Local Arguments is_space : simpl never.

(** *** Code units, by exhaustion *)

Ltac by_cases c :=
  destruct c as [[] [] [] [] [] [] [] []]; vm_compute; try reflexivity; try discriminate;
  intuition discriminate.

Lemma name_char_plain (c : ascii) :
  name_char c = true ->
  is_space c = false /\ ascii_eqb c hash = false /\ ascii_eqb c equals = false
  /\ ascii_eqb c newline = false.
Proof. by_cases c. Qed.

Lemma name_char_formats (c : ascii) :
  name_char c = true ->
  upper_char (lower_char (if ascii_eqb c underscore then space else c)) <> None.
Proof. by_cases c. Qed.

Lemma upper_alnum_chars (c : ascii) : forallb name_char (upper_alnum c) = true.
Proof. by_cases c. Qed.

(** *** The variable name *)

Lemma forallb_flat_map {A B} (p : B -> bool) (f : A -> list B) (l : list A) :
  (forall x, forallb p (f x) = true) -> forallb p (flat_map f l) = true.
Proof.
  intro H. induction l as [|x l IH]; simpl; [reflexivity|].
  rewrite forallb_app, H, IH. reflexivity.
Qed.

Lemma collapse_chars (p : ascii -> bool) (s : str) :
  forallb p s = true -> forallb p (collapse s) = true.
Proof.
  induction s as [|c s IH]; [reflexivity|].
  intro H. cbn [forallb] in H. apply andb_true_iff in H. destruct H as [Hc Hs].
  cbn [collapse]. destruct s as [|u s']; [cbn; rewrite Hc; reflexivity|].
  destruct (ascii_eqb c underscore && ascii_eqb u underscore).
  - apply IH. exact Hs.
  - cbn [forallb]. rewrite Hc. apply IH. exact Hs.
Qed.

Lemma forallb_rev {A} (p : A -> bool) (l : list A) : forallb p (rev l) = forallb p l.
Proof.
  induction l as [|x l IH]; [reflexivity|].
  cbn [rev forallb]. rewrite forallb_app, IH. cbn [forallb]. rewrite andb_true_r.
  apply andb_comm.
Qed.

Lemma strip_ends_chars (p : ascii -> bool) (s : str) :
  forallb p s = true -> forallb p (strip_ends s) = true.
Proof.
  intro H. unfold strip_ends.
  set (s1 := match s with
             | c :: s' => if ascii_eqb c underscore then s' else s
             | [] => []
             end).
  assert (H1 : forallb p s1 = true).
  { unfold s1. destruct s as [|c s']; [reflexivity|].
    destruct (ascii_eqb c underscore); [|exact H].
    cbn [forallb] in H. apply andb_true_iff in H. apply H. }
  destruct (rev s1) as [|c r] eqn:R; [reflexivity|].
  destruct (ascii_eqb c underscore); [|exact H1].
  rewrite forallb_rev. rewrite <- forallb_rev, R in H1.
  cbn [forallb] in H1. apply andb_true_iff in H1. apply H1.
Qed.

Lemma toEnvVarName_chars (s : str) : forallb name_char (toEnvVarName s) = true.
Proof.
  unfold toEnvVarName. rewrite forallb_app. apply andb_true_iff. split.
  - apply strip_ends_chars, collapse_chars, forallb_flat_map, upper_alnum_chars.
  - vm_compute. reflexivity.
Qed.

Lemma toEnvVarName_cons (s : str) : exists c v, toEnvVarName s = c :: v.
Proof.
  unfold toEnvVarName. destruct (strip_ends _) as [|c v].
  - eexists. eexists. reflexivity.
  - exists c. eexists. reflexivity.
Qed.

(** Collapsing leaves no two underscores in a row. *)
Lemma collapse_no_run (s : str) : no_run (collapse s) = true.
Proof.
  induction s as [|c s IH]; [reflexivity|].
  cbn [collapse]. destruct s as [|u s']; [reflexivity|].
  destruct (ascii_eqb c underscore && ascii_eqb u underscore) eqn:E; [exact IH|].
  cbn [no_run]. cbn [collapse] in *.
  destruct s' as [|u' s''].
  - cbn [no_run]. rewrite E. reflexivity.
  - destruct (ascii_eqb u underscore && ascii_eqb u' underscore) eqn:E'.
    + apply andb_true_iff in E'. destruct E' as [Eu Eu'].
      destruct (collapse (u' :: s'')) as [|x r] eqn:C; [reflexivity|].
      rewrite IH, andb_true_r.
      assert (X : x = underscore).
      { clear -C Eu'. apply ascii_eqb_eq in Eu'. subst u'.
        revert x r C. induction s'' as [|y t IHt]; intros x r C.
        - cbn in C. injection C as <- _. reflexivity.
        - cbn [collapse] in C.
          destruct (ascii_eqb underscore underscore && ascii_eqb y underscore) eqn:Y.
          + apply andb_true_iff in Y. destruct Y as [_ Y]. apply ascii_eqb_eq in Y.
            subst y. apply (IHt x r). exact C.
          + injection C as <- _. reflexivity. }
      subst x. rewrite ascii_eqb_refl, andb_true_r.
      apply andb_false_iff in E. destruct E as [E|E]; [rewrite E; reflexivity|].
      congruence.
    + rewrite E. cbn [negb andb]. exact IH.
Qed.

Lemma no_run_tail (c : ascii) (s : str) : no_run (c :: s) = true -> no_run s = true.
Proof.
  cbn [no_run]. destruct s as [|u s']; [reflexivity|].
  intro H. apply andb_true_iff in H. apply H.
Qed.

Lemma no_run_app (a b : str) : no_run (a ++ b) = true -> no_run a = true.
Proof.
  induction a as [|c a IH]; [reflexivity|].
  intro H. destruct a as [|u a']; [reflexivity|].
  cbn [app no_run] in *. apply andb_true_iff in H. destruct H as [H1 H2].
  rewrite H1. apply IH. exact H2.
Qed.

Lemma no_run_last (a : str) (x c : ascii) :
  no_run (a ++ [x; c]) = true ->
  ascii_eqb x underscore && ascii_eqb c underscore = false.
Proof.
  induction a as [|y a IH]; intro H.
  - cbn [app no_run] in H. rewrite andb_true_r in H. apply negb_true_iff in H. exact H.
  - apply IH. apply (no_run_tail y). exact H.
Qed.

(** *** Trimming a line *)

Lemma trimStart_app_last (a : str) (c : ascii) :
  is_space c = false -> trimStart (a ++ [c]) = trimStart a ++ [c].
Proof.
  intro H. induction a as [|x a IH]; simpl.
  - rewrite H. reflexivity.
  - destruct (is_space x); [exact IH | reflexivity].
Qed.

Lemma trim_cons (c : ascii) (s : str) :
  is_space c = false -> trim (c :: s) = c :: trimEnd s.
Proof.
  intro H. unfold trim. cbn [trimStart]. rewrite H. unfold trimEnd. cbn [rev].
  rewrite (trimStart_app_last _ _ H), rev_app_distr. reflexivity.
Qed.

Lemma trim_between (c d : ascii) (m : str) :
  is_space c = false -> is_space d = false -> trim (c :: m ++ [d]) = c :: m ++ [d].
Proof.
  intros Hc Hd. apply trim_of_ends.
  - cbn [trimStart]. rewrite Hc. reflexivity.
  - cbn [rev]. rewrite rev_app_distr. cbn [rev app trimStart]. rewrite Hd. reflexivity.
Qed.

(** *** Reading one line *)

Lemma span_name (var rest : str) :
  forallb name_char var = true ->
  span name_char (var ++ equals :: rest) = (var, equals :: rest).
Proof.
  induction var as [|c var IH]; intro H.
  - reflexivity.
  - cbn [forallb] in H. apply andb_true_iff in H. destruct H as [Hc Hv].
    cbn [app span]. rewrite Hc, (IH Hv). reflexivity.
Qed.

Lemma importEnvLine_comment (rest : str) : importEnvLine (hash :: rest) = None.
Proof.
  unfold importEnvLine. rewrite trim_cons by reflexivity.
  cbn [truthy negb orb startsWith]. rewrite ascii_eqb_refl. reflexivity.
Qed.

Lemma importEnvLine_empty : importEnvLine [] = None.
Proof. reflexivity. Qed.

Lemma removelast_snoc {A} (l : list A) (x : A) : removelast (l ++ [x]) = l.
Proof. apply removelast_last. Qed.

(** Words of code units that have a capital in the model are all
    capitalized. *)
Lemma capitalizeAll_words (sep : ascii -> bool) (t : str) :
  Forall (fun x => upper_char x <> None) t ->
  exists ws, capitalizeAll (split_on sep t) = Some ws.
Proof.
  induction 1 as [|x t Hx Ht IH]; [eexists; reflexivity|].
  destruct IH as [ws W]. cbn [split_on].
  destruct (sep x).
  - cbn [capitalizeAll capitalize]. rewrite W. eexists. reflexivity.
  - destruct (split_on sep t) as [|w rest].
    + cbn [capitalizeAll capitalize].
      destruct (upper_char x); [eexists; reflexivity | contradiction].
    + cbn [capitalizeAll capitalize] in *.
      destruct (upper_char x); [|contradiction].
      destruct (capitalize w); [|discriminate].
      destruct (capitalizeAll rest); [|discriminate].
      eexists. reflexivity.
Qed.

(** The assignment line of a key. *)
Lemma importEnvLine_assignment (k : key str) :
  importEnvLine (toEnvVarName (serviceName k) ++ [equals] ++ [dquote] ++ keyValue k
                 ++ [dquote])
  = if importable k then Some (reimported k) else None.
Proof.
  unfold importable, reimported.
  pose proof (toEnvVarName_chars (serviceName k)) as Ch.
  destruct (toEnvVarName_cons (serviceName k)) as [c [var E]].
  rewrite E in *. cbn [forallb] in Ch. apply andb_true_iff in Ch. destruct Ch as [Hc Hv].
  destruct (name_char_plain c Hc) as [Sc [Hh _]].
  set (value := keyValue k).
  unfold importEnvLine.
  change ((c :: var) ++ [equals] ++ [dquote] ++ value ++ [dquote])
    with (c :: var ++ equals :: dquote :: value ++ [dquote]).
  replace (trim (c :: var ++ equals :: dquote :: value ++ [dquote]))
    with (c :: var ++ equals :: dquote :: value ++ [dquote]).
  2: { symmetry.
       replace (c :: var ++ equals :: dquote :: value ++ [dquote])
         with (c :: (var ++ equals :: dquote :: value) ++ [dquote])
         by (rewrite <- app_assoc; reflexivity).
       apply trim_between; [exact Sc | reflexivity]. }
  cbn [truthy negb orb startsWith]. rewrite Hh. cbn [andb].
  unfold matchAssignment.
  destruct (name_start c) eqn:Ns; cbn [andb]; [|reflexivity].
  rewrite (span_name var _ Hv).
  assert (T1 : trimStart (equals :: dquote :: value ++ [dquote])
               = equals :: dquote :: value ++ [dquote]) by reflexivity.
  rewrite T1. rewrite ascii_eqb_refl.
  assert (T2 : trimStart (dquote :: value ++ [dquote]) = dquote :: value ++ [dquote])
    by reflexivity.
  rewrite T2. cbn [truthy andb existsb].
  assert (Ld : line_terminator dquote = false) by reflexivity.
  rewrite Ld. cbn [orb]. rewrite existsb_app. cbn [existsb]. rewrite Ld, !orb_false_r.
  destruct (existsb line_terminator value) eqn:Lt; cbn [negb andb]; [reflexivity|].
  rewrite (trim_between dquote dquote value) by reflexivity.
  unfold unquote. cbn [startsWith]. rewrite ascii_eqb_refl. cbn [andb].
  unfold endsWith. cbn [rev]. rewrite rev_app_distr. cbn [rev app].
  rewrite ascii_eqb_refl. cbn [orb tl]. rewrite removelast_snoc.
  destruct (looksLikeAPIKey (c :: var) value); [|reflexivity].
  destruct (formatEnvVarName (c :: var)) as [n|] eqn:F; [reflexivity|].
  exfalso. revert F. unfold formatEnvVarName.
  destruct (capitalizeAll_words (ascii_eqb space)
              (toLowerCase
                 (map (fun x => if ascii_eqb x underscore then space else x) (c :: var))))
    as [ws W].
  { unfold toLowerCase. rewrite map_map. apply Forall_map.
    apply Forall_forall. intros x Hx. apply name_char_formats.
    assert (A : forallb name_char (c :: var) = true)
      by (cbn [forallb]; rewrite Hc, Hv; reflexivity).
    rewrite forallb_forall in A. apply A. exact Hx. }
  rewrite W. discriminate.
Qed.

Lemma importEnvLines_app (a b : list str) :
  importEnvLines (a ++ b) = importEnvLines a ++ importEnvLines b.
Proof.
  induction a as [|l a IH]; [reflexivity|].
  cbn [app importEnvLines]. destruct (importEnvLine l); rewrite IH; reflexivity.
Qed.

Lemma importEnvLine_remark (rest : str) : importEnvLine (js "# " ++ rest) = None.
Proof. exact (importEnvLine_comment (space :: rest)). Qed.

Lemma importEnvLines_key (k : key str) :
  importEnvLines (envLines k) = if importable k then [reimported k] else [].
Proof.
  unfold envLines.
  destruct (truthy (notes k)); cbn [app importEnvLines];
    rewrite ?importEnvLine_remark, importEnvLine_assignment, importEnvLine_empty;
    destruct (importable k); reflexivity.
Qed.

Lemma importEnvLines_keys (ks : list (key str)) :
  importEnvLines (flat_map envLines ks) = map reimported (filter importable ks).
Proof.
  induction ks as [|k ks IH]; [reflexivity|].
  cbn [flat_map filter]. rewrite importEnvLines_app, importEnvLines_key, IH.
  destruct (importable k); reflexivity.
Qed.

(** *** The lines of the file *)

Lemma has_char_forallb (c : ascii) (s : str) (p : ascii -> bool) :
  (forall x, p x = true -> ascii_eqb x c = false) ->
  forallb p s = true -> has_char c s = false.
Proof.
  intros H F. apply has_char_false. apply Forall_forall. intros x Hx.
  rewrite forallb_forall in F. specialize (H x (F x Hx)).
  apply ascii_eqb_neq in H. exact H.
Qed.

Lemma envLines_one_line (k : key str) :
  one_line k -> Forall (fun r => has_char newline r = false) (envLines k).
Proof.
  intros [N [E [O V]]]. unfold envLines.
  apply Forall_app. split; [|apply Forall_app; split].
  - constructor; [|constructor].
    rewrite !has_char_app, N, E. reflexivity.
  - destruct (truthy (notes k)); constructor; [|constructor].
    rewrite has_char_app, O. reflexivity.
  - constructor; [|constructor; [reflexivity | constructor]].
    rewrite !has_char_app, V.
    rewrite (has_char_forallb newline _ name_char); [reflexivity | | apply toEnvVarName_chars].
    intros x Hx. apply name_char_plain. exact Hx.
Qed.

Lemma importEnvFile_lines (iso : str) (ks : list (key str)) :
  Forall one_line ks ->
  has_char newline iso = false ->
  importEnvFile (join [newline]
                   ([js "# KeyVault Pro Export"; js "# Generated: " ++ iso; []]
                    ++ flat_map envLines ks))
  = map reimported (filter importable ks).
Proof.
  intros H I. unfold importEnvFile. rewrite CsvFacts.split_join_lines.
  - rewrite importEnvLines_app, importEnvLines_keys.
    assert (A1 : importEnvLine (js "# KeyVault Pro Export") = None)
      by exact (importEnvLine_remark (js "KeyVault Pro Export")).
    assert (A2 : importEnvLine (js "# Generated: " ++ iso) = None)
      by exact (importEnvLine_remark (js "Generated: " ++ iso)).
    cbn [importEnvLines]. rewrite A1, A2, importEnvLine_empty.
    reflexivity.
  - discriminate.
  - apply Forall_app. split.
    + constructor; [reflexivity|]. constructor; [|constructor; [reflexivity|constructor]].
      rewrite CsvFacts.has_char_app, I. reflexivity.
    + apply Forall_flat_map. eapply Forall_impl; [|exact H].
      intros k Hk. apply envLines_one_line. exact Hk.
Qed.

End EnvFacts.

(** X28 (the shape of a variable name): [toEnvVarName] answers a text
    made of the letters A-Z, the digits and underscores only, which ends
    in _API_KEY; the part before that ending holds no two underscores in
    a row and neither starts nor ends with an underscore. *)
Theorem env_var_name_shape (serviceName : str) :
  exists body,
    EnvFile.toEnvVarName serviceName = body ++ js "_API_KEY"
    /\ forallb EnvFile.name_char (EnvFile.toEnvVarName serviceName) = true
    /\ Props.no_run body = true
    /\ startsWith body [EnvFile.underscore] = false
    /\ EnvFile.endsWith body EnvFile.underscore = false.
Proof.
  eexists. split; [reflexivity|]. split; [apply EnvFacts.toEnvVarName_chars|].
  set (s := EnvFile.collapse (flat_map EnvFile.upper_alnum serviceName)).
  pose proof (EnvFacts.collapse_no_run (flat_map EnvFile.upper_alnum serviceName)) as N.
  fold s in N. clearbody s. unfold EnvFile.strip_ends.
  set (s1 := match s with
             | c :: s' => if ascii_eqb c EnvFile.underscore then s' else s
             | [] => []
             end).
  assert (N1 : Props.no_run s1 = true).
  { unfold s1. destruct s as [|c s']; [reflexivity|].
    destruct (ascii_eqb c EnvFile.underscore); [|exact N].
    apply (EnvFacts.no_run_tail c). exact N. }
  assert (S1 : startsWith s1 [EnvFile.underscore] = false).
  { unfold s1. destruct s as [|c s']; [reflexivity|].
    destruct (ascii_eqb c EnvFile.underscore) eqn:E.
    - destruct s' as [|u s'']; [reflexivity|].
      cbn [startsWith]. rewrite andb_true_r.
      cbn [Props.no_run] in N. apply andb_true_iff in N. destruct N as [N _].
      rewrite E in N. cbn [andb] in N. apply negb_true_iff in N. exact N.
    - cbn [startsWith]. rewrite E. reflexivity. }
  destruct (rev s1) as [|c r] eqn:R.
  - repeat split; reflexivity.
  - assert (E1 : s1 = rev r ++ [c]).
    { rewrite <- (rev_involutive s1), R. reflexivity. }
    destruct (ascii_eqb c EnvFile.underscore) eqn:E.
    + split; [|split].
      * apply (EnvFacts.no_run_app (rev r) [c]). rewrite <- E1. exact N1.
      * rewrite E1 in S1. destruct (rev r) as [|x t]; [reflexivity|].
        cbn [app startsWith] in *. exact S1.
      * unfold EnvFile.endsWith. rewrite rev_involutive.
        destruct r as [|u r']; [reflexivity|].
        cbn [rev] in E1. rewrite <- app_assoc in E1. cbn [app] in E1.
        rewrite E1 in N1. apply EnvFacts.no_run_last in N1.
        rewrite E, andb_true_r in N1. exact N1.
    + split; [exact N1|]. split; [exact S1|].
      unfold EnvFile.endsWith. rewrite R. exact E.
Qed.

(** X29 (what comes back from an exported .env file): for keys whose
    texts are made of code units below 256 and hold no line feed, the
    file that [exportToEnv] writes is read by [importEnvFile] as one key
    for every exported key, in order, whose variable name starts with a
    letter or an underscore and whose value holds no carriage return, has
    16 or more code units and holds a letter and a digit; the other keys
    are left out. The key value comes back unchanged; the service name
    comes back as the variable name reformatted, the environment as
    detected from the variable name, the notes as the import notice and
    the tags as [env-import]. *)
Theorem env_file_round_trip (now : Z) (ks : list (StorageManager.key str)) (text : str) :
  Forall Props.one_line ks ->
  EnvFile.exportToEnv now ks = Some text ->
  EnvFile.importEnvFile text = map Props.reimported (filter Props.importable ks)
  /\ map ImportExport.i_keyValue (EnvFile.importEnvFile text)
     = map StorageManager.keyValue (filter Props.importable ks)
  /\ Forall (fun i => ImportExport.i_serviceName i <> None) (EnvFile.importEnvFile text).
Proof.
  intros H E. unfold EnvFile.exportToEnv in E.
  destruct (JSDate.toISOString now) as [iso|] eqn:I; [|discriminate].
  assert (R : EnvFile.importEnvFile text
              = map Props.reimported (filter Props.importable ks)).
  { replace text with (join [newline]
                         ([js "# KeyVault Pro Export"; js "# Generated: " ++ iso; []]
                          ++ flat_map EnvFile.envLines ks)) by congruence.
    apply EnvFacts.importEnvFile_lines; [exact H|].
    exact (CsvFacts.toISOString_no_newline now iso I). }
  rewrite R. split; [reflexivity|]. split.
  - rewrite map_map. reflexivity.
  - apply Forall_forall. intros i Hi. apply in_map_iff in Hi.
    destruct Hi as [k [<- Hk]]. apply filter_In in Hk. destruct Hk as [_ Hk].
    pose proof (EnvFacts.importEnvLine_assignment k) as A. rewrite Hk in A.
    unfold Props.reimported. cbn [ImportExport.i_serviceName].
    intro N. unfold EnvFile.importEnvLine in A.
    destruct (negb _ || _); [discriminate|].
    destruct (EnvFile.matchAssignment _) as [[n v]|]; [|discriminate].
    destruct (EnvFile.looksLikeAPIKey n _); [|discriminate].
    destruct (EnvFile.formatEnvVarName n) as [sn|] eqn:F; [|discriminate].
    injection A as A _. unfold Props.reimported in A. congruence.
Qed.

Lemma env_file_round_trip_witness :
  exists text,
    EnvFile.exportToEnv 1700000000000
      [StorageManager.Key (js "i") (js "Open AI") (js "sk-abcdefghij0123456789") (js "dev")
         [] 0 None None None (js "main") [] [] false [] 0] = Some text
    /\ map ImportExport.i_keyValue (EnvFile.importEnvFile text)
       = [js "sk-abcdefghij0123456789"].
Proof.
  eexists.
  assert (E : EnvFile.exportToEnv 1700000000000
                [StorageManager.Key (js "i") (js "Open AI") (js "sk-abcdefghij0123456789")
                   (js "dev") [] 0 None None None (js "main") [] [] false [] 0]
              = Some ltac:(let x := eval vm_compute in
                             (match EnvFile.exportToEnv 1700000000000
                                      [StorageManager.Key (js "i") (js "Open AI")
                                         (js "sk-abcdefghij0123456789") (js "dev") [] 0 None
                                         None None (js "main") [] [] false [] 0] with
                              | Some t => t
                              | None => []
                              end) in exact x)) by (vm_compute; reflexivity).
  split; [exact E|].
  refine (eq_trans (proj1 (proj2 (env_file_round_trip _ _ _ _ E))) _).
  - repeat constructor.
  - vm_compute. reflexivity.
Defined.
